(** * LMArenaBridge multi-instance core: pool coordinator, health monitor,
      load balancer.

    A shallow embedding of [modules/browser_manager.py],
    [modules/instance_coordinator.py], [modules/health_monitor.py] and
    [modules/load_balancer.py].

    Conventions of the embedding:
    - instance and request ids are Python [str], here [string];
    - a Python [set] is a [gset string]; the order in which Python iterates
      over a set is not fixed by the language, so [list(s)] is modelled by an
      explicit enumeration of the set (see [enumerates]);
    - a Python [dict] whose iteration order is observed is an insertion
      ordered association list ([dict]); the others are [gmap];
    - configuration integers are [Z]; lengths and counters are [nat];
    - Python floats (seconds, averages, load) are read as exact rationals
      [Qc]; [time.time()] and [datetime.now()] are explicit clock readings;
    - what the outside world decides (the uuid drawn for a new instance, how
      the browser launch went, random draws, what other tasks do while a
      coroutine sleeps) enters as an explicit argument;
    - [try: ... except Exception: return X] is the total function returning
      [X] on the failing branch. *)

From Stdlib Require Import ZArith QArith Qcanon String List Lia.
From stdpp Require Import base gmap sets list strings.

Open Scope string_scope.
Open Scope list_scope.
Open Scope Z_scope.

(** ** Insertion-ordered dictionaries (Python [dict]) *)

Section PyDict.
Context {V : Type}.

Definition dict := list (string * V).

(** [d.get(k)] *)
Fixpoint dict_get (d : dict) (k : string) : option V :=
  match d with
  | [] => None
  | (k', v) :: r => if String.eqb k' k then Some v else dict_get r k
  end.

(** [d[k] = v]: an existing key keeps its position, a new key goes last *)
Fixpoint dict_set (d : dict) (k : string) (v : V) : dict :=
  match d with
  | [] => [(k, v)]
  | (k', v') :: r =>
      if String.eqb k' k then (k', v) :: r else (k', v') :: dict_set r k v
  end.

(** [del d[k]] / [d.pop(k, None)] *)
Fixpoint dict_del (d : dict) (k : string) : dict :=
  match d with
  | [] => []
  | (k', v') :: r =>
      if String.eqb k' k then r else (k', v') :: dict_del r k
  end.

(** [k in d] *)
Definition dict_mem (d : dict) (k : string) : bool :=
  match dict_get d k with Some _ => true | None => false end.

Definition dict_keys (d : dict) : list string := map fst d.
Definition dict_values (d : dict) : list V := map snd d.
End PyDict.

Arguments dict V : clear implicits.

(** Python's [min(a, b)] and [max(a, b)] on numbers: the first argument
    unless the second is strictly smaller (larger). *)
Definition py_min (a b : Qc) : Qc :=
  match (b ?= a)%Qc with Lt => b | _ => a end.

Definition py_max (a b : Qc) : Qc :=
  match (b ?= a)%Qc with Gt => b | _ => a end.

Definition Qc_ltb (a b : Qc) : bool :=
  match (a ?= b)%Qc with Lt => true | _ => false end.

Definition Qc_leb (a b : Qc) : bool :=
  match (a ?= b)%Qc with Gt => false | _ => true end.

(** An [int] used in a float operation. *)
Definition of_int (n : nat) : Qc := Q2Qc (inject_Z (Z.of_nat n)).

(** Python truthiness of an [Optional[str]]: [None] and [''] are falsy. *)
Definition truthy (o : option string) : bool :=
  match o with
  | Some s => negb (String.eqb s "")
  | None => false
  end.

(** [l[-n:]] for a positive [n]. *)
Definition last_n {A} (n : nat) (l : list A) : list A :=
  skipn (length l - n)%nat l.

(** ** browser_manager.py *)

Module browser_manager.

(** The values [BrowserInstance.status] takes in the source. *)
Inductive Status :=
| initializing      (* 'initializing' *)
| ready             (* 'ready' *)
| ready_fallback    (* 'ready_fallback' *)
| failed.           (* 'failed' *)

Definition Status_eqb (a b : Status) : bool :=
  match a, b with
  | initializing, initializing | ready, ready
  | ready_fallback, ready_fallback | failed, failed => true
  | _, _ => false
  end.

Record BrowserInstance := {
  instance_id : string;
  status : Status;
  request_count : nat
}.

Definition set_status (i : BrowserInstance) (s : Status) : BrowserInstance :=
  {| instance_id := instance_id i; status := s;
     request_count := request_count i |}.

(** [BrowserInstance.__init__] *)
Definition new_instance (id : string) : BrowserInstance :=
  {| instance_id := id; status := initializing; request_count := 0 |}.

(** How the page set-up of [_navigate_and_setup] went: the regular path ends
    in [_generate_session_ids] (which returns [True] or [False]); a Cloudflare
    page or an exception diverts to [_setup_fallback_mode]. *)
Inductive NavOutcome :=
| NavSessionOk
| NavSessionFailed
| NavFallbackOk
| NavFallbackRaised.

(** How [initialize] went up to the call of [_navigate_and_setup]. *)
Inductive LaunchOutcome :=
| LaunchRaised
| Launched (nav : NavOutcome).

(** [BrowserInstance._setup_fallback_mode] *)
Definition _setup_fallback_mode (i : BrowserInstance) (raised : bool)
  : BrowserInstance * bool :=
  if raised then (i, false) else (set_status i ready_fallback, true).

(** [BrowserInstance._navigate_and_setup] *)
Definition _navigate_and_setup (i : BrowserInstance) (nav : NavOutcome)
  : BrowserInstance * bool :=
  match nav with
  | NavSessionOk => (i, true)
  | NavSessionFailed => (i, false)
  | NavFallbackOk => _setup_fallback_mode i false
  | NavFallbackRaised => _setup_fallback_mode i true
  end.

(** [BrowserInstance.initialize] *)
Definition initialize (i : BrowserInstance) (l : LaunchOutcome)
  : BrowserInstance * bool :=
  match l with
  | LaunchRaised => (set_status i failed, false)
  | Launched nav =>
      let '(i', success) := _navigate_and_setup i nav in
      if success then (set_status i' ready, true)
      else (set_status i' failed, false)
  end.

(** What the world contributes to one [BrowserManager.create_instance]: the
    uuid drawn, how the launch went, and the clock. *)
Record CreateOutcome := {
  uuid : string;
  launch : LaunchOutcome;
  clock : Qc
}.

(** [BrowserManager.instances]; [instance_configs] has the same keys
    throughout and is not read by the modelled code. *)
Definition BrowserManager := dict BrowserInstance.

(** [BrowserManager.create_instance] *)
Definition create_instance (bm : BrowserManager) (o : CreateOutcome)
  : option string * BrowserManager :=
  let '(inst, success) := initialize (new_instance (uuid o)) (launch o) in
  if success then (Some (uuid o), dict_set bm (uuid o) inst)
  else (None, bm).

(** [BrowserManager.remove_instance] *)
Definition remove_instance (bm : BrowserManager) (id : string)
  : bool * BrowserManager :=
  if dict_mem bm id then (true, dict_del bm id) else (false, bm).

(** [BrowserManager.get_instance] *)
Definition get_instance (bm : BrowserManager) (id : string)
  : option BrowserInstance := dict_get bm id.

(** The loop of [BrowserManager.cleanup_all] over
    [list(self.instances.keys())]. *)
Fixpoint cleanup_loop (ids : list string) (bm : BrowserManager)
  : BrowserManager :=
  match ids with
  | [] => bm
  | id :: r => cleanup_loop r (snd (remove_instance bm id))
  end.

(** [BrowserManager.cleanup_all] *)
Definition cleanup_all (bm : BrowserManager) : BrowserManager :=
  cleanup_loop (dict_keys bm) bm.

(** What the page does when [BrowserInstance.health_check] runs: whether
    [page.evaluate] answers (a missing page or browser is no answer),
    whether [_is_session_expired] holds at that moment, and what
    [_generate_session_ids] returns if the session is regenerated. *)
Record HealthOutcome := {
  responsive : bool;
  session_expired : bool;
  regenerated : bool
}.

(** [BrowserInstance._regenerate_session] *)
Definition _regenerate_session (i : BrowserInstance) (o : HealthOutcome)
  : BrowserInstance * bool :=
  ({| instance_id := instance_id i; status := status i;
      request_count := 0 |}, regenerated o).

(** [BrowserInstance.health_check] *)
Definition health_check (i : BrowserInstance) (o : HealthOutcome)
  : BrowserInstance * bool :=
  if negb (responsive o) then (i, false)
  else if Status_eqb (status i) ready_fallback then (i, true)
  else if session_expired o then _regenerate_session i o
  else (i, true).

End browser_manager.

(** One entry of an [active_requests] dictionary (coordinator and load
    balancer keep one each). *)
Record ActiveRequest := {
  req_instance_id : string;
  start_time : Qc;
  payload_size : nat
}.

(** [sum(1 for req in active_requests.values()
          if req.get('instance_id') == instance_id)] *)
Definition active_count (active : dict ActiveRequest) (id : string) : nat :=
  length (List.filter (fun r => String.eqb (req_instance_id r) id)
                 (dict_values active)).

(** [min(instance_loads.items(), key=lambda x: x[1])]: the scan keeps the
    item it holds unless the next one has a strictly smaller key. *)
Fixpoint min_scan (best : string * nat) (rest : list (string * nat))
  : string * nat :=
  match rest with
  | [] => best
  | x :: r =>
      if Nat.ltb (snd x) (snd best) then min_scan x r else min_scan best r
  end.

(** The body shared, line for line, by [LoadBalancer._least_busy_strategy],
    [InstanceCoordinator._least_busy_selection] and the scan of
    [_scale_down]; [healthy] is the order in which the healthy set is
    iterated. *)
Definition least_busy (healthy : list string) (active : dict ActiveRequest)
  : option string :=
  match healthy with
  | [] => None
  | _ =>
      let instance_loads :=
        fold_left (fun d id => dict_set d id (active_count active id))
                  healthy [] in
      match instance_loads with
      | [] => None
      | x :: r => Some (fst (min_scan x r))
      end
  end.

(** ** instance_coordinator.py *)

Module instance_coordinator.

Import browser_manager.

(** One entry of [InstanceCoordinator.instance_metrics]. *)
Record Metrics := {
  requests_handled : nat;
  total_response_time : Qc;
  average_response_time : Qc;
  errors : nat;
  created_at : Qc;
  metrics_healthy : bool     (* 'status': 'healthy' / 'unhealthy' *)
}.

Record InstanceCoordinator := {
  min_instances : Z;
  max_instances : Z;
  initial_count : Z;
  browser_manager : BrowserManager;
  active_requests : dict ActiveRequest;
  healthy_instances : gset string;
  unhealthy_instances : gset string;
  instance_metrics : gmap string Metrics
}.

Definition with_pool (c : InstanceCoordinator) (bm : BrowserManager)
    (h u : gset string) (m : gmap string Metrics) : InstanceCoordinator :=
  {| min_instances := min_instances c;
     max_instances := max_instances c;
     initial_count := initial_count c;
     browser_manager := bm;
     active_requests := active_requests c;
     healthy_instances := h;
     unhealthy_instances := u;
     instance_metrics := m |}.

Definition with_membership (c : InstanceCoordinator) (h u : gset string)
  : InstanceCoordinator :=
  with_pool c (browser_manager c) h u (instance_metrics c).

(** [InstanceCoordinator.__init__] on the three size settings. *)
Definition new_coordinator (mn mx ini : Z) : InstanceCoordinator :=
  {| min_instances := mn; max_instances := mx; initial_count := ini;
     browser_manager := []; active_requests := [];
     healthy_instances := ∅; unhealthy_instances := ∅;
     instance_metrics := ∅ |}.

(** the record stored by [_initialize_instance_metrics] *)
Definition fresh_metrics (now : Qc) : Metrics :=
  {| requests_handled := 0; total_response_time := 0%Qc;
     average_response_time := 0%Qc; errors := 0;
     created_at := now; metrics_healthy := true |}.

(** The lines [initialize] and [create_instance] have in common: ask the
    browser manager, and on a truthy id add it to [healthy_instances] and
    set up its metrics. *)
Definition register_created (c : InstanceCoordinator) (o : CreateOutcome)
  : option string * InstanceCoordinator :=
  let '(r, bm) := browser_manager.create_instance (browser_manager c) o in
  if truthy r then
    (r, with_pool c bm ({[uuid o]} ∪ healthy_instances c)
          (unhealthy_instances c)
          (<[uuid o := fresh_metrics (clock o)]> (instance_metrics c)))
  else
    (None, with_pool c bm (healthy_instances c) (unhealthy_instances c)
             (instance_metrics c)).

(** [InstanceCoordinator.create_instance] *)
Definition create_instance (c : InstanceCoordinator) (o : CreateOutcome)
  : option string * InstanceCoordinator :=
  if Z.of_nat (length (browser_manager c)) >=? max_instances c
  then (None, c)
  else register_created c o.

(** Two calls of [create_instance] whose launches overlap.  A call is
    suspended at [await self.browser_manager.create_instance(...)], between
    its test of the bound and the registration of the instance, so a second
    call started meanwhile (the handlers of two probes run as tasks of one
    [asyncio.gather]) makes its test on the pool as the first call found it;
    each call registers when its own launch has resolved, here the first
    before the second. *)
Definition create_instance_overlapping (c : InstanceCoordinator)
    (o1 o2 : CreateOutcome)
  : (option string * option string) * InstanceCoordinator :=
  let refused := Z.of_nat (length (browser_manager c)) >=? max_instances c in
  let '(r1, c1) := if refused then (None, c) else register_created c o1 in
  let '(r2, c2) := if refused then (None, c1) else register_created c1 o2 in
  ((r1, r2), c2).

(** The loop of [InstanceCoordinator.initialize] over
    [range(initial_count)]; [world k] is what the [k]-th creation meets. *)
Fixpoint initialize_loop (n : nat) (k : nat) (world : nat -> CreateOutcome)
    (c : InstanceCoordinator) : InstanceCoordinator :=
  match n with
  | O => c
  | S n' => initialize_loop n' (S k) world (snd (register_created c (world k)))
  end.

(** [InstanceCoordinator.initialize] *)
Definition initialize (c : InstanceCoordinator) (world : nat -> CreateOutcome)
  : bool * InstanceCoordinator :=
  let c' := initialize_loop (Z.to_nat (initial_count c)) 0 world c in
  (negb (Nat.eqb (size (healthy_instances c')) 0), c').

(** [InstanceCoordinator.remove_instance] *)
Definition remove_instance (c : InstanceCoordinator) (id : string)
  : bool * InstanceCoordinator :=
  if Z.of_nat (size (healthy_instances c)) <=? min_instances c
  then (false, c)
  else
    let '(success, bm) :=
      browser_manager.remove_instance (browser_manager c) id in
    if success then
      (true, with_pool c bm (healthy_instances c ∖ {[id]})
               (unhealthy_instances c ∖ {[id]})
               (delete id (instance_metrics c)))
    else (false, c).

(** [InstanceCoordinator._least_busy_selection]; [list_of_set] is the order
    in which Python iterates over the set. *)
Definition _least_busy_selection (list_of_set : gset string -> list string)
    (c : InstanceCoordinator) : option string :=
  if Nat.eqb (size (healthy_instances c)) 0 then None
  else least_busy (list_of_set (healthy_instances c)) (active_requests c).

(** [InstanceCoordinator._calculate_current_load] *)
Definition _calculate_current_load (c : InstanceCoordinator) : Qc :=
  if Nat.eqb (size (healthy_instances c)) 0 then 1%Qc
  else
    let active_count := length (active_requests c) in
    let available_count := size (healthy_instances c) in
    py_min (of_int active_count / of_int available_count)%Qc 1%Qc.

(** [self.instance_metrics[instance_id]['status'] = ...] *)
Definition set_metrics_status (b : bool) (m : Metrics) : Metrics :=
  {| requests_handled := requests_handled m;
     total_response_time := total_response_time m;
     average_response_time := average_response_time m;
     errors := errors m;
     created_at := created_at m;
     metrics_healthy := b |}.

(** One turn of the loop of [health_check_all_instances]; [o] is what the
    probe of the instance meets.  The instance is probed in place, so the
    registry holds the probed instance afterwards. *)
Definition mark_instance (c : InstanceCoordinator) (id : string)
    (o : HealthOutcome) : InstanceCoordinator :=
  match get_instance (browser_manager c) id with
  | None => c
  | Some instance =>
      let '(instance', is_healthy) :=
        browser_manager.health_check instance o in
      let bm := dict_set (browser_manager c) id instance' in
      if is_healthy then
        with_pool c bm
          ({[id]} ∪ healthy_instances c) (unhealthy_instances c ∖ {[id]})
          (alter (set_metrics_status true) id (instance_metrics c))
      else
        with_pool c bm
          (healthy_instances c ∖ {[id]}) ({[id]} ∪ unhealthy_instances c)
          (alter (set_metrics_status false) id (instance_metrics c))
  end.

(** The loop [for instance_id in all_instances]. *)
Fixpoint health_check_loop (ids : list string)
    (probe : string -> HealthOutcome)
    (c : InstanceCoordinator) : InstanceCoordinator :=
  match ids with
  | [] => c
  | id :: r => health_check_loop r probe (mark_instance c id (probe id))
  end.

(** The loop of [_handle_unhealthy_instances] over the snapshot
    [list(self.unhealthy_instances)]; the result of [remove_instance] is
    not looked at, and [world k] is what a replacement requested in turn [k]
    meets. *)
Fixpoint handle_unhealthy_loop (ids : list string) (k : nat)
    (world : nat -> CreateOutcome) (c : InstanceCoordinator)
  : InstanceCoordinator :=
  match ids with
  | [] => c
  | id :: r =>
      let c1 := snd (remove_instance c id) in
      let c2 :=
        if Z.of_nat (size (healthy_instances c1)) <? min_instances c1
        then snd (create_instance c1 (world k))
        else c1 in
      handle_unhealthy_loop r (S k) world c2
  end.

(** [InstanceCoordinator._handle_unhealthy_instances] *)
Definition _handle_unhealthy_instances
    (list_of_set : gset string -> list string)
    (c : InstanceCoordinator) (world : nat -> CreateOutcome)
  : InstanceCoordinator :=
  handle_unhealthy_loop (list_of_set (unhealthy_instances c)) 0 world c.

(** The first half of [health_check_all_instances]: every instance of the
    snapshot [set(self.browser_manager.instances.keys())] is probed and
    marked. *)
Definition probe_all_instances
    (list_of_set : gset string -> list string)
    (c : InstanceCoordinator) (probe : string -> HealthOutcome)
  : InstanceCoordinator :=
  let all_instances : gset string :=
    list_to_set (dict_keys (browser_manager c)) in
  health_check_loop (list_of_set all_instances) probe c.

(** [InstanceCoordinator.health_check_all_instances], run without another
    task touching the pool in between. *)
Definition health_check_all_instances
    (list_of_set : gset string -> list string)
    (c : InstanceCoordinator) (probe : string -> HealthOutcome)
    (world : nat -> CreateOutcome) : InstanceCoordinator :=
  _handle_unhealthy_instances list_of_set
    (probe_all_instances list_of_set c probe) world.

(** The scaling fields of the coordinator object ([auto_scale], the two
    thresholds, [last_scale_action], [scale_cooldown]), kept beside the
    pool fields; the scaling methods act on the pair. *)
Record Scaling := {
  auto_scale : bool;
  scale_up_threshold : Qc;
  scale_down_threshold : Qc;
  last_scale_action : option Qc;
  scale_cooldown : Qc
}.

Definition stamp (sc : Scaling) (now : Qc) : Scaling :=
  {| auto_scale := auto_scale sc;
     scale_up_threshold := scale_up_threshold sc;
     scale_down_threshold := scale_down_threshold sc;
     last_scale_action := Some now;
     scale_cooldown := scale_cooldown sc |}.

(** [self.last_scale_action and
     time.time() - self.last_scale_action < self.scale_cooldown];
    [None] and [0.0] are falsy. *)
Definition in_cooldown (sc : Scaling) (now : Qc) : bool :=
  match last_scale_action sc with
  | None => false
  | Some t =>
      if Qc_eq_dec t 0%Qc then false
      else Qc_ltb (now - t)%Qc (scale_cooldown sc)
  end.

(** [InstanceCoordinator._scale_up]; [later] is the clock when the action
    is stamped. *)
Definition _scale_up (c : InstanceCoordinator) (sc : Scaling)
    (o : CreateOutcome) (later : Qc) : InstanceCoordinator * Scaling :=
  let '(instance_id, c') := create_instance c o in
  if truthy instance_id then (c', stamp sc later) else (c', sc).

(** [InstanceCoordinator._scale_down]; [min] of an empty [instance_loads]
    raises and the method's [except] leaves the state as it is. *)
Definition _scale_down (list_of_set : gset string -> list string)
    (c : InstanceCoordinator) (sc : Scaling) (later : Qc)
  : InstanceCoordinator * Scaling :=
  if Z.of_nat (size (healthy_instances c)) <=? min_instances c then (c, sc)
  else
    match least_busy (list_of_set (healthy_instances c)) (active_requests c)
    with
    | None => (c, sc)
    | Some instance_to_remove =>
        let '(success, c') := remove_instance c instance_to_remove in
        if success then (c', stamp sc later) else (c', sc)
    end.

(** [InstanceCoordinator.scale_instances]; [now] is the clock of the
    cooldown test. *)
Definition scale_instances (list_of_set : gset string -> list string)
    (c : InstanceCoordinator) (sc : Scaling) (now later : Qc)
    (o : CreateOutcome) : InstanceCoordinator * Scaling :=
  if negb (auto_scale sc) then (c, sc)
  else if in_cooldown sc now then (c, sc)
  else
    let current_load := _calculate_current_load c in
    let should_scale_up := Qc_ltb (scale_up_threshold sc) current_load in
    let should_scale_down := Qc_ltb current_load (scale_down_threshold sc) in
    let current_count := Z.of_nat (size (healthy_instances c)) in
    if should_scale_up && (current_count <? max_instances c)
    then _scale_up c sc o later
    else if should_scale_down && (min_instances c <? current_count)
    then _scale_down list_of_set c sc later
    else (c, sc).

End instance_coordinator.

(** ** health_monitor.py *)

Module health_monitor.

Import browser_manager instance_coordinator.

Inductive AlertType :=
| instance_recovered
| instance_failed
| high_failure_rate
| high_response_time
| no_healthy_instances.

Definition AlertType_eqb (a b : AlertType) : bool :=
  match a, b with
  | instance_recovered, instance_recovered
  | instance_failed, instance_failed
  | high_failure_rate, high_failure_rate
  | high_response_time, high_response_time
  | no_healthy_instances, no_healthy_instances => true
  | _, _ => false
  end.

(** An alert handed to [_trigger_alert]: its type and the ['instance_id'] of
    its data, when it has one. *)
Record Alert := {
  alert_type : AlertType;
  alert_instance : option string
}.

(** One entry of [instance_health_history]. *)
Record HealthCheckResult := {
  hc_instance_id : string;
  hc_healthy : bool;
  hc_error : bool
}.

(** The monitor's own fields. [alerts] is the sequence of calls of
    [_trigger_alert] so far, oldest first: every subscriber in
    [alert_callbacks] is called once with each of them. *)
Record HealthMonitor := {
  total_health_checks : nat;
  failed_health_checks : nat;
  instances_recovered : nat;
  instances_failed : nat;
  instance_health_history : gmap string (list HealthCheckResult);
  alerts : list Alert
}.

Definition new_monitor : HealthMonitor :=
  {| total_health_checks := 0; failed_health_checks := 0;
     instances_recovered := 0; instances_failed := 0;
     instance_health_history := ∅; alerts := [] |}.

(** The monitor holds a reference to the coordinator and writes its
    membership sets in place: its methods act on the pair. *)
Definition System := (HealthMonitor * InstanceCoordinator)%type.

(** [HealthMonitor._trigger_alert] *)
Definition _trigger_alert (hm : HealthMonitor) (a : Alert) : HealthMonitor :=
  {| total_health_checks := total_health_checks hm;
     failed_health_checks := failed_health_checks hm;
     instances_recovered := instances_recovered hm;
     instances_failed := instances_failed hm;
     instance_health_history := instance_health_history hm;
     alerts := alerts hm ++ [a] |}.

(** [HealthMonitor._record_healthy_check] *)
Definition _record_healthy_check (s : System) (id : string) : System :=
  let '(hm, c) := s in
  let hm' :=
    if decide (id ∈ unhealthy_instances c) then
      _trigger_alert
        {| total_health_checks := total_health_checks hm;
           failed_health_checks := failed_health_checks hm;
           instances_recovered := S (instances_recovered hm);
           instances_failed := instances_failed hm;
           instance_health_history := instance_health_history hm;
           alerts := alerts hm |}
        {| alert_type := instance_recovered; alert_instance := Some id |}
    else hm in
  (hm', with_membership c ({[id]} ∪ healthy_instances c)
                          (unhealthy_instances c ∖ {[id]})).

(** The loop of [_check_replacement_needed] over [range(needed)]. *)
Fixpoint replacement_loop (n k : nat) (world : nat -> CreateOutcome)
    (c : InstanceCoordinator) : InstanceCoordinator :=
  match n with
  | O => c
  | S n' =>
      replacement_loop n' (S k) world
        (snd (instance_coordinator.create_instance c (world k)))
  end.

(** [HealthMonitor._check_replacement_needed] *)
Definition _check_replacement_needed (c : InstanceCoordinator)
    (world : nat -> CreateOutcome) : InstanceCoordinator :=
  let healthy_count := Z.of_nat (size (healthy_instances c)) in
  if healthy_count <? min_instances c then
    let needed := min_instances c - healthy_count in
    replacement_loop (Z.to_nat needed) 0 world c
  else c.

(** [HealthMonitor._handle_instance_failure] *)
Definition _handle_instance_failure (s : System) (id : string)
    (world : nat -> CreateOutcome) : System :=
  let '(hm, c) := s in
  let was_healthy := bool_decide (id ∈ healthy_instances c) in
  let c1 := with_membership c (healthy_instances c ∖ {[id]})
                              ({[id]} ∪ unhealthy_instances c) in
  if was_healthy then
    let hm1 :=
      _trigger_alert
        {| total_health_checks := total_health_checks hm;
           failed_health_checks := S (failed_health_checks hm);
           instances_recovered := instances_recovered hm;
           instances_failed := S (instances_failed hm);
           instance_health_history := instance_health_history hm;
           alerts := alerts hm |}
        {| alert_type := instance_failed; alert_instance := Some id |} in
    (hm1, _check_replacement_needed c1 world)
  else (hm, c1).

(** [HealthMonitor._record_health_check] *)
Definition _record_health_check (hm : HealthMonitor) (id : string)
    (r : HealthCheckResult) : HealthMonitor :=
  let old := default [] (instance_health_history hm !! id) in
  let new := old ++ [r] in
  let kept := if Nat.ltb 100 (length new) then last_n 100 new else new in
  {| total_health_checks := total_health_checks hm;
     failed_health_checks := failed_health_checks hm;
     instances_recovered := instances_recovered hm;
     instances_failed := instances_failed hm;
     instance_health_history := <[id := kept]> (instance_health_history hm);
     alerts := alerts hm |}.

(** What one probe ([instance.health_check()] under [wait_for]) did. *)
Inductive ProbeOutcome :=
| ProbeTrue
| ProbeFalse
| ProbeTimeout
| ProbeRaised.

Definition probe_failed (p : ProbeOutcome) : bool :=
  match p with ProbeTrue => false | _ => true end.

(** [HealthMonitor._check_instance_health] *)
Definition _check_instance_health (s : System) (id : string)
    (p : ProbeOutcome) (world : nat -> CreateOutcome) : System :=
  let s1 :=
    match p with
    | ProbeTrue => _record_healthy_check s id
    | ProbeFalse | ProbeTimeout | ProbeRaised =>
        _handle_instance_failure s id world
    end in
  let result :=
    {| hc_instance_id := id;
       hc_healthy := match p with ProbeTrue => true | _ => false end;
       hc_error := match p with ProbeTimeout | ProbeRaised => true
                   | _ => false end |} in
  (_record_health_check (fst s1) id result, snd s1).

(** A run of probes of one instance, one after the other, each with the
    world its replacement requests meet. *)
Fixpoint probes (s : System) (id : string)
    (ps : list (ProbeOutcome * (nat -> CreateOutcome))) : System :=
  match ps with
  | [] => s
  | (p, world) :: r => probes (_check_instance_health s id p world) id r
  end.

(** The number of [instance_failed] alerts fired for [id]. *)
Definition failed_alerts (hm : HealthMonitor) (id : string) : nat :=
  length (List.filter (fun a => AlertType_eqb (alert_type a) instance_failed
                           && bool_decide (alert_instance a = Some id))
                 (alerts hm)).

(** [HealthMonitor.get_instance_health_history]:
    [history[-limit:] if limit else history], with Python's slice for a
    negative [limit] as well. *)
Definition get_instance_health_history (hm : HealthMonitor) (id : string)
    (limit : Z) : list HealthCheckResult :=
  let history := default [] (instance_health_history hm !! id) in
  if limit =? 0 then history
  else if 0 <? limit then last_n (Z.to_nat limit) history
  else skipn (Z.to_nat (- limit)) history.

(** The number of [instance_recovered] alerts fired for [id]. *)
Definition recovered_alerts (hm : HealthMonitor) (id : string) : nat :=
  length (List.filter
            (fun a => AlertType_eqb (alert_type a) instance_recovered
                      && bool_decide (alert_instance a = Some id))
            (alerts hm)).

(** The number of alerts of type [t] fired so far. *)
Definition alerts_of_type (hm : HealthMonitor) (t : AlertType) : nat :=
  length (List.filter (fun a => AlertType_eqb (alert_type a) t) (alerts hm)).

End health_monitor.

(** ** load_balancer.py *)

Module load_balancer.

Import browser_manager instance_coordinator.

(** One entry of [LoadBalancer.instance_performance]. *)
Record PerformanceRecord := {
  total_requests : nat;
  total_response_time : Qc;
  avg_response_time : Qc;
  success_count : nat;
  error_count : nat;
  last_request_time : option Qc
}.

(** One entry of [LoadBalancer.request_history]. *)
Record HistoryEntry := {
  h_request_id : string;
  h_instance_id : string;
  h_response_time : Qc;
  h_success : bool;
  h_payload_size : nat;
  h_response_size : nat;
  h_completed_at : Qc
}.

Record RoutingStats := {
  rs_total_requests : nat;
  successful_routes : nat;
  failed_routes : nat;
  retries : nat;
  strategy_usage : gmap string nat
}.

Record LoadBalancer := {
  strategy : string;
  max_retries : Z;
  _round_robin_index : nat;
  active_requests : dict ActiveRequest;
  request_history : list HistoryEntry;
  routing_stats : RoutingStats;
  instance_performance : gmap string PerformanceRecord
}.

Definition new_stats : RoutingStats :=
  {| rs_total_requests := 0; successful_routes := 0; failed_routes := 0;
     retries := 0; strategy_usage := ∅ |}.

(** [LoadBalancer.__init__] *)
Definition new_balancer (strat : string) (mr : Z) : LoadBalancer :=
  {| strategy := strat; max_retries := mr; _round_robin_index := 0;
     active_requests := []; request_history := [];
     routing_stats := new_stats; instance_performance := ∅ |}.

Definition with_active (lb : LoadBalancer) (a : dict ActiveRequest)
  : LoadBalancer :=
  {| strategy := strategy lb; max_retries := max_retries lb;
     _round_robin_index := _round_robin_index lb;
     active_requests := a; request_history := request_history lb;
     routing_stats := routing_stats lb;
     instance_performance := instance_performance lb |}.

Definition with_performance (lb : LoadBalancer)
    (p : gmap string PerformanceRecord) : LoadBalancer :=
  {| strategy := strategy lb; max_retries := max_retries lb;
     _round_robin_index := _round_robin_index lb;
     active_requests := active_requests lb;
     request_history := request_history lb;
     routing_stats := routing_stats lb;
     instance_performance := p |}.

Definition with_history (lb : LoadBalancer) (h : list HistoryEntry)
  : LoadBalancer :=
  {| strategy := strategy lb; max_retries := max_retries lb;
     _round_robin_index := _round_robin_index lb;
     active_requests := active_requests lb;
     request_history := h;
     routing_stats := routing_stats lb;
     instance_performance := instance_performance lb |}.

Definition with_stats (lb : LoadBalancer) (r : RoutingStats) : LoadBalancer :=
  {| strategy := strategy lb; max_retries := max_retries lb;
     _round_robin_index := _round_robin_index lb;
     active_requests := active_requests lb;
     request_history := request_history lb;
     routing_stats := r;
     instance_performance := instance_performance lb |}.

Definition with_index (lb : LoadBalancer) (i : nat) : LoadBalancer :=
  {| strategy := strategy lb; max_retries := max_retries lb;
     _round_robin_index := i;
     active_requests := active_requests lb;
     request_history := request_history lb;
     routing_stats := routing_stats lb;
     instance_performance := instance_performance lb |}.

(** The random draws one selection may consume: the index picked by
    [random.choice] and the value of [random.random()]. *)
Record Entropy := {
  choice : nat;
  uniform : Qc
}.

Section Strategies.
(** [list(self.coordinator.healthy_instances)] *)
Variable list_of_set : gset string -> list string.

(** [LoadBalancer._round_robin_strategy] *)
Definition _round_robin_strategy (lb : LoadBalancer)
    (c : InstanceCoordinator) : option string * LoadBalancer :=
  let healthy := list_of_set (healthy_instances c) in
  match healthy with
  | [] => (None, lb)
  | _ =>
      (healthy !! (_round_robin_index lb mod length healthy)%nat,
       with_index lb (S (_round_robin_index lb)))
  end.

(** [LoadBalancer._least_busy_strategy] *)
Definition _least_busy_strategy (lb : LoadBalancer)
    (c : InstanceCoordinator) : option string :=
  least_busy (list_of_set (healthy_instances c)) (active_requests lb).

(** [avg_time < best_time], where [None] is [float('inf')] *)
Definition lt_inf (a b : option Qc) : bool :=
  match a, b with
  | None, _ => false
  | Some _, None => true
  | Some x, Some y => Qc_ltb x y
  end.

(** The loop of [_response_time_strategy]. *)
Fixpoint response_time_scan (perf : gmap string PerformanceRecord)
    (l : list string) (best_instance : option string)
    (best_time : option Qc) : option string :=
  match l with
  | [] => best_instance
  | id :: r =>
      let avg_time := avg_response_time <$> perf !! id in
      if lt_inf avg_time best_time
      then response_time_scan perf r (Some id) avg_time
      else response_time_scan perf r best_instance best_time
  end.

(** [LoadBalancer._response_time_strategy] *)
Definition _response_time_strategy (lb : LoadBalancer)
    (c : InstanceCoordinator) : option string :=
  let healthy := list_of_set (healthy_instances c) in
  match healthy with
  | [] => None
  | first :: _ =>
      let best := response_time_scan (instance_performance lb) healthy
                    None None in
      if truthy best then best else Some first
  end.

(** [random.choice(l)] on a non-empty list *)
Definition random_choice (e : Entropy) (l : list string) : option string :=
  l !! (choice e mod length l)%nat.

(** [LoadBalancer._random_strategy] *)
Definition _random_strategy (c : InstanceCoordinator) (e : Entropy)
  : option string :=
  let healthy := list_of_set (healthy_instances c) in
  match healthy with
  | [] => None
  | _ => random_choice e healthy
  end.

(** The cumulative scan of [_weighted_round_robin_strategy]. *)
Fixpoint weighted_scan (rand_val cumulative : Qc)
    (weights : list (string * Qc)) : option string :=
  match weights with
  | [] => None
  | (id, w) :: r =>
      let cumulative := (cumulative + w)%Qc in
      if Qc_leb rand_val cumulative then Some id
      else weighted_scan rand_val cumulative r
  end.

(** [LoadBalancer._weighted_round_robin_strategy] *)
Definition _weighted_round_robin_strategy (lb : LoadBalancer)
    (c : InstanceCoordinator) (e : Entropy) : option string :=
  let healthy := list_of_set (healthy_instances c) in
  match healthy with
  | [] => None
  | _ =>
      let weights :=
        fold_left
          (fun d id =>
             let avg_time :=
               default 1%Qc
                 (avg_response_time <$> instance_performance lb !! id) in
             dict_set d id (1 / py_max avg_time (Q2Qc (1 # 10)))%Qc)
          healthy [] in
      let total_weight :=
        fold_left Qcplus (dict_values weights) 0%Qc in
      if Qc_eq_dec total_weight 0%Qc then random_choice e healthy
      else
        let weights :=
          map (fun kv => (fst kv, (snd kv / total_weight)%Qc)) weights in
        match weighted_scan (uniform e) 0%Qc weights with
        | Some id => Some id
        | None => last healthy
        end
  end.

(** [LoadBalancer._select_instance]: the lookup in [self.strategies], with
    ['least_busy'] for an unknown name. None of the five bodies has an
    operation that raises on these states, so the [except] branch (again
    [_least_busy_strategy]) is not entered. *)
Definition _select_instance (strat : string) (lb : LoadBalancer)
    (c : InstanceCoordinator) (e : Entropy) : option string * LoadBalancer :=
  if String.eqb strat "round_robin" then _round_robin_strategy lb c
  else if String.eqb strat "least_busy" then (_least_busy_strategy lb c, lb)
  else if String.eqb strat "response_time"
       then (_response_time_strategy lb c, lb)
  else if String.eqb strat "random" then (_random_strategy c e, lb)
  else if String.eqb strat "weighted_round_robin"
       then (_weighted_round_robin_strategy lb c e, lb)
  else (_least_busy_strategy lb c, lb).
End Strategies.

(** [LoadBalancer._validate_instance] *)
Definition _validate_instance (c : InstanceCoordinator) (id : string) : bool :=
  if negb (bool_decide (id ∈ healthy_instances c)) then false
  else
    match get_instance (browser_manager c) id with
    | None => false
    | Some instance =>
        if negb (Status_eqb (status instance) ready) then false else true
    end.

(** the record [_track_request] stores for an instance it has not seen *)
Definition fresh_performance : PerformanceRecord :=
  {| total_requests := 0; total_response_time := 0%Qc;
     avg_response_time := 0%Qc; success_count := 0; error_count := 0;
     last_request_time := None |}.

(** [LoadBalancer._track_request]; [size] is [len(str(payload))] and [now]
    the clock. *)
Definition _track_request (lb : LoadBalancer) (request_id id : string)
    (size : nat) (now : Qc) : LoadBalancer :=
  let active :=
    dict_set (active_requests lb) request_id
      {| req_instance_id := id; start_time := now; payload_size := size |} in
  let perf := default fresh_performance (instance_performance lb !! id) in
  let perf' :=
    {| total_requests := S (total_requests perf);
       total_response_time := total_response_time perf;
       avg_response_time := avg_response_time perf;
       success_count := success_count perf;
       error_count := error_count perf;
       last_request_time := Some now |} in
  with_performance (with_active lb active)
                   (<[id := perf']> (instance_performance lb)).

(** The update of the performance record in [complete_request]. The
    assignments are made in the order of the source: when
    [perf['total_requests']] is [0] the division raises after
    [total_response_time] has been written, and nothing else is. *)
Definition update_performance (perf : PerformanceRecord)
    (response_time : Qc) (success : bool) : PerformanceRecord * bool :=
  let total := (total_response_time perf + response_time)%Qc in
  match total_requests perf with
  | O =>
      ({| total_requests := 0; total_response_time := total;
          avg_response_time := avg_response_time perf;
          success_count := success_count perf;
          error_count := error_count perf;
          last_request_time := last_request_time perf |}, false)
  | S _ =>
      ({| total_requests := total_requests perf;
          total_response_time := total;
          avg_response_time := (total / of_int (total_requests perf))%Qc;
          success_count :=
            if success then S (success_count perf) else success_count perf;
          error_count :=
            if success then error_count perf else S (error_count perf);
          last_request_time := last_request_time perf |}, true)
  end.

(** [LoadBalancer.complete_request] *)
Definition complete_request (lb : LoadBalancer) (request_id : string)
    (success : bool) (response_size : nat) (now : Qc) : LoadBalancer :=
  match dict_get (active_requests lb) request_id with
  | None => lb
  | Some request_info =>
      let lb1 := with_active lb (dict_del (active_requests lb) request_id) in
      let id := req_instance_id request_info in
      let response_time := (now - start_time request_info)%Qc in
      let '(lb2, ok) :=
        match instance_performance lb1 !! id with
        | None => (lb1, true)
        | Some perf =>
            let '(perf', ok) := update_performance perf response_time success in
            (with_performance lb1 (<[id := perf']> (instance_performance lb1)),
             ok)
        end in
      if ok then
        let entry :=
          {| h_request_id := request_id; h_instance_id := id;
             h_response_time := response_time; h_success := success;
             h_payload_size := payload_size request_info;
             h_response_size := response_size; h_completed_at := now |} in
        let history := request_history lb2 ++ [entry] in
        with_history lb2
          (if Nat.ltb 1000 (length history) then last_n 1000 history
           else history)
      else lb2
  end.

(** The list [failed_requests] of [handle_instance_failure]. *)
Definition failed_requests (lb : LoadBalancer) (id : string) : list string :=
  map fst (List.filter (fun kv => String.eqb (req_instance_id (snd kv)) id)
                       (active_requests lb)).

(** The loop [for request_id in failed_requests]; [clock k] is the time read
    by the [k]-th completion. *)
Fixpoint fail_all (lb : LoadBalancer) (reqs : list string) (k : nat)
    (clock : nat -> Qc) : LoadBalancer :=
  match reqs with
  | [] => lb
  | request_id :: r =>
      fail_all (complete_request lb request_id false 0 (clock k)) r (S k) clock
  end.

(** [LoadBalancer.handle_instance_failure] *)
Definition handle_instance_failure (lb : LoadBalancer) (id : string)
    (clock : nat -> Qc) : LoadBalancer :=
  let failed := failed_requests lb id in
  let lb1 := fail_all lb failed 0 clock in
  match instance_performance lb1 !! id with
  | None => lb1
  | Some perf =>
      with_performance lb1
        (<[id := {| total_requests := total_requests perf;
                    total_response_time := total_response_time perf;
                    avg_response_time := avg_response_time perf;
                    success_count := success_count perf;
                    error_count := (error_count perf + length failed)%nat;
                    last_request_time := last_request_time perf |}]>
           (instance_performance lb1))
  end.

(** What one turn of the retry loop of [route_request] did (ghost: the
    source keeps no such record, it is here to count the selections). *)
Inductive Attempt :=
| NoCandidate                 (* [_select_instance] gave nothing *)
| Rejected (id : string)      (* the candidate failed [_validate_instance] *)
| Accepted (id : string).     (* the candidate was validated and tracked *)

Definition is_accepted (a : Attempt) : bool :=
  match a with Accepted _ => true | _ => false end.

(** What [route_request] leaves behind: its return value, the two objects it
    works on, and the ghost record of its attempts, oldest first. *)
Record Routed := {
  returned : option string;
  balancer : LoadBalancer;
  coordinator : InstanceCoordinator;
  trace : list Attempt
}.

Definition bump_retries (lb : LoadBalancer) : LoadBalancer :=
  let r := routing_stats lb in
  with_stats lb
    {| rs_total_requests := rs_total_requests r;
       successful_routes := successful_routes r;
       failed_routes := failed_routes r;
       retries := S (retries r);
       strategy_usage := strategy_usage r |}.

Definition bump_successful (lb : LoadBalancer) : LoadBalancer :=
  let r := routing_stats lb in
  with_stats lb
    {| rs_total_requests := rs_total_requests r;
       successful_routes := S (successful_routes r);
       failed_routes := failed_routes r;
       retries := retries r;
       strategy_usage := strategy_usage r |}.

Definition bump_failed (lb : LoadBalancer) : LoadBalancer :=
  let r := routing_stats lb in
  with_stats lb
    {| rs_total_requests := rs_total_requests r;
       successful_routes := successful_routes r;
       failed_routes := S (failed_routes r);
       retries := retries r;
       strategy_usage := strategy_usage r |}.

Definition count_request (lb : LoadBalancer) (strat : string) : LoadBalancer :=
  let r := routing_stats lb in
  with_stats lb
    {| rs_total_requests := S (rs_total_requests r);
       successful_routes := successful_routes r;
       failed_routes := failed_routes r;
       retries := retries r;
       strategy_usage :=
         <[strat := S (default 0%nat (strategy_usage r !! strat))]>
           (strategy_usage r) |}.

Section Routing.
Variable list_of_set : gset string -> list string.
(** the random draws available to attempt [k] *)
Variable entropy : nat -> Entropy.
(** what the other tasks (health monitor, other requests) do to the two
    objects while attempt [k] sleeps before retrying *)
Variable during_sleep :
  nat -> LoadBalancer * InstanceCoordinator ->
  LoadBalancer * InstanceCoordinator.
(** [time.time()] as read by attempt [k] *)
Variable clock : nat -> Qc.

(** The [for attempt in range(self.max_retries + 1)] loop; [attempts] is
    what is left of the range. Selection and validation of one attempt run
    without suspension; the only suspension is the sleep before a retry.
    Leaving the function through [break] or through the end of the range
    both reach the lines after the loop. *)
Fixpoint route_loop (attempts : list nat) (strat request_id : string)
    (size : nat) (lb : LoadBalancer) (c : InstanceCoordinator)
    (seen : list Attempt) : Routed :=
  match attempts with
  | [] =>
      {| returned := None; balancer := bump_failed lb; coordinator := c;
         trace := seen |}
  | attempt :: rest =>
      let '(instance_id, lb1) :=
        _select_instance list_of_set strat lb c (entropy attempt) in
      match instance_id with
      | Some id =>
          if truthy instance_id then
            if negb (_validate_instance c id) then
              if Z.of_nat attempt <? max_retries lb1 then
                let '(lb2, c2) := during_sleep attempt (bump_retries lb1, c) in
                route_loop rest strat request_id size lb2 c2
                           (seen ++ [Rejected id])
              else
                {| returned := None; balancer := bump_failed lb1;
                   coordinator := c; trace := seen ++ [Rejected id] |}
            else
              {| returned := Some id;
                 balancer :=
                   bump_successful
                     (_track_request lb1 request_id id size (clock attempt));
                 coordinator := c;
                 trace := seen ++ [Accepted id] |}
          else
            if Z.of_nat attempt <? max_retries lb1 then
              let '(lb2, c2) := during_sleep attempt (lb1, c) in
              route_loop rest strat request_id size lb2 c2
                         (seen ++ [NoCandidate])
            else
              {| returned := None; balancer := bump_failed lb1;
                 coordinator := c; trace := seen ++ [NoCandidate] |}
      | None =>
          if Z.of_nat attempt <? max_retries lb1 then
            let '(lb2, c2) := during_sleep attempt (lb1, c) in
            route_loop rest strat request_id size lb2 c2
                       (seen ++ [NoCandidate])
          else
            {| returned := None; balancer := bump_failed lb1;
               coordinator := c; trace := seen ++ [NoCandidate] |}
      end
  end.

(** [LoadBalancer.route_request]; [size] is [len(str(payload))]. The range
    is fixed from [self.max_retries] when the loop is entered. *)
Definition route_request (lb : LoadBalancer) (c : InstanceCoordinator)
    (request_id : string) (size : nat) (strategy_override : option string)
  : Routed :=
  let strat :=
    if truthy strategy_override then default "" strategy_override
    else strategy lb in
  let lb0 := count_request lb strat in
  route_loop (seq 0 (Z.to_nat (max_retries lb0 + 1))) strat request_id size
             lb0 c [].
End Routing.

(** [LoadBalancer.reset_stats] *)
Definition reset_stats (lb : LoadBalancer) : LoadBalancer :=
  {| strategy := strategy lb; max_retries := max_retries lb;
     _round_robin_index := 0;
     active_requests := active_requests lb;
     request_history := [];
     routing_stats := new_stats;
     instance_performance := ∅ |}.

(** [LoadBalancer.cleanup]: every active request, in the order of
    [list(self.active_requests.keys())], is completed as a failure. *)
Definition cleanup (lb : LoadBalancer) (clock : nat -> Qc) : LoadBalancer :=
  fail_all lb (dict_keys (active_requests lb)) 0 clock.

(** [k] consecutive calls of [_round_robin_strategy] on the healthy set of
    [c], with what each returned. *)
Fixpoint round_robin_calls (list_of_set : gset string -> list string)
    (k : nat) (lb : LoadBalancer) (c : InstanceCoordinator)
  : list (option string) * LoadBalancer :=
  match k with
  | O => ([], lb)
  | S k' =>
      let '(r, lb1) := _round_robin_strategy list_of_set lb c in
      let '(rs, lb2) := round_robin_calls list_of_set k' lb1 c in
      (r :: rs, lb2)
  end.

End load_balancer.

(** ** Notions used to state the properties *)

Import browser_manager.

(** [list_of_set] is a possible iteration order of Python sets: it lists
    each member once, in some order. *)
Definition enumerates (list_of_set : gset string -> list string) : Prop :=
  forall s, NoDup (list_of_set s) /\ forall x, x ∈ list_of_set s <-> x ∈ s.

(** A Python [dict] has each key once. *)
Definition dict_wf {V} (d : dict V) : Prop := NoDup (dict_keys d).

(** The place of [k] among [l]. *)
Fixpoint position (k : string) (l : list string) : option nat :=
  match l with
  | [] => None
  | x :: r => if String.eqb x k then Some O else S <$> position k r
  end.

(** [a] was registered before [b]: [BrowserManager.instances] keeps its keys
    in the order of their creation. *)
Definition created_before (bm : BrowserManager) (a b : string) : bool :=
  match position a (dict_keys bm), position b (dict_keys bm) with
  | Some i, Some j => Nat.ltb i j
  | _, _ => false
  end.

(** The rule of the specification for the least-busy choice [r]: a healthy
    instance of minimal active-request count, created before every other
    healthy instance of that count. *)
Definition least_busy_earliest_created
    (c : instance_coordinator.InstanceCoordinator)
    (active : dict ActiveRequest) (r : string) : Prop :=
  r ∈ instance_coordinator.healthy_instances c /\
  (forall x, x ∈ instance_coordinator.healthy_instances c ->
             (active_count active r <= active_count active x)%nat) /\
  (forall x, x ∈ instance_coordinator.healthy_instances c -> x <> r ->
             active_count active x = active_count active r ->
             created_before (instance_coordinator.browser_manager c) r x
             = true).


(** The load factor of the specification:
    [active_request_count / max(|healthy|, 1)], clamped to [[0,1]]. *)
Definition spec_load_factor (active healthy : nat) : Qc :=
  py_max 0%Qc (py_min (of_int active / of_int (Nat.max healthy 1))%Qc 1%Qc).

(** The registry holds at most [max_instances] instances. *)
Definition within_max (c : instance_coordinator.InstanceCoordinator) : Prop :=
  Z.of_nat (length (instance_coordinator.browser_manager c))
  <= instance_coordinator.max_instances c.

(** One request of a sequential run on an instance: its id, the time it is
    routed, the seconds it takes, and whether it succeeds. *)
Record Job := {
  job_id : string;
  job_start : Qc;
  job_elapsed : Qc;
  job_success : bool
}.

(** Route (track) the job on [id], then complete it, nothing in between. *)
Definition serve (lb : load_balancer.LoadBalancer) (id : string) (j : Job)
  : load_balancer.LoadBalancer :=
  load_balancer.complete_request
    (load_balancer._track_request lb (job_id j) id 0 (job_start j))
    (job_id j) (job_success j) 0 (job_start j + job_elapsed j)%Qc.

(** [avg_response_time] of [id], [0] while it has no record. *)
Definition average_of (lb : load_balancer.LoadBalancer) (id : string) : Qc :=
  default 0%Qc (load_balancer.avg_response_time
                  <$> load_balancer.instance_performance lb !! id).

(** The averages read after each completion of a sequential run. *)
Fixpoint serve_each (lb : load_balancer.LoadBalancer) (id : string)
    (jobs : list Job) : list Qc :=
  match jobs with
  | [] => []
  | j :: r => average_of (serve lb id j) id :: serve_each (serve lb id j) id r
  end.

(** [error_count] of [id], as [get_load_distribution] reads it. *)
Definition errors_of (lb : load_balancer.LoadBalancer) (id : string) : nat :=
  default 0%nat (load_balancer.error_count
                   <$> load_balancer.instance_performance lb !! id).

(** Every performance record has counted a request: [_track_request], the
    only writer of new records, stores them with [total_requests = 1]. *)
Definition performance_counted (lb : load_balancer.LoadBalancer) : Prop :=
  forall id p, load_balancer.instance_performance lb !! id = Some p ->
               load_balancer.total_requests p <> O.

(** A run of the health monitor as a sequence of resolved probes: the
    instance probed, what the probe did, and the world met by the
    replacement requests it triggers. Results are applied one at a time,
    each with its replacements: the run is used for what the handler of a
    probe decides between two suspensions (membership, alerts, counters),
    not for the size of the registry, which overlapping replacement
    requests can change (see [create_instance_overlapping]). *)
Definition ProbeEvent :=
  (string * health_monitor.ProbeOutcome * (nat -> CreateOutcome))%type.

Fixpoint monitor_run (s : health_monitor.System) (evs : list ProbeEvent)
  : health_monitor.System :=
  match evs with
  | [] => s
  | (id, p, world) :: r =>
      monitor_run (health_monitor._check_instance_health s id p world) r
  end.

(** The events of a run that leave [i] alone: its own probes all fail, and
    no replacement is given the id [i] again (ids are fresh uuids). *)
Definition quiet_for (i : string) (ev : ProbeEvent) : Prop :=
  (ev.1.1 = i -> health_monitor.probe_failed ev.1.2 = true) /\
  forall k, uuid (ev.2 k) <> i.

(** No attempt of the list was accepted. *)
Definition rejected_only (l : list load_balancer.Attempt) : Prop :=
  Forall (fun a => load_balancer.is_accepted a = false) l.

(** What a retry loop entered with the attempts [seen] behind it and [n]
    ahead of it leaves: at most [n] more attempts, none of them accepted when
    it returns none, and the last one accepted, and returned, otherwise. *)
Definition loop_outcome (seen : list load_balancer.Attempt) (n : nat)
    (r : load_balancer.Routed) : Prop :=
  exists more,
    load_balancer.trace r = seen ++ more /\
    (length more <= n)%nat /\
    (load_balancer.returned r = None /\ rejected_only more
     \/ exists id pre,
         load_balancer.returned r = Some id /\
         more = pre ++ [load_balancer.Accepted id] /\ rejected_only pre).

(** The running mean of the specification:
    [avg_n = avg_(n-1) * (n-1)/n + sample/n]. *)
Definition running_mean (prev : Qc) (n : nat) (sample : Qc) : Qc :=
  (prev * (of_int (n - 1) / of_int n) + sample / of_int n)%Qc.

(** The means after the [n]-th, [n+1]-th, ... sample. *)
Fixpoint running_means (prev : Qc) (n : nat) (samples : list Qc) : list Qc :=
  match samples with
  | [] => []
  | s :: r =>
      running_mean prev n s :: running_means (running_mean prev n s) (S n) r
  end.

(** How many of the [results] are the instance [x]. *)
Definition visits (x : string) (results : list (option string)) : nat :=
  length (List.filter (fun r => bool_decide (r = Some x)) results).

(** [avg_response_time] of [id] as the response-time strategy reads it:
    nothing for an instance without a performance record. *)
Definition recorded_average
    (perf : gmap string load_balancer.PerformanceRecord) (id : string)
  : option Qc :=
  load_balancer.avg_response_time <$> perf !! id.

(** What the last probe of [i] in a run did, if [i] was probed at all. *)
Fixpoint last_probe (i : string) (evs : list ProbeEvent)
  : option health_monitor.ProbeOutcome :=
  match evs with
  | [] => None
  | (j, p, _) :: r =>
      match last_probe i r with
      | Some q => Some q
      | None => if String.eqb j i then Some p else None
      end
  end.

(** No replacement requested by the event is given the id [i]. *)
Definition fresh_for (i : string) (ev : ProbeEvent) : Prop :=
  forall k, uuid (ev.2 k) <> i.

(** The launch of the outcome succeeds: [BrowserInstance.initialize]
    returns [True]. *)
Definition launches (o : CreateOutcome) : Prop :=
  snd (browser_manager.initialize (new_instance (uuid o)) (launch o)) = true.

(** Every per-instance health history holds at most 100 results. *)
Definition history_bounded (hm : health_monitor.HealthMonitor) : Prop :=
  forall id h, health_monitor.instance_health_history hm !! id = Some h ->
               (length h <= 100)%nat.

(** Every registered instance reports the status [ready]. *)
Definition registry_ready (bm : BrowserManager) : Prop :=
  Forall (fun kv => status (snd kv) = ready) bm.

(** What the probe [o] of the instance registered as [id] answers. *)
Definition probe_answer (c : instance_coordinator.InstanceCoordinator)
    (id : string) (o : HealthOutcome) : option bool :=
  (fun i => snd (health_check i o)) <$> get_instance
    (instance_coordinator.browser_manager c) id.

(** Every registered instance is in exactly one of the two membership
    sets. *)
Definition partitioned (c : instance_coordinator.InstanceCoordinator)
  : Prop :=
  forall id, dict_mem (instance_coordinator.browser_manager c) id = true ->
    (id ∈ instance_coordinator.healthy_instances c) <->
    (id ∉ instance_coordinator.unhealthy_instances c).

(** Sample states. *)

Definition sample_instance (id : string) (st : Status) : BrowserInstance :=
  {| instance_id := id; status := st; request_count := 0 |}.

Definition sample_world (ids : list string) (k : nat) : CreateOutcome :=
  {| uuid := nth k ids "spare"; launch := Launched NavSessionOk;
     clock := of_int k |}.

(** Two instances, ["a"] created before ["c"], min 1, max 5; [h] and [u] are
    the membership sets and [st] the status ["c"] reports. *)
Definition sample_pool (h u : gset string) (st : Status)
  : instance_coordinator.InstanceCoordinator :=
  {| instance_coordinator.min_instances := 1;
     instance_coordinator.max_instances := 5;
     instance_coordinator.initial_count := 2;
     instance_coordinator.browser_manager :=
       [("a", sample_instance "a" ready); ("c", sample_instance "c" st)];
     instance_coordinator.active_requests := [];
     instance_coordinator.healthy_instances := h;
     instance_coordinator.unhealthy_instances := u;
     instance_coordinator.instance_metrics := ∅ |}.


(** Two registered instances, both healthy, and one place left: min 2,
    max 3. *)
Definition sample_pool_one_place_left
  : instance_coordinator.InstanceCoordinator :=
  instance_coordinator.with_pool (instance_coordinator.new_coordinator 2 3 2)
    [("a", sample_instance "a" ready); ("c", sample_instance "c" ready)]
    {["a"; "c"]} ∅ ∅.

(** The same pool with a third instance ["b"]: ["a"] and ["b"] healthy,
    ["c"] failed and unhealthy. *)
Definition sample_pool_of_three : instance_coordinator.InstanceCoordinator :=
  instance_coordinator.with_pool (sample_pool ∅ ∅ failed)
    [("a", sample_instance "a" ready); ("c", sample_instance "c" failed);
     ("b", sample_instance "b" ready)]
    {["a"; "b"]} {["c"]} ∅.

Definition sample_job (id : string) (t s : Z) : Job :=
  {| job_id := id; job_start := Q2Qc (inject_Z t);
     job_elapsed := Q2Qc (inject_Z s); job_success := true |}.

(** Three requests in flight, two of them on ["a"]. *)
Definition sample_balancer : load_balancer.LoadBalancer :=
  load_balancer._track_request
    (load_balancer._track_request
       (load_balancer._track_request
          (load_balancer.new_balancer "least_busy" 3) "r1" "a" 0 0%Qc)
       "r2" "c" 0 0%Qc)
    "r3" "a" 0 0%Qc.

(** * Properties *)

#[local] Set Warnings "-clear-no-such-hyp".

(** ** Dictionaries *)

Lemma dict_get_set_eq {V} (d : dict V) (k : string) (v : V) :
  dict_get (dict_set d k v) k = Some v.
Proof.
  induction d as [|[k' v'] r IH]; simpl.
  - by rewrite String.eqb_refl.
  - destruct (String.eqb k' k) eqn:E; simpl; rewrite E; auto.
Qed.

Lemma dict_get_set_ne {V} (d : dict V) (k k' : string) (v : V) :
  k <> k' -> dict_get (dict_set d k v) k' = dict_get d k'.
Proof.
  intros Hne. induction d as [|[k0 v0] r IH]; simpl.
  - destruct (String.eqb k k') eqn:E; [|done].
    apply String.eqb_eq in E. congruence.
  - destruct (String.eqb k0 k) eqn:E; simpl.
    + apply String.eqb_eq in E. subst k0.
      destruct (String.eqb k k') eqn:E'; [|done].
      apply String.eqb_eq in E'. congruence.
    + by rewrite IH.
Qed.

Lemma dict_get_del_ne {V} (d : dict V) (k k' : string) :
  k <> k' -> dict_get (dict_del d k) k' = dict_get d k'.
Proof.
  intros Hne. induction d as [|[k0 v0] r IH]; simpl; [done|].
  destruct (String.eqb k0 k) eqn:E; simpl.
  - apply String.eqb_eq in E. subst k0.
    destruct (String.eqb k k') eqn:E'; [|done].
    apply String.eqb_eq in E'. congruence.
  - by rewrite IH.
Qed.

Lemma dict_get_Some_elem {V} (d : dict V) (k : string) (v : V) :
  dict_get d k = Some v -> (k, v) ∈ d.
Proof.
  induction d as [|[k0 v0] r IH]; simpl; [done|].
  destruct (String.eqb k0 k) eqn:E.
  - apply String.eqb_eq in E. intros [= ->]. subst. left.
  - intros H. right. auto.
Qed.

Lemma dict_get_None {V} (d : dict V) (k : string) :
  dict_get d k = None <-> k ∉ dict_keys d.
Proof.
  induction d as [|[k0 v0] r IH]; simpl.
  - split; [intros _; apply not_elem_of_nil|done].
  - destruct (String.eqb k0 k) eqn:E.
    + apply String.eqb_eq in E. subst. split; [done|].
      intros H. exfalso. apply H. left.
    + apply String.eqb_neq in E. rewrite IH, not_elem_of_cons.
      split; [intros; split; [congruence|done] | by intros [_ ?]].
Qed.

Lemma dict_elem_get {V} (d : dict V) (k : string) (v : V) :
  dict_wf d -> (k, v) ∈ d -> dict_get d k = Some v.
Proof.
  unfold dict_wf. induction d as [|[k0 v0] r IH]; simpl.
  - intros _ H. by apply elem_of_nil in H.
  - intros Hnd Hin. apply NoDup_cons in Hnd as [Hk0 Hnd].
    apply elem_of_cons in Hin as [[= -> ->]|Hin].
    + by rewrite String.eqb_refl.
    + destruct (String.eqb k0 k) eqn:E; [|auto].
      apply String.eqb_eq in E. subst k0. exfalso. apply Hk0.
      apply list_elem_of_fmap. by exists (k, v).
Qed.

Lemma dict_set_length {V} (d : dict V) (k : string) (v : V) :
  length (dict_set d k v)
  = if dict_mem d k then length d else S (length d).
Proof.
  unfold dict_mem. induction d as [|[k0 v0] r IH]; simpl; [done|].
  destruct (String.eqb k0 k) eqn:E; simpl; [done|].
  rewrite IH. by destruct (dict_get r k).
Qed.

Lemma dict_set_fresh {V} (d : dict V) (k : string) (v : V) :
  k ∉ dict_keys d -> dict_set d k v = d ++ [(k, v)].
Proof.
  induction d as [|[k0 v0] r IH]; simpl; [done|].
  rewrite not_elem_of_cons. intros [Hne Hnotin].
  destruct (String.eqb k0 k) eqn:E.
  - apply String.eqb_eq in E. congruence.
  - by rewrite IH.
Qed.

(** ** The registry *)

(** Whatever path [initialize] takes to success, the fallback included, the
    instance is stored with status [ready]. *)
Lemma initialize_success_ready i l i' :
  browser_manager.initialize i l = (i', true) -> status i' = ready.
Proof.
  unfold browser_manager.initialize, _navigate_and_setup, _setup_fallback_mode.
  destruct l as [|[]]; simpl; intros [= <-]; done.
Qed.

Lemma bm_create_length bm o r bm' :
  browser_manager.create_instance bm o = (r, bm') ->
  (length bm' <= S (length bm))%nat.
Proof.
  unfold browser_manager.create_instance.
  destruct (browser_manager.initialize _ _) as [inst []];
    intros [= <- <-]; [|lia].
  rewrite dict_set_length. destruct (dict_mem _ _); lia.
Qed.

(** ** The coordinator *)

Import instance_coordinator.

Lemma register_created_spec c o r c' :
  register_created c o = (r, c') ->
  (r = None /\ healthy_instances c' = healthy_instances c
   \/ r = Some (uuid o) /\
      healthy_instances c' = {[uuid o]} ∪ healthy_instances c /\
      instance_metrics c' !! uuid o = Some (fresh_metrics (clock o))) /\
  unhealthy_instances c' = unhealthy_instances c /\
  min_instances c' = min_instances c /\
  max_instances c' = max_instances c /\
  (length (browser_manager c') <= S (length (browser_manager c)))%nat.
Proof.
  unfold register_created.
  destruct (browser_manager.create_instance _ _) as [r0 bm] eqn:E.
  pose proof (bm_create_length _ _ _ _ E) as Hlen.
  assert (r0 = None \/ r0 = Some (uuid o)) as Hr0.
  { revert E. unfold browser_manager.create_instance.
    destruct (browser_manager.initialize _ _) as [? []];
      intros [= <- <-]; auto. }
  destruct (truthy r0) eqn:T; intros [= <- <-]; simpl.
  - destruct Hr0 as [->| ->]; [done|].
    split; [right|done]. by rewrite lookup_insert_eq.
  - split; [by left|done].
Qed.

Lemma create_instance_spec c o r c' :
  create_instance c o = (r, c') ->
  (r = None /\ healthy_instances c' = healthy_instances c
   \/ r = Some (uuid o) /\
      healthy_instances c' = {[uuid o]} ∪ healthy_instances c /\
      instance_metrics c' !! uuid o = Some (fresh_metrics (clock o))) /\
  unhealthy_instances c' = unhealthy_instances c /\
  min_instances c' = min_instances c /\
  max_instances c' = max_instances c /\
  (within_max c -> within_max c').
Proof.
  unfold create_instance, within_max.
  destruct (Z.geb_spec (Z.of_nat (length (browser_manager c)))
                       (max_instances c)).
  - intros [= <- <-]. split; [by left|done].
  - intros E. apply register_created_spec in E as (H1 & H2 & H3 & H4 & H5).
    rewrite H4. repeat split; try done. lia.
Qed.

(** [create()] returns none when the pool is full, and leaves it as it is. *)
Lemma create_instance_at_max c o :
  Z.of_nat (length (browser_manager c)) >= max_instances c ->
  create_instance c o = (None, c).
Proof.
  unfold create_instance. intros H.
  destruct (Z.geb_spec (Z.of_nat (length (browser_manager c)))
                       (max_instances c));
    [done|lia].
Qed.

Lemma replacement_loop_spec n : forall k world c,
  let c' := health_monitor.replacement_loop n k world c in
  healthy_instances c ⊆ healthy_instances c' /\
  (forall i, (forall j, uuid (world j) <> i) ->
             i ∈ healthy_instances c' -> i ∈ healthy_instances c) /\
  unhealthy_instances c' = unhealthy_instances c /\
  min_instances c' = min_instances c /\
  max_instances c' = max_instances c /\
  (within_max c -> within_max c').
Proof.
  induction n as [|n IH]; intros k world c; simpl; [done|].
  destruct (create_instance c (world k)) as [r c1] eqn:E; simpl.
  apply create_instance_spec in E as (H1 & H2 & H3 & H4 & H5).
  destruct (IH (S k) world c1) as (I1 & I2 & I3 & I4 & I5 & I6).
  repeat split; try congruence; auto.
  - destruct H1 as [[_ Hh]|(_ & Hh & _)]; rewrite Hh in I1; set_solver.
  - intros i Hfresh Hin. apply I2 in Hin; [|done].
    destruct H1 as [[_ Hh]|(_ & Hh & _)]; rewrite Hh in Hin; [done|].
    specialize (Hfresh k). set_solver.
Qed.

(** *** Removal and the healthy floor *)




(** *** Creation *)

(** C2, refuted as stated: right after a successful [create] the new id is in
    the healthy set, before any probe. *)
Lemma created_instance_is_healthy_at_once :
  let r := create_instance (new_coordinator 1 5 1) (sample_world ["i1"] 0) in
  fst r = Some "i1" /\ "i1" ∈ healthy_instances (snd r).
Proof.
  simpl. split; [reflexivity | set_solver].
Qed.

(** C2, amended: a successful [create] adds the new id to the healthy set
    itself and leaves the unhealthy set alone; a later successful probe finds
    it there and keeps it. *)
Theorem create_instance_healthy (c c' : InstanceCoordinator)
    (o : CreateOutcome) (id : string) :
  create_instance c o = (Some id, c') ->
  id ∈ healthy_instances c' /\
  unhealthy_instances c' = unhealthy_instances c /\
  instance_metrics c' !! id = Some (fresh_metrics (clock o)) /\
  forall hm,
    healthy_instances (snd (health_monitor._record_healthy_check (hm, c') id))
    = healthy_instances c'.
Proof.
  intros E. apply create_instance_spec in E as (H1 & H2 & _).
  destruct H1 as [[? _]|([= ->] & Hh & Hm)]; [done|].
  repeat split; try done.
  - rewrite Hh. set_solver.
  - intros hm. simpl. rewrite Hh. set_solver.
Qed.

Lemma create_instance_healthy_witness :
  "i1" ∈ healthy_instances
           (snd (create_instance (new_coordinator 1 5 1)
                                 (sample_world ["i1"] 0))).
Proof.
  apply (create_instance_healthy (new_coordinator 1 5 1) _
           (sample_world ["i1"] 0) "i1").
  reflexivity.
Defined.

(** *** The bound on the pool *)

(** A replacement request of the monitor goes through [create_instance]
    and, run on its own, keeps the pool within [max_instances]. *)
Lemma replacement_within_max c world :
  within_max c -> within_max (health_monitor._check_replacement_needed c world).
Proof.
  unfold health_monitor._check_replacement_needed. intros H.
  destruct (_ <? _); [|done]. by apply replacement_loop_spec.
Qed.

(** C7 at its failing input: [max_instances = 1], [initial_count = 2], both
    creations succeed. [initialize] calls the browser manager directly and
    never compares the pool with [max_instances]: it ends with two
    instances. *)
Theorem initialize_exceeds_max_instances :
  let r := initialize (new_coordinator 1 1 2) (sample_world ["i1"; "i2"]) in
  fst r = true /\
  dict_keys (browser_manager (snd r)) = ["i1"; "i2"] /\
  max_instances (snd r) = 1 /\
  ~ within_max (snd r).
Proof.
  repeat split. unfold within_max. simpl. lia.
Qed.

(** *** The load factor *)

Lemma of_int_nonneg n : (0 <= of_int n)%Qc.
Proof.
  change (0 <= Qred (inject_Z (Z.of_nat n)))%Q.
  rewrite Qred_correct. unfold Qle. simpl. lia.
Qed.

Lemma of_int_pos n : (0 < n)%nat -> (0 < of_int n)%Qc.
Proof.
  intros H. change (0 < Qred (inject_Z (Z.of_nat n)))%Q.
  rewrite Qred_correct. unfold Qlt. simpl. lia.
Qed.

Lemma py_min_le_r a b : (py_min a b <= b)%Qc.
Proof.
  unfold py_min. destruct (b ?= a)%Qc eqn:E.
  - apply Qceq_alt in E. subst. apply Qcle_refl.
  - apply Qcle_refl.
  - apply Qcgt_alt in E. by apply Qclt_le_weak.
Qed.

Lemma py_min_nonneg a b : (0 <= a)%Qc -> (0 <= b)%Qc -> (0 <= py_min a b)%Qc.
Proof. unfold py_min. by destruct (b ?= a)%Qc. Qed.

Lemma py_max_0_nonneg y : (0 <= y)%Qc -> py_max 0%Qc y = y.
Proof.
  unfold py_max. intros H. destruct (y ?= 0)%Qc eqn:E; [| |done].
  - by apply Qceq_alt in E.
  - apply Qclt_alt in E. by apply Qcle_not_lt in H.
Qed.

Lemma ratio_nonneg a h : (0 < h)%nat -> (0 <= of_int a / of_int h)%Qc.
Proof.
  intros H. unfold Qcdiv. apply Qcmult_nonneg_nonneg.
  - apply of_int_nonneg.
  - apply Qclt_le_weak, Qcinv_pos, of_int_pos, H.
Qed.

(** C8, refuted as stated: with an empty healthy set and no active request
    the code reports full load, where the formula gives [0]. *)
Lemma load_of_empty_pool_is_one :
  let c := new_coordinator 1 5 1 in
  size (healthy_instances c) = 0%nat /\
  length (active_requests c) = 0%nat /\
  _calculate_current_load c = 1%Qc /\
  spec_load_factor 0 0 = 0%Qc /\
  _calculate_current_load c <> spec_load_factor 0 0.
Proof.
  repeat split; try reflexivity.
  intros H. apply (f_equal this) in H. vm_compute in H. discriminate H.
Qed.

(** C8, amended: with at least one healthy instance the load factor is
    [active_request_count / |healthy|] clamped to [[0,1]]; with an empty
    healthy set it is [1] whatever the number of active requests; it lies in
    [[0,1]] in both cases. *)
Theorem calculate_current_load_spec (c : InstanceCoordinator) :
  _calculate_current_load c
  = (if Nat.eqb (size (healthy_instances c)) 0 then 1%Qc
     else spec_load_factor (length (active_requests c))
                           (size (healthy_instances c)))
  /\ (0 <= _calculate_current_load c <= 1)%Qc.
Proof.
  unfold _calculate_current_load, spec_load_factor.
  destruct (Nat.eqb_spec (size (healthy_instances c)) 0) as [E|E].
  - split; [done|]. split; [done|apply Qcle_refl].
  - assert (0 < size (healthy_instances c))%nat as Hpos by lia.
    pose proof (ratio_nonneg (length (active_requests c)) _ Hpos) as Hr.
    replace (Nat.max (size (healthy_instances c)) 1)
      with (size (healthy_instances c)) by lia.
    split.
    + symmetry. apply py_max_0_nonneg. by apply py_min_nonneg.
    + split; [by apply py_min_nonneg | apply py_min_le_r].
Qed.

(** ** Least-busy selection *)

Lemma elements_enumerates : enumerates elements.
Proof.
  intros s. split; [apply NoDup_elements|].
  intros x. apply elem_of_elements.
Qed.

Lemma dict_keys_app {V} (d1 d2 : dict V) :
  dict_keys (d1 ++ d2) = dict_keys d1 ++ dict_keys d2.
Proof. apply map_app. Qed.

(** Filling [instance_loads] from a list without repetition lists the
    instances in that order. *)
Lemma instance_loads_in_order (f : string -> nat) (l : list string) :
  forall acc : dict nat,
    NoDup l ->
    (forall x, x ∈ l -> x ∉ dict_keys acc) ->
    fold_left (fun d id => dict_set d id (f id)) l acc
    = acc ++ map (fun id => (id, f id)) l.
Proof.
  induction l as [|a l IH]; intros acc Hnd Hfresh; simpl.
  - by rewrite app_nil_r.
  - apply NoDup_cons in Hnd as [Ha Hnd].
    rewrite dict_set_fresh by (apply Hfresh; left).
    rewrite IH; [by rewrite <- app_assoc|done|].
    intros x Hx. rewrite dict_keys_app, elem_of_app. simpl.
    intros [Hin|Hin].
    + revert Hin. apply Hfresh. by right.
    + apply list_elem_of_singleton in Hin. by subst.
Qed.

(** The scan returns the first item of minimal load: strictly smaller than
    everything before it, at most everything after it. *)
Lemma min_scan_first_minimum (rest : list (string * nat)) :
  forall best, exists l1 l2,
    best :: rest = l1 ++ min_scan best rest :: l2 /\
    (forall x, x ∈ l1 -> (snd (min_scan best rest) < snd x)%nat) /\
    (forall x, x ∈ l2 -> (snd (min_scan best rest) <= snd x)%nat).
Proof.
  induction rest as [|x r IH]; intros best; simpl.
  - exists [], []. repeat split; intros ? H; by apply elem_of_nil in H.
  - destruct (Nat.ltb_spec (snd x) (snd best)) as [Hlt|Hge].
    + destruct (IH x) as (l1 & l2 & Heq & H1 & H2).
      exists (best :: l1), l2. split; [by rewrite Heq|]. split; [|done].
      intros y Hy. apply elem_of_cons in Hy as [->|Hy]; [|auto].
      assert (x ∈ l1 ++ min_scan x r :: l2) as Hx by (rewrite <- Heq; left).
      apply elem_of_app in Hx as [Hx|Hx]; [apply H1 in Hx; lia|].
      apply elem_of_cons in Hx as [<-|Hx]; [lia|apply H2 in Hx; lia].
    + destruct (IH best) as (l1 & l2 & Heq & H1 & H2).
      destruct l1 as [|b l1]; simpl in Heq.
      * injection Heq as Hb Hr. exists [], (x :: r).
        split; [by rewrite <- Hb|]. split.
        -- intros ? H. by apply elem_of_nil in H.
        -- intros y Hy. rewrite <- Hb.
           apply elem_of_cons in Hy as [->|Hy]; [done|].
           rewrite Hb. apply H2. by rewrite <- Hr.
      * injection Heq as Hb Hr. subst b.
        exists (best :: x :: l1), l2.
        split; [simpl; do 2 f_equal; exact Hr|]. split; [|done].
        assert (snd (min_scan best r) < snd best)%nat as Hm
            by (apply H1; left).
        intros y Hy. apply elem_of_cons in Hy as [->|Hy]; [done|].
        apply elem_of_cons in Hy as [->|Hy]; [lia|].
        apply H1. by right.
Qed.

Lemma least_busy_spec (healthy : list string) (active : dict ActiveRequest) :
  NoDup healthy -> healthy <> [] ->
  exists l1 r l2,
    healthy = l1 ++ r :: l2 /\
    least_busy healthy active = Some r /\
    (forall x, x ∈ l1 ->
       (active_count active r < active_count active x)%nat) /\
    (forall x, x ∈ l2 ->
       (active_count active r <= active_count active x)%nat).
Proof.
  intros Hnd Hne. unfold least_busy.
  rewrite (instance_loads_in_order (active_count active) healthy [] Hnd)
    by (intros; apply not_elem_of_nil).
  destruct healthy as [|a l]; [done|]. simpl.
  destruct (min_scan_first_minimum
              (map (fun id => (id, active_count active id)) l)
              (a, active_count active a)) as (l1 & l2 & Heq & H1 & H2).
  change ((a, active_count active a)
          :: map (fun id => (id, active_count active id)) l)
    with ((fun id => (id, active_count active id)) <$> (a :: l)) in Heq.
  apply fmap_app_inv in Heq as (k1 & k2' & E1 & E2 & Ek).
  symmetry in E2.
  apply fmap_cons_inv in E2 as (r & k2 & Er & E2 & ->).
  exists k1, r, k2. rewrite Er in *. simpl in *.
  split; [done|]. split; [done|]. split.
  - intros x Hx. apply (H1 (x, active_count active x)).
    rewrite E1. apply list_elem_of_fmap. by exists x.
  - intros x Hx. apply (H2 (x, active_count active x)).
    rewrite E2. apply list_elem_of_fmap. by exists x.
Qed.

(** C3, refuted as stated: ["a"] was created before ["c"], both are healthy
    and idle, and under the iteration order [elements] the strategy returns
    ["c"]. *)
Lemma least_busy_tie_not_earliest_created :
  let c := sample_pool {["a"; "c"]} ∅ ready in
  let lb := load_balancer.new_balancer "least_busy" 3 in
  enumerates elements /\
  created_before (browser_manager c) "a" "c" = true /\
  load_balancer._least_busy_strategy elements lb c = Some "c" /\
  ~ least_busy_earliest_created c (load_balancer.active_requests lb) "c".
Proof.
  split; [apply elements_enumerates|].
  split; [reflexivity|]. split; [vm_compute; reflexivity|].
  intros (_ & _ & H). specialize (H "a").
  assert (created_before
            (browser_manager (sample_pool {["a"; "c"]} ∅ ready)) "c" "a"
          = true) as Hc; [|vm_compute in Hc; discriminate Hc].
  apply H; [simpl; set_solver | discriminate | reflexivity].
Qed.

(** C3, amended: the least-busy strategy returns a healthy instance whose
    active-request count is the minimum over the healthy set, and among the
    instances tied at that minimum the one that comes first when the healthy
    set is iterated; the order of creation plays no part. The coordinator's
    [_least_busy_selection] does the same on its own request map. *)
Theorem least_busy_first_minimum
    (list_of_set : gset string -> list string)
    (lb : load_balancer.LoadBalancer) (c : InstanceCoordinator) :
  enumerates list_of_set ->
  healthy_instances c <> ∅ ->
  (exists l1 r l2,
     list_of_set (healthy_instances c) = l1 ++ r :: l2 /\
     load_balancer._least_busy_strategy list_of_set lb c = Some r /\
     r ∈ healthy_instances c /\
     (forall x, x ∈ healthy_instances c ->
        (active_count (load_balancer.active_requests lb) r
         <= active_count (load_balancer.active_requests lb) x)%nat) /\
     (forall x, x ∈ l1 ->
        (active_count (load_balancer.active_requests lb) r
         < active_count (load_balancer.active_requests lb) x)%nat)) /\
  (exists l1 r l2,
     list_of_set (healthy_instances c) = l1 ++ r :: l2 /\
     _least_busy_selection list_of_set c = Some r /\
     r ∈ healthy_instances c /\
     (forall x, x ∈ healthy_instances c ->
        (active_count (active_requests c) r
         <= active_count (active_requests c) x)%nat) /\
     (forall x, x ∈ l1 ->
        (active_count (active_requests c) r
         < active_count (active_requests c) x)%nat)).
Proof.
  intros Henum Hne. destruct (Henum (healthy_instances c)) as [Hnd Hin].
  assert (list_of_set (healthy_instances c) <> []) as Hl.
  { intros E. apply Hne. apply set_eq. intros x.
    rewrite <- Hin, E. set_solver. }
  assert (forall active, exists l1 r l2,
     list_of_set (healthy_instances c) = l1 ++ r :: l2 /\
     least_busy (list_of_set (healthy_instances c)) active = Some r /\
     r ∈ healthy_instances c /\
     (forall x, x ∈ healthy_instances c ->
        (active_count active r <= active_count active x)%nat) /\
     (forall x, x ∈ l1 ->
        (active_count active r < active_count active x)%nat)) as Hboth.
  { intros active.
    destruct (least_busy_spec _ active Hnd Hl)
      as (l1 & r & l2 & E & R & H1 & H2).
    exists l1, r, l2. split; [done|]. split; [done|]. split.
    - apply Hin. rewrite E. set_solver.
    - split; [|done]. intros x Hx. apply Hin in Hx. rewrite E in Hx.
      apply elem_of_app in Hx as [Hx|Hx]; [apply H1 in Hx; lia|].
      apply elem_of_cons in Hx as [->|Hx]; [lia|by apply H2]. }
  split; [apply Hboth|].
  unfold _least_busy_selection.
  destruct (Nat.eqb_spec (size (healthy_instances c)) 0) as [E|_];
    [|apply Hboth].
  apply size_empty_inv in E. exfalso. apply Hne. by apply leibniz_equiv.
Qed.

Lemma least_busy_first_minimum_witness :
  exists r,
    load_balancer._least_busy_strategy elements
      (load_balancer.new_balancer "least_busy" 3)
      (sample_pool {["a"; "c"]} ∅ ready) = Some r.
Proof.
  destruct (least_busy_first_minimum elements
              (load_balancer.new_balancer "least_busy" 3)
              (sample_pool {["a"; "c"]} ∅ ready))
    as [(l1 & r & l2 & _ & H & _) _].
  - apply elements_enumerates.
  - simpl. intros E. apply (f_equal size) in E. vm_compute in E. discriminate E.
  - exists r. exact H.
Defined.

(** ** Validation *)


(** An instance launched on the fallback path leaves [initialize] with the
    status [ready]: [_setup_fallback_mode] writes ['ready_fallback'] and
    [initialize] overwrites it on success, before the browser manager
    registers the instance. *)
Lemma initialize_fallback_ready (id : string) :
  status (fst (_navigate_and_setup (new_instance id) NavFallbackOk))
  = ready_fallback /\
  browser_manager.initialize (new_instance id) (Launched NavFallbackOk)
  = (set_status (new_instance id) ready, true).
Proof. split; reflexivity. Qed.



(** ** The health monitor *)

Import health_monitor.

Lemma failed_alerts_trigger hm a i :
  failed_alerts (_trigger_alert hm a) i
  = (failed_alerts hm i
     + if AlertType_eqb (alert_type a) instance_failed
          && bool_decide (alert_instance a = Some i) then 1 else 0)%nat.
Proof.
  unfold failed_alerts, _trigger_alert. simpl.
  rewrite List.filter_app, length_app. simpl.
  by destruct (_ && _).
Qed.

Lemma failed_alerts_record hm j r i :
  failed_alerts (_record_health_check hm j r) i = failed_alerts hm i.
Proof. reflexivity. Qed.

(** What one resolved probe of [j] does to the alerts and the membership of
    [i]. *)
Lemma check_instance_health_effect hm c j p world i :
  let s' := _check_instance_health (hm, c) j p world in
  (failed_alerts (fst s') i
   = (failed_alerts hm i
      + if bool_decide (j = i) && probe_failed p
           && bool_decide (i ∈ healthy_instances c) then 1 else 0)%nat) /\
  (j <> i -> i ∈ healthy_instances c -> i ∈ healthy_instances (snd s')) /\
  ((j = i -> probe_failed p = true) ->
   (forall k, uuid (world k) <> i) ->
   (j = i \/ i ∉ healthy_instances c) ->
   i ∉ healthy_instances (snd s')).
Proof.
  unfold _check_instance_health.
  assert (forall w,
    let s' := _handle_instance_failure (hm, c) j w in
    (failed_alerts (fst s') i
     = (failed_alerts hm i
        + if bool_decide (j = i) && bool_decide (i ∈ healthy_instances c)
          then 1 else 0)%nat) /\
    (j <> i -> i ∈ healthy_instances c -> i ∈ healthy_instances (snd s')) /\
    ((forall k, uuid (w k) <> i) ->
     (j = i \/ i ∉ healthy_instances c) ->
     i ∉ healthy_instances (snd s'))) as Hfail.
  { intros w. unfold _handle_instance_failure.
    destruct (bool_decide_reflect (j ∈ healthy_instances c)) as [Hj|Hj];
      simpl.
    - rewrite failed_alerts_trigger. simpl.
      set (c1 := with_membership c _ _).
      destruct (replacement_loop_spec
                  (Z.to_nat (min_instances c1
                             - Z.of_nat (size (healthy_instances c1))))
                  0 w c1) as (R1 & R2 & _).
      assert (forall x, x ∈ healthy_instances c1 <->
                        x ∈ healthy_instances c /\ x <> j) as Hc1
          by (intros x; simpl; set_solver).
      split; [|split].
      + destruct (bool_decide_reflect (j = i)) as [->|Hne]; simpl.
        * rewrite (bool_decide_eq_true_2 _ Hj).
          by rewrite (bool_decide_eq_true_2 (Some i = Some i)).
        * rewrite (bool_decide_eq_false_2 (Some j = Some i)); [done|].
          congruence.
      + intros Hne Hi. unfold _check_replacement_needed.
        destruct (_ <? _); [apply R1|]; apply Hc1; done.
      + intros Hfresh Hor Hin. unfold _check_replacement_needed in Hin.
        destruct (_ <? _); [apply R2 in Hin; [|done]|];
          apply Hc1 in Hin as [Hin Hne]; destruct Hor; congruence.
    - split; [|split].
      + destruct (bool_decide_reflect (j = i)) as [->|Hne]; simpl.
        * rewrite (bool_decide_eq_false_2 _ Hj). simpl. lia.
        * lia.
      + intros Hne Hi. set_solver.
      + intros _ Hor. destruct Hor as [->|Hni]; set_solver. }
  destruct p; simpl.
  - (* a successful probe *)
    rewrite failed_alerts_record. rewrite andb_false_r. simpl.
    split; [|split].
    + destruct (decide (j ∈ unhealthy_instances c)); [|lia].
      rewrite failed_alerts_trigger. unfold failed_alerts. simpl. lia.
    + intros _ Hi. set_solver.
    + intros Hp _ Hor. destruct Hor as [->|Hni].
      * by specialize (Hp eq_refl).
      * destruct (decide (j = i)) as [->|Hne];
          [by specialize (Hp eq_refl)|set_solver].
  - rewrite failed_alerts_record, andb_true_r.
    destruct (Hfail world) as (H1 & H2 & H3). auto.
  - rewrite failed_alerts_record, andb_true_r.
    destruct (Hfail world) as (H1 & H2 & H3). auto.
  - rewrite failed_alerts_record, andb_true_r.
    destruct (Hfail world) as (H1 & H2 & H3). auto.
Qed.

(** Once [i] is out of the healthy set, further events fire nothing for it. *)
Lemma no_alert_while_unhealthy i evs : forall s,
  i ∉ healthy_instances (snd s) ->
  Forall (quiet_for i) evs ->
  failed_alerts (fst (monitor_run s evs)) i = failed_alerts (fst s) i.
Proof.
  induction evs as [|[[j p] world] evs IH]; intros [hm c] Hni Hall; [done|].
  apply Forall_cons in Hall as [[Hp Hfresh] Hall]. simpl in *.
  destruct (check_instance_health_effect hm c j p world i) as (H1 & _ & H3).
  rewrite IH; [|destruct (_check_instance_health _ _ _ _); auto|done].
  rewrite H1, (bool_decide_eq_false_2 _ Hni), andb_false_r. lia.
Qed.

(** C6: from a state where [i] is healthy, take any run of resolved probes
    (of [i] and of other instances) in which [i] is probed at least once,
    every probe of [i] fails, and no replacement is given the id [i] again.
    The first failed probe of [i] is the healthy-to-unhealthy edge and fires
    one [instance_failed] alert for [i]; the later ones, met with [i] still
    unhealthy, fire none: the run fires exactly one. *)
Theorem instance_failed_once_per_edge
    (s : System) (i : string) (evs : list ProbeEvent) :
  i ∈ healthy_instances (snd s) ->
  Exists (fun ev => ev.1.1 = i) evs ->
  Forall (quiet_for i) evs ->
  failed_alerts (fst (monitor_run s evs)) i = S (failed_alerts (fst s) i).
Proof.
  revert s. induction evs as [|[[j p] world] evs IH];
    intros [hm c] Hin Hex Hall; [by apply Exists_nil in Hex|].
  apply Forall_cons in Hall as [[Hp Hfresh] Hall]. simpl in *.
  destruct (check_instance_health_effect hm c j p world i) as (H1 & H2 & H3).
  destruct (decide (j = i)) as [Hji|Hji].
  - rewrite no_alert_while_unhealthy; [|auto|done].
    rewrite H1, (Hp Hji). rewrite !bool_decide_eq_true_2 by done.
    simpl. lia.
  - apply Exists_cons in Hex as [Hex|Hex]; [done|].
    rewrite IH; [|auto|done|done].
    rewrite H1. rewrite (bool_decide_eq_false_2 (j = i)) by done.
    simpl. lia.
Qed.

Lemma sample_world_fresh ids i k :
  i ∉ ids -> i <> "spare" -> uuid (sample_world ids k) <> i.
Proof.
  intros Hni Hsp. simpl. revert k.
  induction ids as [|x ids IH]; intros [|k]; simpl; try congruence.
  - intros ->. apply Hni. left.
  - apply IH. intros H. apply Hni. by right.
Qed.

(** Membership in a concrete set, by computation. *)
Lemma elem_of_by_compute (x : string) (s : gset string) :
  bool_decide (x ∈ s) = true -> x ∈ s.
Proof. apply bool_decide_eq_true_1. Qed.

Lemma instance_failed_once_per_edge_witness :
  failed_alerts
    (fst (monitor_run (new_monitor, sample_pool {["a"; "c"]} ∅ ready)
            [("a", ProbeFalse, sample_world ["r1"]);
             ("c", ProbeTrue, sample_world []);
             ("a", ProbeTimeout, sample_world ["r2"])])) "a"
  = 1%nat.
Proof.
  apply (instance_failed_once_per_edge
           (new_monitor, sample_pool {["a"; "c"]} ∅ ready) "a").
  - apply elem_of_by_compute. vm_compute. reflexivity.
  - left. reflexivity.
  - repeat apply Forall_cons_2; try apply Forall_nil_2;
      (split; [try reflexivity; discriminate|]);
      intros k; apply sample_world_fresh; try discriminate;
      intros H; apply list_elem_of_In in H; simpl in H;
      repeat (destruct H as [H|H]; [discriminate H|]); exact H.
Defined.

(** ** Routing *)

Import load_balancer.

Lemma loop_outcome_retry seen a n r :
  is_accepted a = false ->
  loop_outcome (seen ++ [a]) n r -> loop_outcome seen (S n) r.
Proof.
  intros Ha (more & Ht & Hl & Hr).
  exists (a :: more). rewrite Ht, <- app_assoc. split; [done|].
  split; [simpl; lia|]. unfold rejected_only in *.
  destruct Hr as [[Hn Hf]|(id & pre & Hs & -> & Hf)].
  - left. split; [done|by apply Forall_cons_2].
  - right. exists id, (a :: pre). split; [done|].
    split; [done|by apply Forall_cons_2].
Qed.

Lemma loop_outcome_break seen a n lb c :
  is_accepted a = false ->
  loop_outcome seen (S n)
    {| returned := None; balancer := lb; coordinator := c;
       trace := seen ++ [a] |}.
Proof.
  intros Ha. exists [a]. split; [done|]. split; [simpl; lia|].
  left. split; [done|]. by apply Forall_cons_2.
Qed.

Lemma loop_outcome_accept seen id n lb c :
  loop_outcome seen (S n)
    {| returned := Some id; balancer := lb; coordinator := c;
       trace := seen ++ [Accepted id] |}.
Proof.
  exists [Accepted id]. split; [done|]. split; [simpl; lia|].
  right. exists id, []. split; [done|]. split; [done|apply Forall_nil_2].
Qed.

(** The loop adds at most one attempt per element of the range, stops at
    the first accepted one and returns it, and returns none otherwise. *)
Lemma route_loop_spec
    (list_of_set : gset string -> list string) (entropy : nat -> Entropy)
    (during_sleep : nat -> LoadBalancer * InstanceCoordinator ->
                    LoadBalancer * InstanceCoordinator)
    (clock : nat -> Qc) (attempts : list nat) :
  forall strat request_id size lb c seen,
    loop_outcome seen (length attempts)
      (route_loop list_of_set entropy during_sleep clock
         attempts strat request_id size lb c seen).
Proof.
  induction attempts as [|attempt rest IH];
    intros strat request_id size lb c seen; simpl.
  - exists []. rewrite app_nil_r. split; [done|]. split; [done|].
    left. split; [done|apply Forall_nil_2].
  - destruct (_select_instance list_of_set strat lb c (entropy attempt))
      as [instance_id lb1].
    destruct instance_id as [id|].
    + destruct (truthy (Some id)).
      * destruct (_validate_instance c id); simpl.
        -- apply loop_outcome_accept.
        -- destruct (_ <? _).
           ++ destruct (during_sleep attempt _) as [lb2 c2].
              apply (loop_outcome_retry _ (Rejected id)); [done|apply IH].
           ++ by apply loop_outcome_break.
      * destruct (_ <? _).
        -- destruct (during_sleep attempt _) as [lb2 c2].
           apply (loop_outcome_retry _ NoCandidate); [done|apply IH].
        -- by apply loop_outcome_break.
    + destruct (_ <? _).
      * destruct (during_sleep attempt _) as [lb2 c2].
        apply (loop_outcome_retry _ NoCandidate); [done|apply IH].
      * by apply loop_outcome_break.
Qed.

(** C4: [route_request] makes at most [max_retries + 1] selection attempts,
    and when none of them yields a validated instance it returns none; it
    returns an instance only as the outcome of its last attempt. The
    function is total: there is no outcome other than an id or none. *)
Theorem route_request_bounded
    (list_of_set : gset string -> list string) (entropy : nat -> Entropy)
    (during_sleep : nat -> LoadBalancer * InstanceCoordinator ->
                    LoadBalancer * InstanceCoordinator)
    (clock : nat -> Qc)
    (lb : LoadBalancer) (c : InstanceCoordinator)
    (request_id : string) (size : nat) (strategy_override : option string) :
  0 <= max_retries lb ->
  let r := route_request list_of_set entropy during_sleep clock
             lb c request_id size strategy_override in
  Z.of_nat (length (trace r)) <= max_retries lb + 1 /\
  (rejected_only (trace r) -> returned r = None) /\
  (forall id, returned r = Some id -> last (trace r) = Some (Accepted id)).
Proof.
  intros Hmr r. subst r. unfold route_request.
  set (strat := if truthy strategy_override then _ else _).
  destruct (route_loop_spec list_of_set entropy during_sleep clock
              (seq 0 (Z.to_nat (max_retries (count_request lb strat) + 1)))
              strat request_id size (count_request lb strat) c [])
    as (more & Ht & Hl & Hr).
  rewrite Ht. simpl in *. rewrite length_seq in Hl.
  split; [lia|]. unfold rejected_only in *. split.
  - intros Hrej. destruct Hr as [[Hn _]|(id & pre & _ & -> & _)]; [done|].
    apply Forall_app in Hrej as [_ Hrej].
    apply Forall_cons in Hrej as [Hrej _]. discriminate Hrej.
  - intros id Hid. destruct Hr as [[Hn _]|(id' & pre & Hs & -> & _)].
    + congruence.
    + rewrite last_snoc. congruence.
Qed.

Lemma route_request_bounded_witness :
  Z.of_nat
    (length
       (trace (route_request elements
                 (fun _ => {| choice := 0; uniform := 0%Qc |})
                 (fun _ s => s) (fun _ => 0%Qc)
                 (new_balancer "least_busy" 3) (sample_pool ∅ ∅ ready)
                 "r1" 0 None)))
  <= 3 + 1.
Proof.
  apply (route_request_bounded elements
           (fun _ => {| choice := 0; uniform := 0%Qc |})
           (fun _ s => s) (fun _ => 0%Qc)
           (new_balancer "least_busy" 3) (sample_pool ∅ ∅ ready)
           "r1" 0 None).
  simpl. lia.
Defined.

(** ** Completion and the running mean *)

Lemma of_int_S_neq_0 n : of_int (S n) <> 0%Qc.
Proof.
  intros H. pose proof (of_int_pos (S n) ltac:(lia)) as Hp.
  rewrite H in Hp. by apply Qclt_not_eq in Hp.
Qed.

(** A job served on its own finds its own entry, takes [job_elapsed]
    seconds, and rewrites the record of the instance. *)
Lemma serve_performance lb id j :
  let p := default fresh_performance (instance_performance lb !! id) in
  exists p',
    instance_performance (serve lb id j) !! id = Some p' /\
    total_requests p' = S (total_requests p) /\
    total_response_time p' = (total_response_time p + job_elapsed j)%Qc /\
    avg_response_time p'
    = ((total_response_time p + job_elapsed j)
       / of_int (S (total_requests p)))%Qc /\
    error_count p'
    = (if job_success j then error_count p else S (error_count p)).
Proof.
  intros p. unfold serve, complete_request, _track_request. simpl.
  rewrite dict_get_set_eq. simpl. rewrite lookup_insert_eq. simpl.
  fold p. rewrite lookup_insert_eq.
  replace (job_start j + job_elapsed j - job_start j)%Qc
    with (job_elapsed j) by ring.
  eexists. split; [reflexivity|]. simpl. done.
Qed.

Lemma serve_each_running_means (jobs : list Job) : forall lb id,
  let p := default fresh_performance (instance_performance lb !! id) in
  total_response_time p
  = (avg_response_time p * of_int (total_requests p))%Qc ->
  serve_each lb id jobs
  = running_means (avg_response_time p) (S (total_requests p))
      (map job_elapsed jobs).
Proof.
  induction jobs as [|j jobs IH]; intros lb id p Hinv; [done|].
  destruct (serve_performance lb id j) as (p' & Hp' & Hn & Ht & Ha & _).
  fold p in Hn, Ht, Ha.
  assert (avg_response_time p'
          = running_mean (avg_response_time p) (S (total_requests p))
              (job_elapsed j)) as Hmean.
  { rewrite Ha, Hinv. unfold running_mean.
    replace (S (total_requests p) - 1)%nat with (total_requests p) by lia.
    field. apply of_int_S_neq_0. }
  simpl. unfold average_of at 1. rewrite Hp'. simpl. rewrite Hmean.
  f_equal. specialize (IH (serve lb id j) id). simpl in IH.
  rewrite Hp' in IH. simpl in IH. rewrite Hn, Hmean in IH. apply IH.
  rewrite Ht, <- Hmean, Ha. field. apply of_int_S_neq_0.
Qed.

(** C9: on an instance that is served one request at a time, starting with
    its first, the average read after the [n]-th completion is
    [avg_(n-1) * (n-1)/n + sample/n]; after 2s, 4s and 6s it reads 2, 3
    and 4. *)
Theorem complete_request_running_mean
    (lb : LoadBalancer) (id : string) (jobs : list Job) :
  instance_performance lb !! id = None ->
  serve_each lb id jobs = running_means 0%Qc 1 (map job_elapsed jobs) /\
  serve_each (new_balancer "least_busy" 3) "a"
    [sample_job "r1" 10 2; sample_job "r2" 20 4; sample_job "r3" 30 6]
  = [Q2Qc 2; Q2Qc 3; Q2Qc 4].
Proof.
  intros Hnone. split.
  - pose proof (serve_each_running_means jobs lb id) as H. simpl in H.
    rewrite Hnone in H. simpl in H. apply H. ring.
  - vm_compute.
    repeat (apply f_equal2; [by apply Qc_is_canon|]). reflexivity.
Qed.

Lemma complete_request_running_mean_witness :
  serve_each (new_balancer "least_busy" 3) "a"
    [sample_job "r1" 10 2; sample_job "r2" 20 4; sample_job "r3" 30 6]
  = running_means 0%Qc 1 [Q2Qc 2; Q2Qc 4; Q2Qc 6].
Proof.
  apply (complete_request_running_mean (new_balancer "least_busy" 3) "a"
           [sample_job "r1" 10 2; sample_job "r2" 20 4; sample_job "r3" 30 6]).
  reflexivity.
Defined.

(** ** Failure of an instance *)

(** The records of the balancer always have a request counted: the division
    of [complete_request] is by a positive number. *)
Lemma new_balancer_counted strat mr :
  performance_counted (new_balancer strat mr).
Proof. intros id p H. simpl in H. by rewrite lookup_empty in H. Qed.

Lemma track_request_counted lb request_id id size now :
  performance_counted lb ->
  performance_counted (_track_request lb request_id id size now).
Proof.
  intros Hc id' p. unfold _track_request. simpl.
  destruct (decide (id = id')) as [->|Hne].
  - rewrite lookup_insert_eq. by intros [= <-].
  - rewrite lookup_insert_ne by done. apply Hc.
Qed.

Lemma complete_request_counted lb request_id success response_size now :
  performance_counted lb ->
  performance_counted
    (complete_request lb request_id success response_size now).
Proof.
  intros Hc. unfold complete_request.
  destruct (dict_get _ _) as [info|]; [|done]. simpl.
  destruct (instance_performance lb !! req_instance_id info) as [p|] eqn:Hp;
    simpl; [|intros id' p'; simpl; apply Hc].
  pose proof (Hc _ _ Hp) as Hn. unfold update_performance.
  destruct (total_requests p) as [|n] eqn:E; [done|].
  intros id' p'. simpl.
  destruct (decide (req_instance_id info = id')) as [->|Hne].
  - rewrite lookup_insert_eq. by intros [= <-].
  - rewrite lookup_insert_ne by done. apply Hc.
Qed.

(** Without a performance record ([reset_stats] drops the records and keeps
    the active requests) there is no [error_count] to raise: the instance
    still has no record afterwards. *)
Lemma complete_request_no_record lb request_id success response_size now i :
  instance_performance lb !! i = None ->
  instance_performance
    (complete_request lb request_id success response_size now) !! i = None.
Proof.
  intros Hnone. unfold complete_request.
  destruct (dict_get _ _) as [info|]; [|done]. simpl.
  destruct (instance_performance lb !! req_instance_id info) as [p|] eqn:Hp;
    simpl; [|done].
  destruct (update_performance _ _ _) as [p' ok].
  assert (req_instance_id info <> i) as Hne by congruence.
  destruct ok; simpl; by rewrite lookup_insert_ne.
Qed.

Lemma handle_instance_failure_no_record lb i clock :
  instance_performance lb !! i = None ->
  instance_performance (handle_instance_failure lb i clock) !! i = None.
Proof.
  intros Hnone. unfold handle_instance_failure.
  assert (forall reqs lb0 k,
            instance_performance lb0 !! i = None ->
            instance_performance (fail_all lb0 reqs k clock) !! i = None)
    as Hall.
  { induction reqs as [|r reqs IH]; intros lb0 k H0; simpl; [done|].
    apply IH. by apply complete_request_no_record. }
  rewrite (Hall _ _ _ Hnone). by apply Hall.
Qed.

Lemma failed_requests_length lb i :
  length (failed_requests lb i) = active_count (active_requests lb) i.
Proof.
  unfold failed_requests, active_count, dict_values.
  rewrite length_map. induction (active_requests lb) as [|[k v] d IH];
    simpl; [done|].
  destruct (String.eqb (req_instance_id v) i); simpl; by rewrite IH.
Qed.

Lemma failed_requests_bound lb i r :
  dict_wf (active_requests lb) ->
  r ∈ failed_requests lb i ->
  exists info, dict_get (active_requests lb) r = Some info /\
               req_instance_id info = i.
Proof.
  unfold failed_requests. intros Hwf Hin.
  apply list_elem_of_fmap in Hin as ([k info] & -> & Hin).
  apply list_elem_of_In, filter_In in Hin as [Hin Hi].
  apply list_elem_of_In in Hin. simpl in *.
  exists info. split; [by apply dict_elem_get|by apply String.eqb_eq].
Qed.

Lemma failed_requests_NoDup lb i :
  dict_wf (active_requests lb) -> NoDup (failed_requests lb i).
Proof.
  unfold failed_requests, dict_wf, dict_keys.
  induction (active_requests lb) as [|[k v] d IH]; simpl;
    [intros _; apply NoDup_nil_2|].
  intros Hnd. apply NoDup_cons in Hnd as [Hk Hnd].
  destruct (String.eqb (req_instance_id v) i); simpl; [|auto].
  apply NoDup_cons_2; [|auto].
  intros Hin. apply Hk.
  apply list_elem_of_fmap in Hin as (kv & -> & Hin).
  apply list_elem_of_In, filter_In in Hin as [Hin _].
  apply list_elem_of_fmap. exists kv. split; [done|by apply list_elem_of_In].
Qed.

(** Completing as a failure one request bound to [i] pops its entry and
    adds one to [error_count] of [i]. *)
Lemma complete_failure_effect lb r info now i p :
  dict_get (active_requests lb) r = Some info ->
  req_instance_id info = i ->
  instance_performance lb !! i = Some p ->
  total_requests p <> O ->
  let lb' := complete_request lb r false 0 now in
  active_requests lb' = dict_del (active_requests lb) r /\
  exists p', instance_performance lb' !! i = Some p' /\
             error_count p' = S (error_count p) /\
             total_requests p' = total_requests p.
Proof.
  intros Hget Hi Hp Hn. unfold complete_request. rewrite Hget. simpl.
  rewrite Hi, Hp. unfold update_performance.
  destruct (total_requests p) as [|n] eqn:E; [done|]. simpl.
  split; [done|]. rewrite lookup_insert_eq. eexists. split; [done|].
  simpl. by rewrite ?E.
Qed.

Lemma fail_all_error_count (reqs : list string) : forall lb k clock i p,
  NoDup reqs ->
  (forall r, r ∈ reqs ->
     exists info, dict_get (active_requests lb) r = Some info /\
                  req_instance_id info = i) ->
  instance_performance lb !! i = Some p ->
  total_requests p <> O ->
  exists p', instance_performance (fail_all lb reqs k clock) !! i = Some p' /\
             error_count p' = (error_count p + length reqs)%nat /\
             total_requests p' = total_requests p.
Proof.
  induction reqs as [|r reqs IH]; intros lb k clock i p Hnd Hall Hp Hn; simpl.
  - exists p. split; [done|]. split; [lia|done].
  - apply NoDup_cons in Hnd as [Hr Hnd].
    destruct (Hall r) as (info & Hget & Hi); [left|].
    destruct (complete_failure_effect lb r info (clock k) i p Hget Hi Hp Hn)
      as (Hact & p1 & Hp1 & He1 & Hn1).
    destruct (IH (complete_request lb r false 0 (clock k)) (S k) clock i p1)
      as (p' & Hp' & He' & Hn'); [done| |done|congruence|].
    + intros r' Hr'. rewrite Hact, dict_get_del_ne; [|by intros ->].
      apply Hall. by right.
    + exists p'. split; [done|]. split; [lia|congruence].
Qed.

(** C10: when [k] entries of the active-request map are bound to [i], and
    [i] has a performance record, [handle_instance_failure(i)] raises its
    [error_count] by [2k]: by [k] through the completions as failures, one
    each, and by [k] again through the bulk update that follows. *)
Theorem handle_instance_failure_counts_twice
    (lb : LoadBalancer) (i : string) (clock : nat -> Qc)
    (p : PerformanceRecord) :
  dict_wf (active_requests lb) ->
  instance_performance lb !! i = Some p ->
  total_requests p <> O ->
  let k := active_count (active_requests lb) i in
  errors_of (fail_all lb (failed_requests lb i) 0 clock) i
  = (error_count p + k)%nat /\
  errors_of (handle_instance_failure lb i clock) i
  = (error_count p + 2 * k)%nat.
Proof.
  intros Hwf Hp Hn k. subst k. rewrite <- failed_requests_length.
  destruct (fail_all_error_count (failed_requests lb i) lb 0 clock i p)
    as (p' & Hp' & He' & _); [by apply failed_requests_NoDup| |done|done|].
  { intros r. by apply failed_requests_bound. }
  unfold handle_instance_failure, errors_of. rewrite Hp'. simpl.
  rewrite lookup_insert_eq. simpl. lia.
Qed.

Lemma handle_instance_failure_counts_twice_witness :
  errors_of (handle_instance_failure sample_balancer "a" (fun _ => 1%Qc)) "a"
  = 4%nat.
Proof.
  refine (proj2 (handle_instance_failure_counts_twice sample_balancer "a"
                   (fun _ => 1%Qc)
                   {| total_requests := 2; total_response_time := 0%Qc;
                      avg_response_time := 0%Qc; success_count := 0;
                      error_count := 0; last_request_time := Some 0%Qc |}
                   _ _ _)).
  - unfold dict_wf. simpl. repeat constructor; set_solver.
  - reflexivity.
  - discriminate.
Defined.

(** * Further properties of the modules *)

(** ** Dictionaries, continued *)

Lemma dict_del_absent {V} (d : dict V) (k : string) :
  k ∉ dict_keys d -> dict_del d k = d.
Proof.
  induction d as [|[k0 v0] r IH]; simpl; [done|].
  rewrite not_elem_of_cons. intros [Hne Hni].
  destruct (String.eqb k0 k) eqn:E.
  - apply String.eqb_eq in E. congruence.
  - by rewrite IH.
Qed.

Lemma dict_del_set {V} (d : dict V) (k : string) (v : V) :
  dict_del (dict_set d k v) k = dict_del d k.
Proof.
  induction d as [|[k0 v0] r IH]; simpl.
  - by rewrite String.eqb_refl.
  - destruct (String.eqb k0 k) eqn:E; simpl; rewrite E; [done|].
    by rewrite IH.
Qed.

Lemma dict_del_keys_sub {V} (d : dict V) (k x : string) :
  x ∈ dict_keys (dict_del d k) -> x ∈ dict_keys d.
Proof.
  induction d as [|[k0 v0] r IH]; simpl; [done|].
  destruct (String.eqb k0 k); simpl.
  - intros H. by right.
  - rewrite !elem_of_cons. intros [->|H]; [by left|right; auto].
Qed.

Lemma dict_del_wf {V} (d : dict V) (k : string) :
  dict_wf d -> dict_wf (dict_del d k).
Proof.
  unfold dict_wf. induction d as [|[k0 v0] r IH]; simpl; [done|].
  intros Hnd. apply NoDup_cons in Hnd as [Hk Hnd].
  destruct (String.eqb k0 k); simpl; [done|].
  apply NoDup_cons_2; [|auto].
  intros Hin. apply Hk. by apply dict_del_keys_sub in Hin.
Qed.

Lemma dict_set_keys {V} (d : dict V) (k : string) (v : V) :
  dict_keys (dict_set d k v)
  = if dict_mem d k then dict_keys d else dict_keys d ++ [k].
Proof.
  unfold dict_mem. induction d as [|[k0 v0] r IH]; simpl; [done|].
  destruct (String.eqb k0 k) eqn:E; simpl; [done|].
  rewrite IH. by destruct (dict_get r k).
Qed.

Lemma dict_set_wf {V} (d : dict V) (k : string) (v : V) :
  dict_wf d -> dict_wf (dict_set d k v).
Proof.
  unfold dict_wf. intros Hnd. rewrite dict_set_keys. unfold dict_mem.
  destruct (dict_get d k) eqn:E; [done|].
  apply dict_get_None in E. apply NoDup_app. split; [done|].
  split; [|apply NoDup_singleton].
  intros x Hx Hk. apply list_elem_of_singleton in Hk. by subst.
Qed.

(** Deleting the keys of a dictionary one after the other empties it. *)
Lemma dict_del_all_keys {V} (d : dict V) :
  fold_left dict_del (dict_keys d) d = [].
Proof.
  induction d as [|[k v] r IH]; simpl; [done|].
  by rewrite String.eqb_refl.
Qed.

Lemma fold_dict_del_cons {V} (ks : list string) : forall (k : string) (v : V) d,
  k ∉ ks ->
  fold_left dict_del ks ((k, v) :: d) = (k, v) :: fold_left dict_del ks d.
Proof.
  induction ks as [|x ks IH]; intros k v d Hni; simpl; [done|].
  apply not_elem_of_cons in Hni as [Hne Hni].
  destruct (String.eqb k x) eqn:E.
  - apply String.eqb_eq in E. congruence.
  - by apply IH.
Qed.

(** ** Completion, failure and clean-up in the balancer *)

(** Whatever else it does, [complete_request] leaves the active map without
    the request. *)
Lemma complete_request_active lb request_id success response_size now :
  active_requests (complete_request lb request_id success response_size now)
  = dict_del (active_requests lb) request_id.
Proof.
  unfold complete_request.
  destruct (dict_get (active_requests lb) request_id) as [info|] eqn:E.
  - simpl. destruct (instance_performance lb !! req_instance_id info);
      simpl; [destruct (update_performance _ _ _) as [p' []]|]; done.
  - apply dict_get_None in E. by rewrite dict_del_absent.
Qed.

Lemma fail_all_active (reqs : list string) : forall lb k clock,
  active_requests (fail_all lb reqs k clock)
  = fold_left dict_del reqs (active_requests lb).
Proof.
  induction reqs as [|r reqs IH]; intros lb k clock; simpl; [done|].
  by rewrite IH, complete_request_active.
Qed.

Lemma fail_all_counted (reqs : list string) : forall lb k clock,
  performance_counted lb -> performance_counted (fail_all lb reqs k clock).
Proof.
  induction reqs as [|r reqs IH]; intros lb k clock Hc; simpl; [done|].
  apply IH. by apply complete_request_counted.
Qed.

Lemma failed_keys_removed (i : string) (d : dict ActiveRequest) :
  dict_wf d ->
  fold_left dict_del
    (map fst (List.filter
                (fun kv => String.eqb (req_instance_id (snd kv)) i) d)) d
  = List.filter (fun kv => negb (String.eqb (req_instance_id (snd kv)) i)) d.
Proof.
  unfold dict_wf. induction d as [|[k v] d IH]; simpl; [done|].
  intros Hnd. apply NoDup_cons in Hnd as [Hk Hnd].
  destruct (String.eqb (req_instance_id v) i); simpl.
  - rewrite String.eqb_refl. auto.
  - rewrite fold_dict_del_cons; [by rewrite IH|].
    intros Hin. apply Hk.
    apply list_elem_of_fmap in Hin as (kv & -> & Hin).
    apply list_elem_of_In, filter_In in Hin as [Hin _].
    apply list_elem_of_fmap. exists kv. split; [done|by apply list_elem_of_In].
Qed.

(** X1: routing a request and completing it leaves the active map as it was
    without that request id: every other request keeps its entry and its
    place, and a request id that was not active before leaves no trace. *)
Theorem track_then_complete_releases
    (lb : LoadBalancer) (request_id id : string) (size : nat) (t now : Qc)
    (success : bool) (response_size : nat) :
  active_requests
    (complete_request (_track_request lb request_id id size t)
                      request_id success response_size now)
  = dict_del (active_requests lb) request_id
  /\ (dict_get (active_requests lb) request_id = None ->
      active_requests
        (complete_request (_track_request lb request_id id size t)
                          request_id success response_size now)
      = active_requests lb).
Proof.
  rewrite complete_request_active. simpl. rewrite dict_del_set.
  split; [done|]. intros Hnone. apply dict_del_absent.
  by apply dict_get_None.
Qed.

Lemma last_n_length {A} (n : nat) (l : list A) :
  length (last_n n l) = Nat.min n (length l).
Proof. unfold last_n. rewrite length_skipn. lia. Qed.

Lemma last_n_suffix {A} (n : nat) (l : list A) :
  exists older, l = older ++ last_n n l.
Proof.
  exists (firstn (length l - n) l). unfold last_n.
  symmetry. apply firstn_skipn.
Qed.

Lemma last_n_last {A} (n : nat) (l : list A) (x : A) :
  (0 < n)%nat -> last_n n (l ++ [x]) = last_n (n - 1) l ++ [x].
Proof.
  intros Hn. unfold last_n. rewrite length_app. simpl.
  rewrite skipn_app.
  replace (length l + 1 - n - length l)%nat with 0%nat by lia.
  simpl. do 2 f_equal. lia.
Qed.

(** X2: [request_history] never holds more than 1000 entries once it is
    within that bound, and a completion that finds its request (and a
    counted performance record) puts its own entry last. *)
Theorem request_history_bounded
    (lb : LoadBalancer) (request_id : string) (success : bool)
    (response_size : nat) (now : Qc) :
  (length (request_history lb) <= 1000)%nat ->
  performance_counted lb ->
  let lb' := complete_request lb request_id success response_size now in
  (length (request_history lb') <= 1000)%nat /\
  (forall info,
     dict_get (active_requests lb) request_id = Some info ->
     exists e, last (request_history lb') = Some e /\
               h_request_id e = request_id /\
               h_instance_id e = req_instance_id info /\
               h_response_time e = (now - start_time info)%Qc /\
               h_success e = success).
Proof.
  intros Hlen Hc lb'. subst lb'. unfold complete_request.
  destruct (dict_get (active_requests lb) request_id) as [info|] eqn:E;
    [|split; [done|by intros ? [=]]].
  assert (forall lb2 entry,
    request_history lb2 = request_history lb ->
    (length
       (request_history
          (with_history lb2
             (if Nat.ltb 1000 (length (request_history lb2 ++ [entry]))
              then last_n 1000 (request_history lb2 ++ [entry])
              else request_history lb2 ++ [entry]))) <= 1000)%nat /\
    last
      (request_history
         (with_history lb2
            (if Nat.ltb 1000 (length (request_history lb2 ++ [entry]))
             then last_n 1000 (request_history lb2 ++ [entry])
             else request_history lb2 ++ [entry])))
    = Some entry) as Hpush.
  { intros lb2 entry Hh. cbn [request_history with_history]. rewrite Hh.
    destruct (Nat.ltb_spec 1000 (length (request_history lb ++ [entry])))
      as [Hlt|Hge].
    - rewrite last_n_length. split; [lia|].
      rewrite last_n_last by lia. apply last_snoc.
    - split; [done|apply last_snoc]. }
  set (lb1 := with_active lb (dict_del (active_requests lb) request_id)).
  cbv zeta.
  change (instance_performance lb1) with (instance_performance lb).
  destruct (instance_performance lb !! req_instance_id info) as [p|] eqn:Hp.
  - pose proof (Hc _ _ Hp) as Hn.
    destruct (update_performance p (now - start_time info) success)
      as [p' ok] eqn:Hu.
    assert (ok = true) as ->.
    { revert Hu. unfold update_performance.
      destruct (total_requests p); [done|]. by intros [= _ <-]. }
    match goal with
    | |- context [with_history ?lb2 (if _ then last_n _ (_ ++ [?e]) else _)] =>
        destruct (Hpush lb2 e eq_refl) as [H1 H2]
    end.
    split; [exact H1|]. intros info' [= <-]. eexists. split; [exact H2|].
    done.
  - match goal with
    | |- context [with_history ?lb2 (if _ then last_n _ (_ ++ [?e]) else _)] =>
        destruct (Hpush lb2 e eq_refl) as [H1 H2]
    end.
    split; [exact H1|]. intros info' [= <-]. eexists. split; [exact H2|].
    done.
Qed.

Lemma request_history_bounded_witness :
  (length (request_history
             (complete_request sample_balancer "r1" true 0 1%Qc)) <= 1000)%nat.
Proof.
  apply (request_history_bounded sample_balancer "r1" true 0 1%Qc).
  - simpl. lia.
  - unfold sample_balancer.
    repeat apply track_request_counted. apply new_balancer_counted.
Defined.

(** X3: [handle_instance_failure(i)] leaves no active request bound to [i]
    and leaves every request bound to another instance in the active map,
    in its place. *)
Theorem handle_instance_failure_releases
    (lb : LoadBalancer) (i : string) (clock : nat -> Qc) :
  dict_wf (active_requests lb) ->
  let lb' := handle_instance_failure lb i clock in
  active_requests lb'
  = List.filter (fun kv => negb (String.eqb (req_instance_id (snd kv)) i))
                (active_requests lb)
  /\ active_count (active_requests lb') i = 0%nat
  /\ forall j, j <> i ->
       active_count (active_requests lb') j
       = active_count (active_requests lb) j.
Proof.
  intros Hwf lb'.
  assert (active_requests lb'
          = List.filter
              (fun kv => negb (String.eqb (req_instance_id (snd kv)) i))
              (active_requests lb)) as Hact.
  { subst lb'. unfold handle_instance_failure.
    assert (active_requests (fail_all lb (failed_requests lb i) 0 clock)
            = List.filter
                (fun kv => negb (String.eqb (req_instance_id (snd kv)) i))
                (active_requests lb)) as H.
    { rewrite fail_all_active. by apply failed_keys_removed. }
    by destruct (instance_performance _ !! i). }
  split; [exact Hact|]. rewrite Hact. clear Hact lb'.
  unfold active_count, dict_values.
  induction (active_requests lb) as [|[k v] d IH]; [done|].
  apply NoDup_cons in Hwf as [_ Hwf]. destruct (IH Hwf) as [IH1 IH2].
  simpl. destruct (String.eqb (req_instance_id v) i) eqn:E; simpl.
  - split; [done|]. intros j Hj. apply String.eqb_eq in E.
    destruct (String.eqb (req_instance_id v) j) eqn:Ej; [|auto].
    apply String.eqb_eq in Ej. congruence.
  - rewrite E. split; [done|]. intros j Hj.
    destruct (String.eqb (req_instance_id v) j); simpl; auto.
Qed.

Lemma handle_instance_failure_releases_witness :
  active_count
    (active_requests
       (handle_instance_failure sample_balancer "a" (fun _ => 1%Qc))) "a"
  = 0%nat.
Proof.
  apply (handle_instance_failure_releases sample_balancer "a").
  unfold dict_wf. simpl. repeat constructor; set_solver.
Defined.

(** X4: [cleanup] of the balancer leaves no active request. *)
Theorem balancer_cleanup_releases_all (lb : LoadBalancer) (clock : nat -> Qc) :
  active_requests (load_balancer.cleanup lb clock) = [].
Proof.
  unfold load_balancer.cleanup. rewrite fail_all_active.
  apply dict_del_all_keys.
Qed.

(** X5: every performance record has [total_requests >= 1], and routing,
    completion, failure handling and clean-up keep it so: the division in
    [complete_request] is never by zero. *)
Theorem balancer_keeps_records_counted
    (lb : LoadBalancer) (request_id id : string) (size : nat) (now : Qc)
    (success : bool) (response_size : nat) (clock : nat -> Qc) :
  performance_counted lb ->
  performance_counted (_track_request lb request_id id size now) /\
  performance_counted
    (complete_request lb request_id success response_size now) /\
  performance_counted (handle_instance_failure lb id clock) /\
  performance_counted (load_balancer.cleanup lb clock).
Proof.
  intros Hc. split; [by apply track_request_counted|].
  split; [by apply complete_request_counted|].
  split; [|by apply fail_all_counted].
  unfold handle_instance_failure.
  pose proof (fail_all_counted (failed_requests lb id) lb 0 clock Hc) as H.
  destruct (instance_performance _ !! id) as [p|] eqn:Hp; [|done].
  intros id' p'. simpl. destruct (decide (id = id')) as [->|Hne].
  - rewrite lookup_insert_eq. intros [= <-]. simpl. by apply (H id').
  - rewrite lookup_insert_ne by done. apply H.
Qed.

Lemma balancer_keeps_records_counted_witness :
  performance_counted (handle_instance_failure sample_balancer "a"
                         (fun _ => 1%Qc)).
Proof.
  apply (balancer_keeps_records_counted sample_balancer "r9" "a" 0 1%Qc
           true 0 (fun _ => 1%Qc)).
  unfold sample_balancer.
  repeat apply track_request_counted. apply new_balancer_counted.
Defined.

(** ** The selection strategies *)

Lemma enumerates_nil list_of_set (s : gset string) :
  enumerates list_of_set -> list_of_set s = [] <-> s = ∅.
Proof.
  intros Hen. destruct (Hen s) as [_ Hin]. split.
  - intros E. apply set_eq. intros x. rewrite <- Hin, E. set_solver.
  - intros Hs. destruct (list_of_set s) as [|x l] eqn:E; [done|].
    assert (x ∈ s) as H by (apply Hin; left).
    rewrite Hs in H. set_solver.
Qed.

Lemma enumerates_length list_of_set (s : gset string) :
  enumerates list_of_set -> length (list_of_set s) = size s.
Proof.
  intros Hen. destruct (Hen s) as [Hnd Hin].
  unfold size, set_size. simpl. apply Permutation_length.
  apply NoDup_Permutation; [done|apply NoDup_elements|].
  intros x. rewrite Hin. by rewrite elem_of_elements.
Qed.

Lemma lookup_mod_elem (l : list string) (n : nat) (x : string) :
  l !! (n mod length l)%nat = Some x -> x ∈ l.
Proof. intros H. apply list_elem_of_lookup. eauto. Qed.

Lemma lookup_mod_is_Some (l : list string) (n : nat) :
  l <> [] -> is_Some (l !! (n mod length l)%nat).
Proof.
  intros Hne. apply lookup_lt_is_Some. apply Nat.mod_upper_bound.
  destruct l; [done|simpl; lia].
Qed.

Lemma fold_dict_set_keys {V} (f : string -> V) (l : list string) :
  forall (acc : dict V) x,
    x ∈ dict_keys (fold_left (fun d id => dict_set d id (f id)) l acc) ->
    x ∈ dict_keys acc \/ x ∈ l.
Proof.
  induction l as [|a l IH]; intros acc x; simpl; [auto|].
  intros H. apply IH in H as [H|H]; [|right; by right].
  rewrite dict_set_keys in H. destruct (dict_mem acc a); [by left|].
  apply elem_of_app in H as [H|H]; [by left|].
  apply list_elem_of_singleton in H. subst. right. left.
Qed.

Lemma weighted_scan_elem rand_val (weights : list (string * Qc)) :
  forall cumulative id,
    weighted_scan rand_val cumulative weights = Some id ->
    id ∈ dict_keys weights.
Proof.
  induction weights as [|[k w] r IH]; intros cumulative id; simpl; [done|].
  destruct (Qc_leb _ _).
  - intros [= ->]. left.
  - intros H. right. by apply IH in H.
Qed.

Lemma response_time_scan_elem perf (l : list string) :
  forall best_instance best_time id,
    response_time_scan perf l best_instance best_time = Some id ->
    id ∈ l \/ best_instance = Some id.
Proof.
  induction l as [|a l IH]; intros bi bt id; simpl; [auto|].
  destruct (lt_inf _ _); intros H; apply IH in H as [H|H].
  - left. by right.
  - injection H as ->. left. left.
  - left. by right.
  - by right.
Qed.

(** X6: whatever the strategy name (an unknown one falls back to
    least-busy) and whatever the random draws, [_select_instance] returns
    nothing exactly when the healthy set is empty, and otherwise a member of
    the healthy set. *)
Theorem select_instance_from_healthy
    (list_of_set : gset string -> list string) (strat : string)
    (lb : LoadBalancer) (c : InstanceCoordinator) (e : Entropy) :
  enumerates list_of_set ->
  (fst (_select_instance list_of_set strat lb c e) = None
   <-> healthy_instances c = ∅) /\
  (forall id, fst (_select_instance list_of_set strat lb c e) = Some id ->
              id ∈ healthy_instances c).
Proof.
  intros Hen. destruct (Hen (healthy_instances c)) as [Hnd Hin].
  pose proof (enumerates_nil list_of_set (healthy_instances c) Hen) as Hnil.
  assert (forall r : option string,
            (list_of_set (healthy_instances c) = [] -> r = None) ->
            (list_of_set (healthy_instances c) <> [] -> is_Some r) ->
            (forall id, r = Some id -> id ∈ list_of_set (healthy_instances c)) ->
            (r = None <-> healthy_instances c = ∅) /\
            (forall id, r = Some id -> id ∈ healthy_instances c)) as Hgen.
  { intros r H0 H1 H2. split.
    - rewrite <- Hnil. split; [|done].
      intros ->. destruct (list_of_set _) eqn:E; [done|].
      destruct H1 as [? [=]]. done.
    - intros id Hid. apply Hin. auto. }
  assert (let r := _least_busy_strategy list_of_set lb c in
          (r = None <-> healthy_instances c = ∅) /\
          (forall id, r = Some id -> id ∈ healthy_instances c)) as Hlb.
  { apply Hgen; unfold _least_busy_strategy.
    - by intros ->.
    - intros Hne.
      destruct (least_busy_spec _ (active_requests lb) Hnd Hne)
        as (l1 & r & l2 & _ & -> & _). eauto.
    - intros id Hid.
      destruct (list_of_set (healthy_instances c)) eqn:E; [done|].
      rewrite <- E in *.
      destruct (least_busy_spec (list_of_set (healthy_instances c))
                  (active_requests lb) Hnd) as (l1 & r & l2 & El & Hr & _).
      { by rewrite E. }
      rewrite Hr in Hid. injection Hid as <-. rewrite El. set_solver. }
  unfold _select_instance.
  destruct (String.eqb strat "round_robin").
  { unfold _round_robin_strategy.
    destruct (list_of_set (healthy_instances c)) as [|a l] eqn:E.
    - apply Hgen; done.
    - cbn [fst]. apply Hgen; rewrite ?E.
      + done.
      + intros _. by apply lookup_mod_is_Some.
      + intros id. apply lookup_mod_elem. }
  destruct (String.eqb strat "least_busy"); [exact Hlb|].
  destruct (String.eqb strat "response_time").
  { cbn [fst]. unfold _response_time_strategy.
    destruct (list_of_set (healthy_instances c)) as [|a l] eqn:E.
    - apply Hgen; done.
    - apply Hgen; rewrite ?E.
      + done.
      + intros _. destruct (truthy _) eqn:T; [|eauto].
        destruct (response_time_scan _ _ _ _); [eauto|done].
      + intros id. destruct (truthy _).
        * intros H. apply response_time_scan_elem in H as [H|H]; done.
        * intros [= <-]. left. }
  destruct (String.eqb strat "random").
  { cbn [fst]. unfold _random_strategy, random_choice.
    destruct (list_of_set (healthy_instances c)) as [|a l] eqn:E.
    - apply Hgen; done.
    - apply Hgen; rewrite ?E.
      + done.
      + intros _. by apply lookup_mod_is_Some.
      + intros id. apply lookup_mod_elem. }
  destruct (String.eqb strat "weighted_round_robin"); [|exact Hlb].
  cbn [fst]. unfold _weighted_round_robin_strategy, random_choice.
  destruct (list_of_set (healthy_instances c)) as [|a l] eqn:E.
  - apply Hgen; done.
  - apply Hgen; rewrite ?E.
    + done.
    + intros _. destruct (Qc_eq_dec _ _).
      * by apply lookup_mod_is_Some.
      * destruct (weighted_scan _ _ _); [eauto|]. by apply last_is_Some.
    + intros id. destruct (Qc_eq_dec _ _).
      * apply lookup_mod_elem.
      * destruct (weighted_scan _ _ _) as [w|] eqn:Hw.
        -- intros [= <-]. apply weighted_scan_elem in Hw.
           unfold dict_keys in Hw. rewrite map_map in Hw.
           apply (fold_dict_set_keys _ _ [] w) in Hw as [Hw|Hw]; [|done].
           by apply elem_of_nil in Hw.
        -- apply last_Some_elem_of.
Qed.

Lemma select_instance_from_healthy_witness :
  "c" ∈ healthy_instances (sample_pool {["a"; "c"]} ∅ ready).
Proof.
  apply (select_instance_from_healthy elements "least_busy"
           (new_balancer "least_busy" 3) (sample_pool {["a"; "c"]} ∅ ready)
           {| choice := 0; uniform := 0%Qc |} elements_enumerates).
  vm_compute. reflexivity.
Defined.

(** ** Round robin *)

Lemma rotate_nat_add_mod (base offset len : nat) :
  (0 < len)%nat -> rotate_nat_add base offset len = ((base + offset) mod len)%nat.
Proof.
  intros Hlen. unfold rotate_nat_add.
  rewrite <- Nat2Z.inj_add, <- Nat2Z.inj_mod. apply Nat2Z.id.
Qed.

Lemma rotate_Permutation {A} (n : nat) (l : list A) : rotate n l ≡ₚ l.
Proof.
  unfold rotate. rewrite Permutation_app_comm. by rewrite take_drop.
Qed.

(** The results of [k] calls that start at index [i] on the list [l]. *)
Lemma round_robin_calls_spec list_of_set (c : InstanceCoordinator) (k : nat) :
  forall lb,
    list_of_set (healthy_instances c) <> [] ->
    fst (round_robin_calls list_of_set k lb c)
    = map (fun n => list_of_set (healthy_instances c)
                      !! ((_round_robin_index lb + n)
                          mod length (list_of_set (healthy_instances c)))%nat)
          (seq 0 k).
Proof.
  induction k as [|k IH]; intros lb Hne; [done|].
  cbn [round_robin_calls]. unfold _round_robin_strategy at 1.
  destruct (list_of_set (healthy_instances c)) as [|a l] eqn:E; [done|].
  rewrite <- E in *.
  specialize (IH (with_index lb (S (_round_robin_index lb))) Hne).
  destruct (round_robin_calls list_of_set k _ c) as [rs lb2].
  cbn [fst] in *. rewrite IH. cbn [seq map]. f_equal.
  - by rewrite Nat.add_0_r.
  - rewrite <- seq_shift, List.map_map. apply map_ext. intros n. simpl.
    do 2 f_equal. lia.
Qed.

Lemma visits_app x l1 l2 : visits x (l1 ++ l2) = (visits x l1 + visits x l2)%nat.
Proof. unfold visits. by rewrite List.filter_app, length_app. Qed.

Lemma visits_Some_NoDup x (l : list string) :
  NoDup l -> x ∈ l -> visits x (map Some l) = 1%nat.
Proof.
  unfold visits. induction l as [|a l IH]; intros Hnd Hin.
  - by apply elem_of_nil in Hin.
  - apply NoDup_cons in Hnd as [Ha Hnd]. simpl.
    destruct (bool_decide_reflect (Some a = Some x)) as [[= ->]|Hne]; simpl.
    + f_equal. clear IH Hin.
      induction l as [|b l IH]; [done|]. simpl.
      apply not_elem_of_cons in Ha as [Hb Ha].
      apply NoDup_cons in Hnd as [_ Hnd].
      rewrite bool_decide_eq_false_2 by congruence. auto.
    + apply IH; [done|]. apply elem_of_cons in Hin as [->|Hin]; done.
Qed.

(** One period of the cycle is the list, rotated. *)
Lemma round_robin_period (l : list string) (i : nat) :
  l <> [] ->
  map (fun n => l !! ((i + n) mod length l)%nat) (seq 0 (length l))
  = map Some (rotate i l).
Proof.
  intros Hne. assert (0 < length l)%nat as Hlen
      by (destruct l; [done|simpl; lia]).
  apply list_eq. intros j.
  change (map ?f ?l) with (f <$> l). rewrite !list_lookup_fmap.
  destruct (decide (j < length l)%nat) as [Hj|Hj].
  - rewrite lookup_seq_lt by done. simpl.
    rewrite lookup_rotate_r by done. rewrite rotate_nat_add_mod by done.
    destruct (lookup_lt_is_Some_2 l ((i + j) mod length l)%nat) as [y Hy].
    { by apply Nat.mod_upper_bound, Nat.neq_0_lt_0. }
    by rewrite Hy.
  - rewrite lookup_seq_ge by lia.
    rewrite (lookup_ge_None_2 (rotate i l)); [done|].
    rewrite length_rotate. lia.
Qed.

Lemma round_robin_periods (l : list string) (x : string) (m : nat) :
  forall i,
    NoDup l -> x ∈ l ->
    visits x (map (fun n => l !! ((i + n) mod length l)%nat)
                  (seq 0 (m * length l)))
    = m.
Proof.
  induction m as [|m IH]; intros i Hnd Hin; [done|].
  assert (l <> []) as Hne by (intros ->; by apply elem_of_nil in Hin).
  cbn [Nat.mul]. rewrite seq_app, map_app, visits_app.
  rewrite round_robin_period by done.
  rewrite visits_Some_NoDup;
    [|by rewrite rotate_Permutation|by rewrite rotate_Permutation].
  f_equal. etransitivity; [|apply (IH (i + length l)%nat Hnd Hin)].
  f_equal. cbn [Nat.add].
  replace (seq (length l) (m * length l))
    with (map (Nat.add (length l)) (seq 0 (m * length l))).
  - rewrite List.map_map. apply map_ext. intros n. do 2 f_equal. lia.
  - change (map ?f ?s) with (f <$> s). rewrite fmap_add_seq.
    f_equal. lia.
Qed.

(** X7: on a fixed healthy set of [K] instances, round robin is cyclic and
    even: the [n]-th call returns the instance [n] places further in the
    cycle than the first, and [m * K] calls in a row return every healthy
    instance exactly [m] times. *)
Theorem round_robin_visits_evenly
    (list_of_set : gset string -> list string)
    (lb : LoadBalancer) (c : InstanceCoordinator) (m : nat) (x : string) :
  enumerates list_of_set ->
  x ∈ healthy_instances c ->
  let l := list_of_set (healthy_instances c) in
  (forall k n, (n < k)%nat ->
     fst (round_robin_calls list_of_set k lb c) !! n
     = Some (l !! ((_round_robin_index lb + n) mod length l)%nat)) /\
  visits x (fst (round_robin_calls list_of_set
                   (m * size (healthy_instances c)) lb c))
  = m.
Proof.
  intros Hen Hx l. destruct (Hen (healthy_instances c)) as [Hnd Hin].
  assert (l <> []) as Hne.
  { intros E. apply Hin in Hx. fold l in Hx. rewrite E in Hx.
    by apply elem_of_nil in Hx. }
  split.
  - intros k n Hn. rewrite round_robin_calls_spec by done.
    change (map ?f ?s) with (f <$> s). rewrite list_lookup_fmap.
    by rewrite lookup_seq_lt.
  - rewrite round_robin_calls_spec by done.
    rewrite <- (enumerates_length list_of_set) by done.
    apply round_robin_periods; [done|by apply Hin].
Qed.

Lemma round_robin_visits_evenly_witness :
  visits "a"
    (fst (round_robin_calls elements
            (3 * size (healthy_instances (sample_pool {["a"; "c"]} ∅ ready)))
            (new_balancer "round_robin" 3)
            (sample_pool {["a"; "c"]} ∅ ready)))
  = 3%nat.
Proof.
  refine (proj2 (round_robin_visits_evenly elements
                   (new_balancer "round_robin" 3)
                   (sample_pool {["a"; "c"]} ∅ ready) 3 "a"
                   elements_enumerates _)).
  apply elem_of_by_compute. vm_compute. reflexivity.
Defined.

(** ** The response-time strategy *)

Lemma Qc_ltb_lt a b : Qc_ltb a b = true <-> (a < b)%Qc.
Proof.
  unfold Qc_ltb. rewrite Qclt_alt. by destruct (a ?= b)%Qc.
Qed.

Lemma Qc_ltb_ge a b : Qc_ltb a b = false <-> (b <= a)%Qc.
Proof.
  split.
  - intros H. apply Qcnot_lt_le. intros Hlt. apply Qc_ltb_lt in Hlt. congruence.
  - intros H. destruct (Qc_ltb a b) eqn:E; [|done].
    apply Qc_ltb_lt in E. by apply Qcle_not_lt in H.
Qed.

(** The scan keeps the smallest recorded average met so far, and the first
    instance that has it. *)
Lemma response_time_scan_spec perf (l : list string) :
  forall best_instance best_time,
    (best_time = None -> best_instance = None) ->
    (forall t, best_time = Some t ->
       exists b, best_instance = Some b /\ recorded_average perf b = Some t) ->
    let r := response_time_scan perf l best_instance best_time in
    (r = None <->
     best_time = None /\ forall x, x ∈ l -> recorded_average perf x = None) /\
    (forall id, r = Some id ->
       exists t, recorded_average perf id = Some t /\
                 (forall x tx, x ∈ l -> recorded_average perf x = Some tx ->
                               (t <= tx)%Qc) /\
                 (forall t0, best_time = Some t0 -> (t <= t0)%Qc)).
Proof.
  induction l as [|a l IH]; intros bi bt Hnone Hsome; cbn [response_time_scan].
  - split.
    + split.
      * intros ->. split; [|by intros x Hx; apply elem_of_nil in Hx].
        destruct bt as [t|]; [|done].
        destruct (Hsome t eq_refl) as (b & [=] & _).
      * intros [-> _]. auto.
    + intros id ->. destruct bt as [t|].
      * destruct (Hsome t eq_refl) as (b & [= <-] & Hb).
        exists t. split; [done|]. split.
        -- intros x tx Hx. by apply elem_of_nil in Hx.
        -- intros t0 [= <-]. apply Qcle_refl.
      * by specialize (Hnone eq_refl).
  - fold (recorded_average perf a).
    destruct (lt_inf (recorded_average perf a) bt) eqn:Hlt.
    + destruct (recorded_average perf a) as [v|] eqn:Ha; [|done].
      destruct (IH (Some a) (Some v)) as [I1 I2];
        [done|intros t [= <-]; eauto|].
      split.
      * split; [intros H; apply I1 in H as [[=] _]|].
        intros [_ H]. specialize (H a ltac:(left)). congruence.
      * intros id Hid. destruct (I2 id Hid) as (t & Ht & Hl & Hv).
        exists t. split; [done|]. split.
        -- intros x tx Hx Hrx. apply elem_of_cons in Hx as [->|Hx]; [|eauto].
           rewrite Ha in Hrx. injection Hrx as <-. by apply Hv.
        -- intros t0 ->. simpl in Hlt. apply Qc_ltb_lt in Hlt.
           apply Qcle_trans with v; [by apply Hv|by apply Qclt_le_weak].
    + destruct (IH bi bt Hnone Hsome) as [I1 I2]. split.
      * rewrite I1. split.
        -- intros [-> H]. split; [done|]. intros x Hx.
           apply elem_of_cons in Hx as [->|Hx]; [|auto].
           by destruct (recorded_average perf a).
        -- intros [-> H]. split; [done|]. intros x Hx. apply H. by right.
      * intros id Hid. destruct (I2 id Hid) as (t & Ht & Hl & Hv).
        exists t. split; [done|]. split; [|done].
        intros x tx Hx Hrx. apply elem_of_cons in Hx as [->|Hx]; [|eauto].
        rewrite Hrx in Hlt. destruct bt as [t0|]; [|done]. simpl in Hlt.
        apply Qc_ltb_ge in Hlt.
        apply Qcle_trans with t0; [by apply Hv|done].
Qed.

(** X8: on a non-empty healthy set the response-time strategy returns a
    healthy instance. If some healthy instance has a performance record, the
    one returned has one too and its average is the smallest among them, so
    an instance that was never routed to is passed over; if none has, the
    first instance of the iteration order is returned. *)
Theorem response_time_prefers_recorded_minimum
    (list_of_set : gset string -> list string)
    (lb : LoadBalancer) (c : InstanceCoordinator) :
  enumerates list_of_set ->
  healthy_instances c <> ∅ ->
  "" ∉ healthy_instances c ->
  exists r,
    _response_time_strategy list_of_set lb c = Some r /\
    r ∈ healthy_instances c /\
    ((forall x, x ∈ healthy_instances c ->
                instance_performance lb !! x = None) /\
     head (list_of_set (healthy_instances c)) = Some r
     \/ exists p,
          instance_performance lb !! r = Some p /\
          forall x px, x ∈ healthy_instances c ->
                       instance_performance lb !! x = Some px ->
                       (avg_response_time p <= avg_response_time px)%Qc).
Proof.
  intros Hen Hne Hempty. destruct (Hen (healthy_instances c)) as [_ Hin].
  unfold _response_time_strategy.
  destruct (list_of_set (healthy_instances c)) as [|a l] eqn:E.
  { exfalso. apply Hne. by apply (enumerates_nil list_of_set). }
  destruct (response_time_scan_spec (instance_performance lb) (a :: l)
              None None) as [H1 H2]; [done|done|].
  destruct (response_time_scan _ _ _ _) as [r|] eqn:Hr.
  - assert (r ∈ healthy_instances c) as Hrin.
    { apply response_time_scan_elem in Hr as [Hr|Hr]; [by apply Hin|done]. }
    assert (truthy (Some r) = true) as ->.
    { simpl. destruct (String.eqb_spec r ""); [by subst|done]. }
    exists r. split; [done|]. split; [done|]. right.
    destruct (H2 r eq_refl) as (t & Ht & Hl & _).
    unfold recorded_average in Ht.
    destruct (instance_performance lb !! r) as [p|] eqn:Hp; [|done].
    injection Ht as <-. exists p. split; [done|].
    intros x px Hx Hpx. apply (Hl x); [by apply Hin|].
    unfold recorded_average. by rewrite Hpx.
  - simpl. exists a. split; [done|]. split; [apply Hin; left|].
    left. split; [|done]. intros x Hx.
    destruct H1 as [H1 _]. destruct (H1 eq_refl) as [_ Hall].
    specialize (Hall x ltac:(by apply Hin)). unfold recorded_average in Hall.
    by destruct (instance_performance lb !! x).
Qed.

Lemma response_time_prefers_recorded_minimum_witness :
  exists r,
    _response_time_strategy elements sample_balancer
      (sample_pool {["a"; "c"]} ∅ ready) = Some r.
Proof.
  destruct (response_time_prefers_recorded_minimum elements sample_balancer
              (sample_pool {["a"; "c"]} ∅ ready) elements_enumerates)
    as (r & H & _).
  - intros E. apply (f_equal size) in E. vm_compute in E. discriminate E.
  - intros H. apply (bool_decide_eq_true_2 _) in H. vm_compute in H.
    discriminate H.
  - exists r. exact H.
Defined.

(** ** Routing, continued *)

Lemma select_instance_stats list_of_set strat lb c e :
  routing_stats (snd (_select_instance list_of_set strat lb c e))
  = routing_stats lb /\
  max_retries (snd (_select_instance list_of_set strat lb c e))
  = max_retries lb.
Proof.
  unfold _select_instance, _round_robin_strategy.
  repeat (destruct (String.eqb strat _); [try done|]); try done.
  by destruct (list_of_set _).
Qed.

Lemma route_loop_success
    (list_of_set : gset string -> list string) (entropy : nat -> Entropy)
    (during_sleep : nat -> LoadBalancer * InstanceCoordinator ->
                    LoadBalancer * InstanceCoordinator)
    (clock : nat -> Qc) (attempts : list nat) :
  forall strat request_id size lb c seen id,
    let r := route_loop list_of_set entropy during_sleep clock
               attempts strat request_id size lb c seen in
    returned r = Some id ->
    _validate_instance (coordinator r) id = true /\
    (exists info,
       dict_get (active_requests (balancer r)) request_id = Some info /\
       req_instance_id info = id) /\
    (exists p, instance_performance (balancer r) !! id = Some p /\
               total_requests p <> O).
Proof.
  induction attempts as [|attempt rest IH];
    intros strat request_id size lb c seen id; cbn [route_loop]; [done|].
  destruct (_select_instance list_of_set strat lb c (entropy attempt))
    as [instance_id lb1].
  destruct instance_id as [cand|].
  - destruct (truthy (Some cand)).
    + destruct (_validate_instance c cand) eqn:Hv; cbn [negb].
      * cbn [returned balancer coordinator]. intros [= <-].
        split; [done|]. split.
        -- eexists. split; [apply dict_get_set_eq|done].
        -- eexists. split; [apply lookup_insert_eq|done].
      * destruct (_ <? _); [|done].
        destruct (during_sleep attempt _) as [lb2 c2]. apply IH.
    + destruct (_ <? _); [|done].
      destruct (during_sleep attempt _) as [lb2 c2]. apply IH.
  - destruct (_ <? _); [|done].
    destruct (during_sleep attempt _) as [lb2 c2]. apply IH.
Qed.

(** X9: when [route_request] returns an instance, that instance passed
    validation in the pool as the call leaves it (healthy, registered,
    ready), the request is in the active map bound to it, and the instance
    has a performance record that counts the request. *)
Theorem route_request_success_tracked
    (list_of_set : gset string -> list string) (entropy : nat -> Entropy)
    (during_sleep : nat -> LoadBalancer * InstanceCoordinator ->
                    LoadBalancer * InstanceCoordinator)
    (clock : nat -> Qc)
    (lb : LoadBalancer) (c : InstanceCoordinator)
    (request_id : string) (size : nat) (strategy_override : option string)
    (id : string) :
  let r := route_request list_of_set entropy during_sleep clock
             lb c request_id size strategy_override in
  returned r = Some id ->
  _validate_instance (coordinator r) id = true /\
  (exists info,
     dict_get (active_requests (balancer r)) request_id = Some info /\
     req_instance_id info = id) /\
  (exists p, instance_performance (balancer r) !! id = Some p /\
             total_requests p <> O).
Proof. unfold route_request. apply route_loop_success. Qed.

Lemma route_request_success_tracked_witness :
  _validate_instance
    (coordinator
       (route_request elements
          (fun _ => {| choice := 0; uniform := 0%Qc |})
          (fun _ s => s) (fun _ => 0%Qc)
          (new_balancer "least_busy" 3) (sample_pool {["a"; "c"]} ∅ ready)
          "r1" 0 None)) "c"
  = true.
Proof.
  refine (proj1 (route_request_success_tracked elements
                   (fun _ => {| choice := 0; uniform := 0%Qc |})
                   (fun _ s => s) (fun _ => 0%Qc)
                   (new_balancer "least_busy" 3)
                   (sample_pool {["a"; "c"]} ∅ ready)
                   "r1" 0 None "c" _)).
  vm_compute. reflexivity.
Defined.

Lemma route_loop_stats
    (list_of_set : gset string -> list string) (entropy : nat -> Entropy)
    (during_sleep : nat -> LoadBalancer * InstanceCoordinator ->
                    LoadBalancer * InstanceCoordinator)
    (clock : nat -> Qc) (attempts : list nat) :
  (forall k s, routing_stats (fst (during_sleep k s)) = routing_stats (fst s)) ->
  forall strat request_id size lb c seen,
    let r := route_loop list_of_set entropy during_sleep clock
               attempts strat request_id size lb c seen in
    let s := routing_stats lb in
    let s' := routing_stats (balancer r) in
    rs_total_requests s' = rs_total_requests s /\
    strategy_usage s' = strategy_usage s /\
    (retries s <= retries s' <= retries s + length attempts)%nat /\
    match returned r with
    | Some _ => successful_routes s' = S (successful_routes s) /\
                failed_routes s' = failed_routes s
    | None => successful_routes s' = successful_routes s /\
              failed_routes s' = S (failed_routes s)
    end.
Proof.
  intros Hquiet.
  induction attempts as [|attempt rest IH];
    intros strat request_id size lb c seen; cbn [route_loop].
  { simpl. repeat split; lia. }
  pose proof (select_instance_stats list_of_set strat lb c (entropy attempt))
    as [Hsel _].
  destruct (_select_instance list_of_set strat lb c (entropy attempt))
    as [instance_id lb1]. cbn [snd] in Hsel.
  assert (forall lb0 c0 seen0,
    routing_stats lb0 = routing_stats lb ->
    let r := route_loop list_of_set entropy during_sleep clock
               rest strat request_id size lb0 c0 seen0 in
    rs_total_requests (routing_stats (balancer r))
    = rs_total_requests (routing_stats lb) /\
    strategy_usage (routing_stats (balancer r))
    = strategy_usage (routing_stats lb) /\
    (retries (routing_stats lb) <= retries (routing_stats (balancer r))
     <= retries (routing_stats lb) + length rest)%nat /\
    match returned r with
    | Some _ =>
        successful_routes (routing_stats (balancer r))
        = S (successful_routes (routing_stats lb)) /\
        failed_routes (routing_stats (balancer r))
        = failed_routes (routing_stats lb)
    | None =>
        successful_routes (routing_stats (balancer r))
        = successful_routes (routing_stats lb) /\
        failed_routes (routing_stats (balancer r))
        = S (failed_routes (routing_stats lb))
    end) as Hsame.
  { intros lb0 c0 seen0 H0.
    specialize (IH strat request_id size lb0 c0 seen0). simpl in IH.
    rewrite H0 in IH. exact IH. }
  assert (forall c0 seen0,
    let r := {| returned := None; balancer := bump_failed lb1;
                coordinator := c0; trace := seen0 |} in
    rs_total_requests (routing_stats (balancer r))
    = rs_total_requests (routing_stats lb) /\
    strategy_usage (routing_stats (balancer r))
    = strategy_usage (routing_stats lb) /\
    (retries (routing_stats lb) <= retries (routing_stats (balancer r))
     <= retries (routing_stats lb) + S (length rest))%nat /\
    successful_routes (routing_stats (balancer r))
    = successful_routes (routing_stats lb) /\
    failed_routes (routing_stats (balancer r))
    = S (failed_routes (routing_stats lb))) as Hbreak.
  { intros c0 seen0. simpl. rewrite Hsel. repeat split; lia. }
  assert (forall lb0 c0 seen0,
    routing_stats lb0 = routing_stats lb1 ->
    let r := route_loop list_of_set entropy during_sleep clock
               rest strat request_id size lb0 c0 seen0 in
    rs_total_requests (routing_stats (balancer r))
    = rs_total_requests (routing_stats lb) /\
    strategy_usage (routing_stats (balancer r))
    = strategy_usage (routing_stats lb) /\
    (retries (routing_stats lb) <= retries (routing_stats (balancer r))
     <= retries (routing_stats lb) + S (length rest))%nat /\
    match returned r with
    | Some _ =>
        successful_routes (routing_stats (balancer r))
        = S (successful_routes (routing_stats lb)) /\
        failed_routes (routing_stats (balancer r))
        = failed_routes (routing_stats lb)
    | None =>
        successful_routes (routing_stats (balancer r))
        = successful_routes (routing_stats lb) /\
        failed_routes (routing_stats (balancer r))
        = S (failed_routes (routing_stats lb))
    end) as Hcont.
  { intros lb0 c0 seen0 H0.
    destruct (Hsame lb0 c0 seen0) as (A & B & C & D); [congruence|].
    repeat split; try done; lia. }
  cbn [length].
  destruct instance_id as [cand|].
  - destruct (truthy (Some cand)).
    + destruct (_validate_instance c cand); cbn [negb].
      * simpl. rewrite Hsel. repeat split; lia.
      * destruct (_ <? _); [|apply Hbreak].
        specialize (Hquiet attempt (bump_retries lb1, c)).
        destruct (during_sleep attempt _) as [lb2 c2]. cbn [fst] in Hquiet.
        specialize (IH strat request_id size lb2 c2 (seen ++ [Rejected cand])).
        simpl in IH. rewrite Hquiet in IH. simpl in IH. rewrite Hsel in IH.
        destruct IH as (A & B & C & D). repeat split; try done; lia.
    + destruct (_ <? _); [|apply Hbreak].
      specialize (Hquiet attempt (lb1, c)).
      destruct (during_sleep attempt _) as [lb2 c2]. cbn [fst] in Hquiet.
      apply Hcont. done.
  - destruct (_ <? _); [|apply Hbreak].
    specialize (Hquiet attempt (lb1, c)).
    destruct (during_sleep attempt _) as [lb2 c2]. cbn [fst] in Hquiet.
    apply Hcont. done.
Qed.

(** X10: a call of [route_request] during which no other task writes the
    routing statistics counts one request, one use of the strategy it ran
    with, and exactly one outcome: a success when it returns an instance, a
    failure when it returns none. *)
Theorem route_request_counts_one_outcome
    (list_of_set : gset string -> list string) (entropy : nat -> Entropy)
    (during_sleep : nat -> LoadBalancer * InstanceCoordinator ->
                    LoadBalancer * InstanceCoordinator)
    (clock : nat -> Qc)
    (lb : LoadBalancer) (c : InstanceCoordinator)
    (request_id : string) (size : nat) (strategy_override : option string) :
  (forall k s, routing_stats (fst (during_sleep k s)) = routing_stats (fst s)) ->
  let r := route_request list_of_set entropy during_sleep clock
             lb c request_id size strategy_override in
  let strat := if truthy strategy_override then default "" strategy_override
               else strategy lb in
  let s := routing_stats lb in
  let s' := routing_stats (balancer r) in
  rs_total_requests s' = S (rs_total_requests s) /\
  strategy_usage s' !! strat
  = Some (S (default 0%nat (strategy_usage s !! strat))) /\
  match returned r with
  | Some _ => successful_routes s' = S (successful_routes s) /\
              failed_routes s' = failed_routes s
  | None => successful_routes s' = successful_routes s /\
            failed_routes s' = S (failed_routes s)
  end.
Proof.
  intros Hquiet r strat s s'. subst r s s'. unfold route_request. fold strat.
  destruct (route_loop_stats list_of_set entropy during_sleep clock
              (seq 0 (Z.to_nat (max_retries (count_request lb strat) + 1)))
              Hquiet strat request_id size (count_request lb strat) c [])
    as (A & B & _ & D).
  split; [by rewrite A|]. split.
  - rewrite B. simpl. apply lookup_insert_eq.
  - exact D.
Qed.

Lemma route_request_counts_one_outcome_witness :
  rs_total_requests
    (routing_stats
       (balancer
          (route_request elements
             (fun _ => {| choice := 0; uniform := 0%Qc |})
             (fun _ s => s) (fun _ => 0%Qc)
             (new_balancer "least_busy" 3) (sample_pool ∅ ∅ ready)
             "r1" 0 None)))
  = 1%nat.
Proof.
  refine (proj1 (route_request_counts_one_outcome elements
                   (fun _ => {| choice := 0; uniform := 0%Qc |})
                   (fun _ s => s) (fun _ => 0%Qc)
                   (new_balancer "least_busy" 3) (sample_pool ∅ ∅ ready)
                   "r1" 0 None _)).
  reflexivity.
Defined.

(** ** The health monitor, continued *)

Lemma handle_instance_failure_history s id world :
  instance_health_history (fst (_handle_instance_failure s id world))
  = instance_health_history (fst s).
Proof.
  destruct s as [hm c]. unfold _handle_instance_failure.
  by destruct (bool_decide _).
Qed.

Lemma record_healthy_check_history s id :
  instance_health_history (fst (_record_healthy_check s id))
  = instance_health_history (fst s).
Proof.
  destruct s as [hm c]. unfold _record_healthy_check.
  by destruct (decide _).
Qed.

(** X11: the history of an instance never holds more than 100 results once
    all histories are within that bound, and the result of a probe is the
    last entry of the history of the instance probed. *)
Theorem health_history_bounded
    (s : System) (id : string) (p : ProbeOutcome)
    (world : nat -> CreateOutcome) :
  history_bounded (fst s) ->
  let hm' := fst (_check_instance_health s id p world) in
  history_bounded hm' /\
  exists r, last (default [] (instance_health_history hm' !! id)) = Some r /\
            hc_instance_id r = id /\
            hc_healthy r = negb (probe_failed p).
Proof.
  intros Hb hm'. subst hm'. unfold _check_instance_health.
  set (s1 := match p with ProbeTrue => _ | _ => _ end).
  assert (instance_health_history (fst s1) = instance_health_history (fst s))
    as Hh.
  { subst s1. destruct p;
      [apply record_healthy_check_history
      |apply handle_instance_failure_history ..]. }
  cbn [fst]. unfold _record_health_check.
  cbn [instance_health_history]. rewrite Hh.
  set (old := default [] (instance_health_history (fst s) !! id)).
  set (r := {| hc_instance_id := id; hc_healthy := _; hc_error := _ |}).
  assert (length old <= 100)%nat as Hold.
  { subst old. destruct (instance_health_history (fst s) !! id) eqn:E;
      [by apply (Hb id)|simpl; lia]. }
  assert (let kept := if Nat.ltb 100 (length (old ++ [r]))
                      then last_n 100 (old ++ [r]) else old ++ [r] in
          (length kept <= 100)%nat /\ last kept = Some r) as [Hk1 Hk2].
  { destruct (Nat.ltb_spec 100 (length (old ++ [r]))).
    - cbv zeta. rewrite last_n_length. split; [lia|].
      rewrite last_n_last by lia. apply last_snoc.
    - split; [done|apply last_snoc]. }
  split.
  - intros id' h. cbn [instance_health_history].
    destruct (decide (id = id')) as [<-|Hne].
    + rewrite lookup_insert_eq. by intros [= <-].
    + rewrite lookup_insert_ne by done. apply Hb.
  - exists r. rewrite lookup_insert_eq. split; [exact Hk2|].
    split; [done|]. subst r. by destruct p.
Qed.

Lemma health_history_bounded_witness :
  history_bounded
    (fst (_check_instance_health
            (new_monitor, sample_pool {["a"; "c"]} ∅ ready) "a" ProbeFalse
            (sample_world ["r1"]))).
Proof.
  apply (health_history_bounded
           (new_monitor, sample_pool {["a"; "c"]} ∅ ready) "a" ProbeFalse
           (sample_world ["r1"])).
  intros id h H. simpl in H. by rewrite lookup_empty in H.
Defined.

(** X12: [get_instance_health_history] with a positive [limit] returns the
    most recent results, as many as [limit] when the history has them;
    [limit = 0] returns the whole history; an unknown instance has an empty
    history. *)
Theorem health_history_limit (hm : HealthMonitor) (id : string) (limit : Z) :
  let history := default [] (instance_health_history hm !! id) in
  let result := get_instance_health_history hm id limit in
  (limit = 0 -> result = history) /\
  (0 < limit ->
   length result = Nat.min (Z.to_nat limit) (length history) /\
   exists older, history = older ++ result) /\
  (instance_health_history hm !! id = None -> result = []).
Proof.
  intros history result. subst result. unfold get_instance_health_history.
  fold history. split; [by intros ->|]. split.
  - intros Hpos. destruct (Z.eqb_spec limit 0); [lia|].
    destruct (Z.ltb_spec 0 limit); [|lia].
    split; [apply last_n_length|apply last_n_suffix].
  - intros Hnone. subst history. rewrite Hnone. simpl.
    destruct (limit =? 0); [done|]. destruct (0 <? limit).
    + unfold last_n. by rewrite skipn_nil.
    + by rewrite skipn_nil.
Qed.

Lemma health_history_limit_witness :
  get_instance_health_history
    (fst (_check_instance_health
            (new_monitor, sample_pool {["a"; "c"]} ∅ ready) "a" ProbeFalse
            (sample_world ["r1"]))) "a" 0
  = [{| hc_instance_id := "a"; hc_healthy := false; hc_error := false |}].
Proof.
  refine (proj1 (health_history_limit _ "a" 0) _). reflexivity.
Defined.

Lemma check_replacement_spec c world :
  let c' := _check_replacement_needed c world in
  healthy_instances c ⊆ healthy_instances c' /\
  (forall i, (forall j, uuid (world j) <> i) ->
             i ∈ healthy_instances c' -> i ∈ healthy_instances c) /\
  unhealthy_instances c' = unhealthy_instances c /\
  (within_max c -> within_max c').
Proof.
  unfold _check_replacement_needed. destruct (_ <? _); [|done].
  destruct (replacement_loop_spec
              (Z.to_nat (min_instances c - Z.of_nat (size (healthy_instances c))))
              0 world c) as (H1 & H2 & H3 & _ & _ & H6).
  done.
Qed.

(** What one resolved probe of [j] does to the membership of [i]. *)
Lemma check_instance_health_membership hm c j p world i :
  let c' := snd (_check_instance_health (hm, c) j p world) in
  (j = i -> probe_failed p = false ->
   i ∈ healthy_instances c' /\ (i ∉ unhealthy_instances c')) /\
  (j = i -> probe_failed p = true -> (forall k, uuid (world k) <> i) ->
   (i ∉ healthy_instances c') /\ i ∈ unhealthy_instances c') /\
  (j <> i -> (forall k, uuid (world k) <> i) ->
   (i ∈ healthy_instances c' <-> i ∈ healthy_instances c)) /\
  (j <> i ->
   (i ∈ unhealthy_instances c' <-> i ∈ unhealthy_instances c)) /\
  (within_max c -> within_max c').
Proof.
  unfold _check_instance_health. cbn [snd].
  assert (forall w,
    let c' := snd (_handle_instance_failure (hm, c) j w) in
    (j = i -> (forall k, uuid (w k) <> i) ->
     (i ∉ healthy_instances c') /\ i ∈ unhealthy_instances c') /\
    (j <> i -> (forall k, uuid (w k) <> i) ->
     (i ∈ healthy_instances c' <-> i ∈ healthy_instances c)) /\
    (j <> i ->
     (i ∈ unhealthy_instances c' <-> i ∈ unhealthy_instances c)) /\
    (within_max c -> within_max c')) as Hfail.
  { intros w. unfold _handle_instance_failure.
    set (c1 := with_membership c _ _).
    assert (forall x, x ∈ healthy_instances c1 <->
                      x ∈ healthy_instances c /\ x <> j) as Hh
        by (intros x; simpl; set_solver).
    assert (forall x, x ∈ unhealthy_instances c1 <->
                      x = j \/ x ∈ unhealthy_instances c) as Hu
        by (intros x; simpl; set_solver).
    destruct (check_replacement_spec c1 w) as (R1 & R2 & R3 & R4).
    destruct (bool_decide _); cbn [snd].
    - rewrite R3. repeat split.
      + intros Hin. apply R2 in Hin; [|done]. apply Hh in Hin as [_ ?]. done.
      + apply Hu. by left.
      + intros Hin. apply R2 in Hin; [|done]. by apply Hh in Hin as [? _].
      + intros Hin. apply R1, Hh. done.
      + rewrite Hu. intros [?|?]; [congruence|done].
      + intros ?. apply Hu. by right.
      + done.
    - repeat split.
      + rewrite Hh. intros [_ ?]. done.
      + apply Hu. by left.
      + rewrite Hh. by intros [? _].
      + intros ?. by apply Hh.
      + rewrite Hu. intros [?|?]; [congruence|done].
      + intros ?. apply Hu. by right.
      + done. }
  destruct p; cbn [probe_failed].
  - split; [intros -> _; simpl; split; set_solver|].
    split; [intros _ [=]|].
    split; [intros Hne _; simpl; set_solver|].
    split; [intros Hne; simpl; set_solver|done].
  - destruct (Hfail world) as (F1 & F2 & F3 & F4).
    split; [intros _ [=]|]. split; [intros ? _ ?; by apply F1|]. done.
  - destruct (Hfail world) as (F1 & F2 & F3 & F4).
    split; [intros _ [=]|]. split; [intros ? _ ?; by apply F1|]. done.
  - destruct (Hfail world) as (F1 & F2 & F3 & F4).
    split; [intros _ [=]|]. split; [intros ? _ ?; by apply F1|]. done.
Qed.

Lemma monitor_run_untouched i (evs : list ProbeEvent) : forall s,
  Forall (fresh_for i) evs ->
  last_probe i evs = None ->
  (i ∈ healthy_instances (snd (monitor_run s evs))
   <-> i ∈ healthy_instances (snd s)) /\
  (i ∈ unhealthy_instances (snd (monitor_run s evs))
   <-> i ∈ unhealthy_instances (snd s)).
Proof.
  induction evs as [|[[j p] world] evs IH]; intros [hm c] Hfresh Hlast;
    [done|].
  apply Forall_cons in Hfresh as [Hf Hfresh]. cbn [last_probe] in Hlast.
  destruct (last_probe i evs) eqn:El; [done|].
  destruct (String.eqb_spec j i) as [->|Hne]; [done|].
  cbn [monitor_run].
  destruct (check_instance_health_membership hm c j p world i)
    as (_ & _ & H3 & H4 & _).
  destruct (_check_instance_health (hm, c) j p world) as [hm1 c1].
  destruct (IH (hm1, c1) Hfresh eq_refl) as [I1 I2]. cbn [snd] in *.
  rewrite I1, I2. split; [by apply H3|by apply H4].
Qed.

(** X13: after a run of resolved probes the membership of an instance is
    what its last probe says: in the healthy set and not in the unhealthy
    one when that probe succeeded, the other way round when it failed
    (replacement ids being fresh). It is never in both, never in
    neither. *)
Theorem membership_follows_last_probe
    (s : System) (i : string) (evs : list ProbeEvent) (p : ProbeOutcome) :
  Forall (fresh_for i) evs ->
  last_probe i evs = Some p ->
  let c' := snd (monitor_run s evs) in
  if probe_failed p
  then i ∈ unhealthy_instances c' /\ (i ∉ healthy_instances c')
  else i ∈ healthy_instances c' /\ (i ∉ unhealthy_instances c').
Proof.
  revert s. induction evs as [|[[j q] world] evs IH];
    intros [hm c] Hfresh Hlast; [done|].
  apply Forall_cons in Hfresh as [Hf Hfresh]. cbn [last_probe] in Hlast.
  cbn [monitor_run].
  destruct (last_probe i evs) as [q'|] eqn:El.
  - injection Hlast as ->. by apply IH.
  - destruct (String.eqb_spec j i) as [->|Hne]; [|done].
    injection Hlast as ->.
    destruct (check_instance_health_membership hm c i p world i)
      as (H1 & H2 & _).
    destruct (_check_instance_health (hm, c) i p world) as [hm1 c1].
    destruct (monitor_run_untouched i evs (hm1, c1) Hfresh El) as [U1 U2].
    cbn [snd] in *. cbv zeta.
    destruct (probe_failed p) eqn:Ep; rewrite U1, U2.
    + destruct (H2 eq_refl eq_refl Hf). done.
    + destruct (H1 eq_refl eq_refl). done.
Qed.

Lemma membership_follows_last_probe_witness :
  "a" ∈ unhealthy_instances
          (snd (monitor_run (new_monitor, sample_pool {["a"; "c"]} ∅ ready)
                  [("a", ProbeTrue, sample_world []);
                   ("c", ProbeTrue, sample_world []);
                   ("a", ProbeTimeout, sample_world ["r2"])])).
Proof.
  apply (membership_follows_last_probe
           (new_monitor, sample_pool {["a"; "c"]} ∅ ready) "a"
           [("a", ProbeTrue, sample_world []);
            ("c", ProbeTrue, sample_world []);
            ("a", ProbeTimeout, sample_world ["r2"])] ProbeTimeout).
  - repeat apply Forall_cons_2; try apply Forall_nil_2;
      intros k; apply sample_world_fresh; try discriminate;
      intros H; apply list_elem_of_In in H; simpl in H;
      repeat (destruct H as [H|H]; [discriminate H|]); exact H.
  - reflexivity.
Defined.

(** What one resolved probe of [j] does to the recovery alerts and to the
    unhealthy membership of [i]. *)
Lemma check_instance_health_recovery hm c j p world i :
  let s' := _check_instance_health (hm, c) j p world in
  recovered_alerts (fst s') i
  = (recovered_alerts hm i
     + if bool_decide (j = i) && negb (probe_failed p)
          && bool_decide (i ∈ unhealthy_instances c) then 1 else 0)%nat.
Proof.
  unfold _check_instance_health. cbn [fst].
  change (recovered_alerts (_record_health_check ?h _ _) i)
    with (recovered_alerts h i).
  destruct p; cbn [probe_failed negb].
  - unfold _record_healthy_check.
    destruct (decide (j ∈ unhealthy_instances c)) as [Hj|Hj]; cbn [fst].
    + unfold recovered_alerts, _trigger_alert. cbn [alerts].
      rewrite List.filter_app, length_app. cbn [List.filter alert_type
        alert_instance AlertType_eqb andb].
      destruct (bool_decide_reflect (j = i)) as [->|Hne].
      * rewrite (bool_decide_eq_true_2 (Some i = Some i)) by done.
        rewrite (bool_decide_eq_true_2 (i ∈ unhealthy_instances c)) by done.
        done.
      * rewrite (bool_decide_eq_false_2 (Some j = Some i)) by congruence.
        done.
    + destruct (bool_decide_reflect (j = i)) as [->|Hne]; simpl; [|lia].
      rewrite (bool_decide_eq_false_2 (i ∈ unhealthy_instances c)) by done.
      lia.
  - rewrite andb_false_r. simpl.
    unfold _handle_instance_failure. destruct (bool_decide _); cbn [fst];
      [|lia].
    unfold recovered_alerts, _trigger_alert. cbn [alerts].
    rewrite List.filter_app, length_app. simpl. lia.
  - rewrite andb_false_r. simpl.
    unfold _handle_instance_failure. destruct (bool_decide _); cbn [fst];
      [|lia].
    unfold recovered_alerts, _trigger_alert. cbn [alerts].
    rewrite List.filter_app, length_app. simpl. lia.
  - rewrite andb_false_r. simpl.
    unfold _handle_instance_failure. destruct (bool_decide _); cbn [fst];
      [|lia].
    unfold recovered_alerts, _trigger_alert. cbn [alerts].
    rewrite List.filter_app, length_app. simpl. lia.
Qed.

Lemma no_recovery_while_healthy i (evs : list ProbeEvent) : forall s,
  i ∉ unhealthy_instances (snd s) ->
  Forall (fun ev => ev.1.1 = i -> probe_failed ev.1.2 = false) evs ->
  recovered_alerts (fst (monitor_run s evs)) i = recovered_alerts (fst s) i.
Proof.
  induction evs as [|[[j p] world] evs IH]; intros [hm c] Hni Hall; [done|].
  apply Forall_cons in Hall as [Hp Hall]. cbn [monitor_run]. simpl in Hp.
  pose proof (check_instance_health_recovery hm c j p world i) as H1.
  destruct (check_instance_health_membership hm c j p world i)
    as (M1 & _ & _ & M4 & _).
  destruct (_check_instance_health (hm, c) j p world) as [hm1 c1].
  cbn [fst snd] in *. rewrite IH; [| |done].
  - cbn [fst]. rewrite H1.
    rewrite (bool_decide_eq_false_2 (i ∈ unhealthy_instances c)) by done.
    rewrite andb_false_r. lia.
  - cbn [snd]. destruct (decide (j = i)) as [Hji|Hji].
    + by destruct (M1 Hji (Hp Hji)).
    + by rewrite M4.
Qed.

(** X15: [instance_recovered] fires once per unhealthy-to-healthy edge:
    from a state where [i] is unhealthy, over a run in which [i] is probed
    at least once and all its probes succeed, exactly one
    [instance_recovered] alert is fired for [i]. *)
Theorem instance_recovered_once_per_edge
    (s : System) (i : string) (evs : list ProbeEvent) :
  i ∈ unhealthy_instances (snd s) ->
  Exists (fun ev => ev.1.1 = i) evs ->
  Forall (fun ev => ev.1.1 = i -> probe_failed ev.1.2 = false) evs ->
  recovered_alerts (fst (monitor_run s evs)) i
  = S (recovered_alerts (fst s) i).
Proof.
  revert s. induction evs as [|[[j p] world] evs IH];
    intros [hm c] Hin Hex Hall; [by apply Exists_nil in Hex|].
  apply Forall_cons in Hall as [Hp Hall]. cbn [monitor_run]. simpl in Hp.
  pose proof (check_instance_health_recovery hm c j p world i) as H1.
  destruct (check_instance_health_membership hm c j p world i)
    as (M1 & _ & _ & M4 & _).
  destruct (_check_instance_health (hm, c) j p world) as [hm1 c1].
  cbn [fst snd] in *.
  destruct (decide (j = i)) as [Hji|Hji].
  - rewrite no_recovery_while_healthy; [| |done].
    + cbn [fst]. rewrite H1, (Hp Hji).
      rewrite !bool_decide_eq_true_2 by done. simpl. lia.
    + cbn [snd]. by destruct (M1 Hji (Hp Hji)).
  - apply Exists_cons in Hex as [Hex|Hex]; [done|].
    rewrite IH; [| |done|done].
    + cbn [fst]. rewrite H1. rewrite (bool_decide_eq_false_2 (j = i)) by done.
      simpl. lia.
    + cbn [snd]. by apply M4.
Qed.

Lemma instance_recovered_once_per_edge_witness :
  recovered_alerts
    (fst (monitor_run (new_monitor, sample_pool {["a"]} {["c"]} ready)
            [("c", ProbeTrue, sample_world []);
             ("a", ProbeTrue, sample_world []);
             ("c", ProbeTrue, sample_world [])])) "c"
  = 1%nat.
Proof.
  apply (instance_recovered_once_per_edge
           (new_monitor, sample_pool {["a"]} {["c"]} ready) "c").
  - apply elem_of_by_compute. vm_compute. reflexivity.
  - left. reflexivity.
  - repeat apply Forall_cons_2; try apply Forall_nil_2; reflexivity.
Defined.

Lemma alerts_of_type_trigger hm a t :
  alerts_of_type (_trigger_alert hm a) t
  = (alerts_of_type hm t
     + if AlertType_eqb (alert_type a) t then 1 else 0)%nat.
Proof.
  unfold alerts_of_type, _trigger_alert. cbn [alerts].
  rewrite List.filter_app, length_app. simpl.
  by destruct (AlertType_eqb _ _).
Qed.

(** The counters of the monitor move with the alerts. *)
Lemma check_instance_health_counters hm c j p world :
  let hm' := fst (_check_instance_health (hm, c) j p world) in
  (instances_failed hm' + alerts_of_type hm instance_failed
   = instances_failed hm + alerts_of_type hm' instance_failed)%nat /\
  (instances_recovered hm' + alerts_of_type hm instance_recovered
   = instances_recovered hm + alerts_of_type hm' instance_recovered)%nat /\
  (failed_health_checks hm' + instances_failed hm
   = failed_health_checks hm + instances_failed hm')%nat /\
  (forall t, t <> instance_failed -> t <> instance_recovered ->
             alerts_of_type hm' t = alerts_of_type hm t).
Proof.
  unfold _check_instance_health. cbn [fst].
  change (alerts_of_type (_record_health_check ?h _ _)) with (alerts_of_type h).
  change (instances_failed (_record_health_check ?h _ _))
    with (instances_failed h).
  change (instances_recovered (_record_health_check ?h _ _))
    with (instances_recovered h).
  change (failed_health_checks (_record_health_check ?h _ _))
    with (failed_health_checks h).
  assert (forall w,
    let hm' := fst (_handle_instance_failure (hm, c) j w) in
    (instances_failed hm' + alerts_of_type hm instance_failed
     = instances_failed hm + alerts_of_type hm' instance_failed)%nat /\
    (instances_recovered hm' + alerts_of_type hm instance_recovered
     = instances_recovered hm + alerts_of_type hm' instance_recovered)%nat /\
    (failed_health_checks hm' + instances_failed hm
     = failed_health_checks hm + instances_failed hm')%nat /\
    (forall t, t <> instance_failed -> t <> instance_recovered ->
               alerts_of_type hm' t = alerts_of_type hm t)) as Hfail.
  { intros w. unfold _handle_instance_failure.
    destruct (bool_decide _); cbn [fst]; [|repeat split; lia].
    rewrite !alerts_of_type_trigger. cbn [alert_type AlertType_eqb].
    unfold alerts_of_type. cbn [alerts _trigger_alert instances_failed
      instances_recovered failed_health_checks].
    split; [lia|]. split; [lia|]. split; [lia|].
    intros t Ht _. rewrite List.filter_app, length_app. simpl.
    destruct t; simpl; try lia. done. }
  destruct p; try apply Hfail.
  unfold _record_healthy_check.
  destruct (decide _); cbn [fst]; [|repeat split; lia].
  rewrite !alerts_of_type_trigger. cbn [alert_type AlertType_eqb].
  unfold alerts_of_type. cbn [alerts _trigger_alert instances_failed
    instances_recovered failed_health_checks].
  split; [lia|]. split; [lia|]. split; [lia|].
  intros t _ Ht. rewrite List.filter_app, length_app. simpl.
  destruct t; simpl; try lia. done.
Qed.

(** X16: the metrics of the monitor agree with the alerts it fired: over
    any run from a fresh monitor, [instances_failed] is the number of
    [instance_failed] alerts, [instances_recovered] the number of
    [instance_recovered] alerts, [failed_health_checks] equals
    [instances_failed] (a failed probe of an instance that is already
    unhealthy is not counted), and probes fire no alert of another type. *)
Theorem monitor_counters_match_alerts
    (c : InstanceCoordinator) (evs : list ProbeEvent) :
  let hm := fst (monitor_run (new_monitor, c) evs) in
  instances_failed hm = alerts_of_type hm instance_failed /\
  instances_recovered hm = alerts_of_type hm instance_recovered /\
  failed_health_checks hm = instances_failed hm /\
  length (alerts hm) = (instances_failed hm + instances_recovered hm)%nat.
Proof.
  assert (forall evs s,
    let hm := fst s in
    let hm' := fst (monitor_run s evs) in
    (instances_failed hm' + alerts_of_type hm instance_failed
     = instances_failed hm + alerts_of_type hm' instance_failed)%nat /\
    (instances_recovered hm' + alerts_of_type hm instance_recovered
     = instances_recovered hm + alerts_of_type hm' instance_recovered)%nat /\
    (failed_health_checks hm' + instances_failed hm
     = failed_health_checks hm + instances_failed hm')%nat /\
    (forall t, t <> instance_failed -> t <> instance_recovered ->
               alerts_of_type hm' t = alerts_of_type hm t)) as Hrun.
  { clear. induction evs as [|[[j p] world] evs IH]; intros [hm c].
    - simpl. repeat split; lia.
    - cbn [monitor_run].
      pose proof (check_instance_health_counters hm c j p world) as H.
      destruct (_check_instance_health (hm, c) j p world) as [hm1 c1].
      specialize (IH (hm1, c1)). cbn [fst] in *.
      destruct H as (A1 & A2 & A3 & A4). destruct IH as (B1 & B2 & B3 & B4).
      split; [lia|]. split; [lia|]. split; [lia|].
      intros t H1 H2. rewrite B4, A4; done. }
  intros hm. subst hm.
  destruct (Hrun evs (new_monitor, c)) as (A1 & A2 & A3 & A4).
  cbn [fst] in *.
  set (hm := fst (monitor_run (new_monitor, c) evs)) in *.
  change (alerts_of_type new_monitor _) with 0%nat in *.
  change (instances_failed new_monitor) with 0%nat in *.
  change (instances_recovered new_monitor) with 0%nat in *.
  change (failed_health_checks new_monitor) with 0%nat in *.
  split; [lia|]. split; [lia|]. split; [lia|].
  assert (forall l : list Alert,
    length l
    = (length (List.filter (fun a => AlertType_eqb (alert_type a)
                                       instance_failed) l)
       + length (List.filter (fun a => AlertType_eqb (alert_type a)
                                         instance_recovered) l)
       + length (List.filter (fun a => AlertType_eqb (alert_type a)
                                         high_failure_rate) l)
       + length (List.filter (fun a => AlertType_eqb (alert_type a)
                                         high_response_time) l)
       + length (List.filter (fun a => AlertType_eqb (alert_type a)
                                         no_healthy_instances) l))%nat)
    as Hsplit.
  { induction l as [|a l IHl]; [done|]. simpl.
    destruct (alert_type a); simpl; lia. }
  rewrite (Hsplit (alerts hm)).
  fold (alerts_of_type hm instance_failed).
  fold (alerts_of_type hm instance_recovered).
  fold (alerts_of_type hm high_failure_rate).
  fold (alerts_of_type hm high_response_time).
  fold (alerts_of_type hm no_healthy_instances).
  rewrite (A4 high_failure_rate), (A4 high_response_time),
    (A4 no_healthy_instances) by done.
  change (alerts_of_type new_monitor _) with 0%nat. lia.
Qed.

(** ** The pool: creation, replacement, clean-up *)

Lemma create_instance_success c o :
  Z.of_nat (length (browser_manager c)) < max_instances c ->
  launches o -> uuid o <> "" ->
  fst (create_instance c o) = Some (uuid o) /\
  healthy_instances (snd (create_instance c o))
  = {[uuid o]} ∪ healthy_instances c /\
  (length (browser_manager (snd (create_instance c o)))
   <= S (length (browser_manager c)))%nat /\
  min_instances (snd (create_instance c o)) = min_instances c /\
  max_instances (snd (create_instance c o)) = max_instances c.
Proof.
  intros Hroom Hl Hne. unfold create_instance.
  destruct (Z.geb_spec (Z.of_nat (length (browser_manager c)))
                       (max_instances c)); [lia|].
  unfold register_created, browser_manager.create_instance.
  unfold launches in Hl.
  destruct (browser_manager.initialize (new_instance (uuid o)) (launch o))
    as [inst success]. cbn [snd] in Hl. subst success.
  cbn [truthy]. destruct (String.eqb_spec (uuid o) ""); [done|].
  cbn [negb fst snd healthy_instances with_pool browser_manager
       min_instances max_instances].
  repeat split. rewrite dict_set_length. destruct (dict_mem _ _); lia.
Qed.

Lemma replacement_loop_fills (n : nat) : forall k world c,
  Z.of_nat (length (browser_manager c)) + Z.of_nat n <= max_instances c ->
  (forall j, (j < n)%nat ->
     launches (world (k + j)%nat) /\ uuid (world (k + j)%nat) <> "" /\
     (uuid (world (k + j)%nat) ∉ healthy_instances c) /\
     forall j', (j' < j)%nat ->
       uuid (world (k + j')%nat) <> uuid (world (k + j)%nat)) ->
  size (healthy_instances (replacement_loop n k world c))
  = (size (healthy_instances c) + n)%nat.
Proof.
  induction n as [|n IH]; intros k world c Hroom Hw; cbn [replacement_loop];
    [lia|].
  destruct (Hw 0%nat ltac:(lia)) as (Hl & Hne & Hni & _).
  rewrite Nat.add_0_r in Hl, Hne, Hni.
  destruct (create_instance_success c (world k)) as (_ & Hh & Hlen & Hmin & Hmax);
    [lia|done|done|].
  rewrite IH.
  - rewrite Hh, size_union by set_solver. rewrite size_singleton. lia.
  - rewrite Hmax. lia.
  - intros j Hj. destruct (Hw (S j) ltac:(lia)) as (Hl' & Hne' & Hni' & Hd).
    replace (S k + j)%nat with (k + S j)%nat by lia.
    split; [done|]. split; [done|]. split.
    + rewrite Hh. intros Hin. apply elem_of_union in Hin as [Hin|Hin]; [|done].
      apply elem_of_singleton in Hin.
      apply (Hd 0%nat); [lia|]. by rewrite Nat.add_0_r.
    + intros j' Hj'. replace (S k + j')%nat with (k + S j')%nat by lia.
      apply Hd. lia.
Qed.

(** X17: the replacement request closes the gap: when the pool has room
    for the missing instances under [max_instances] and every launch
    succeeds with a fresh id, the healthy set has [min_instances] members
    afterwards (and is left alone when it already had that many). *)
Theorem replacement_closes_gap
    (c : InstanceCoordinator) (world : nat -> CreateOutcome) :
  let gap :=
    Z.to_nat (min_instances c - Z.of_nat (size (healthy_instances c))) in
  Z.of_nat (length (browser_manager c)) + Z.of_nat gap <= max_instances c ->
  (forall j, (j < gap)%nat ->
     launches (world j) /\ uuid (world j) <> "" /\
     (uuid (world j) ∉ healthy_instances c) /\
     forall j', (j' < j)%nat -> uuid (world j') <> uuid (world j)) ->
  Z.of_nat (size (healthy_instances (_check_replacement_needed c world)))
  = Z.max (min_instances c) (Z.of_nat (size (healthy_instances c))).
Proof.
  intros gap Hroom Hw. unfold _check_replacement_needed.
  destruct (Z.ltb_spec (Z.of_nat (size (healthy_instances c)))
                       (min_instances c)); [|lia].
  fold gap. rewrite (replacement_loop_fills gap 0 world c Hroom Hw).
  subst gap. lia.
Qed.

Lemma replacement_closes_gap_witness :
  Z.of_nat
    (size (healthy_instances
             (_check_replacement_needed (sample_pool ∅ {["a"; "c"]} failed)
                (sample_world ["r1"]))))
  = Z.max (min_instances (sample_pool ∅ {["a"; "c"]} failed))
          (Z.of_nat (size (healthy_instances
                             (sample_pool ∅ {["a"; "c"]} failed)))).
Proof.
  apply (replacement_closes_gap (sample_pool ∅ {["a"; "c"]} failed)
           (sample_world ["r1"])).
  - vm_compute. discriminate.
  - intros j Hj. assert (j = 0%nat) as -> by (vm_compute in Hj; lia).
    split; [reflexivity|]. split; [discriminate|]. split.
    + simpl. set_solver.
    + intros j' Hj'. lia.
Defined.

Lemma dict_set_Forall {V} (P : string * V -> Prop) (d : dict V) k v :
  Forall P d -> P (k, v) -> Forall P (dict_set d k v).
Proof.
  intros Hd Hk. induction d as [|[k0 v0] r IH]; simpl.
  - by apply Forall_cons_2.
  - apply Forall_cons in Hd as [H0 Hd].
    destruct (String.eqb_spec k0 k) as [->|Hne].
    + by apply Forall_cons_2.
    + apply Forall_cons_2; auto.
Qed.

Lemma dict_del_Forall {V} (P : string * V -> Prop) (d : dict V) k :
  Forall P d -> Forall P (dict_del d k).
Proof.
  intros Hd. induction d as [|[k0 v0] r IH]; simpl; [done|].
  apply Forall_cons in Hd as [H0 Hd].
  destruct (String.eqb k0 k); [done|]. apply Forall_cons_2; auto.
Qed.

Lemma bm_create_ready bm o :
  registry_ready bm ->
  registry_ready (snd (browser_manager.create_instance bm o)).
Proof.
  intros Hr. unfold browser_manager.create_instance.
  destruct (browser_manager.initialize _ _) as [inst success] eqn:E.
  destruct success; [|done]. cbn [snd].
  apply dict_set_Forall; [done|]. by apply initialize_success_ready in E.
Qed.

Lemma register_created_ready c o :
  registry_ready (browser_manager c) ->
  registry_ready (browser_manager (snd (register_created c o))).
Proof.
  intros Hr. unfold register_created.
  pose proof (bm_create_ready (browser_manager c) o Hr) as H.
  destruct (browser_manager.create_instance _ _) as [r bm].
  by destruct (truthy r).
Qed.

Lemma dict_get_Forall {V} (P : string * V -> Prop) (d : dict V) k v :
  Forall P d -> dict_get d k = Some v -> P (k, v).
Proof.
  intros Hd Hg. apply dict_get_Some_elem in Hg.
  rewrite Forall_forall in Hd. by apply Hd.
Qed.

(** X18: every instance the browser manager registers reports [ready],
    whether its launch took the regular path or the fallback one; creation,
    removal and the initial pool creation keep the registry so, and then
    validation accepts exactly the healthy registered instances. *)
Theorem registry_stays_ready (c : InstanceCoordinator) :
  registry_ready (browser_manager c) ->
  (forall o, registry_ready (browser_manager (snd (create_instance c o)))) /\
  (forall id, registry_ready (browser_manager (snd (remove_instance c id)))) /\
  (forall world,
     registry_ready (browser_manager (snd (initialize c world)))) /\
  (forall id, _validate_instance c id = true <->
              id ∈ healthy_instances c /\
              dict_mem (browser_manager c) id = true).
Proof.
  intros Hr. split; [|split; [|split]].
  - intros o. unfold create_instance. destruct (_ >=? _); [done|].
    by apply register_created_ready.
  - intros id. unfold remove_instance, browser_manager.remove_instance.
    destruct (_ <=? _); [done|]. destruct (dict_mem _ _); [|done].
    cbn [snd browser_manager with_pool]. by apply dict_del_Forall.
  - intros world. unfold initialize. cbn [snd].
    generalize (Z.to_nat (initial_count c)) 0%nat. intros n. revert c Hr.
    induction n as [|n IH]; intros c Hr k; [done|].
    cbn [initialize_loop]. apply IH. by apply register_created_ready.
  - intros id. unfold _validate_instance, dict_mem, get_instance.
    destruct (bool_decide_reflect (id ∈ healthy_instances c)) as [Hin|Hin];
      cbn [negb]; [|split; [discriminate|by intros [? _]]].
    destruct (dict_get (browser_manager c) id) as [inst|] eqn:E;
      [|split; [discriminate|by intros [_ ?]]].
    pose proof (dict_get_Forall _ _ _ _ Hr E) as Hs. cbn [snd] in Hs.
    rewrite Hs. done.
Qed.

Lemma registry_stays_ready_witness :
  _validate_instance (sample_pool {["a"; "c"]} ∅ ready) "c" = true.
Proof.
  apply (registry_stays_ready (sample_pool {["a"; "c"]} ∅ ready)).
  - repeat apply Forall_cons_2; try apply Forall_nil_2; reflexivity.
  - split; [apply elem_of_by_compute; vm_compute; reflexivity|reflexivity].
Defined.

(** X19: [cleanup_all] leaves no instance in the registry. *)
Theorem cleanup_all_empties_registry (bm : BrowserManager) :
  cleanup_all bm = [].
Proof.
  unfold cleanup_all. induction bm as [|[k v] r IH]; [done|].
  cbn [dict_keys map fst cleanup_loop].
  unfold browser_manager.remove_instance, dict_mem. cbn [dict_get].
  rewrite String.eqb_refl. cbn [snd dict_del]. rewrite String.eqb_refl.
  exact IH.
Qed.

(** ** The coordinator's health check *)

Lemma dict_mem_keys {V} (d : dict V) (k : string) :
  dict_mem d k = true <-> k ∈ dict_keys d.
Proof.
  unfold dict_mem. destruct (dict_get d k) eqn:E.
  - split; [intros _|done].
    destruct (decide (k ∈ dict_keys d)) as [|Hn]; [done|].
    apply dict_get_None in Hn. congruence.
  - apply dict_get_None in E. split; [discriminate|done].
Qed.

Lemma dict_mem_set {V} (d : dict V) (k k' : string) (v : V) :
  dict_mem (dict_set d k v) k' = String.eqb k k' || dict_mem d k'.
Proof.
  unfold dict_mem. destruct (String.eqb_spec k k') as [->|Hne].
  - by rewrite dict_get_set_eq.
  - by rewrite dict_get_set_ne.
Qed.

Lemma dict_mem_del_ne {V} (d : dict V) (k k' : string) :
  k <> k' -> dict_mem (dict_del d k) k' = dict_mem d k'.
Proof. intros Hne. unfold dict_mem. by rewrite dict_get_del_ne. Qed.

Lemma dict_mem_del_eq {V} (d : dict V) (k : string) :
  dict_wf d -> dict_mem (dict_del d k) k = false.
Proof.
  intros Hwf. destruct (dict_mem (dict_del d k) k) eqn:E; [|done].
  exfalso. apply dict_mem_keys in E. revert Hwf E. unfold dict_wf.
  induction d as [|[k0 v0] r IH]; simpl; [intros _ H; by apply elem_of_nil in H|].
  intros Hnd. apply NoDup_cons in Hnd as [Hk Hnd].
  destruct (String.eqb_spec k0 k) as [->|Hne]; simpl; [done|].
  rewrite elem_of_cons. intros [->|H]; [done|]. by apply IH.
Qed.

Lemma remove_instance_cases c id :
  snd (remove_instance c id) = c \/
  min_instances c < Z.of_nat (size (healthy_instances c)) /\
  dict_mem (browser_manager c) id = true /\
  snd (remove_instance c id)
  = with_pool c (dict_del (browser_manager c) id)
      (healthy_instances c ∖ {[id]}) (unhealthy_instances c ∖ {[id]})
      (delete id (instance_metrics c)).
Proof.
  unfold remove_instance, browser_manager.remove_instance.
  destruct (Z.leb_spec (Z.of_nat (size (healthy_instances c)))
                       (min_instances c)); [by left|].
  destruct (dict_mem (browser_manager c) id); [|by left].
  right. by cbn [snd].
Qed.

Lemma create_instance_cases c o :
  snd (create_instance c o) = c \/
  Z.of_nat (length (browser_manager c)) < max_instances c /\
  exists inst m,
    snd (create_instance c o)
    = with_pool c (dict_set (browser_manager c) (uuid o) inst)
        (if String.eqb (uuid o) "" then healthy_instances c
         else {[uuid o]} ∪ healthy_instances c)
        (unhealthy_instances c) m.
Proof.
  unfold create_instance.
  destruct (Z.geb_spec (Z.of_nat (length (browser_manager c)))
                       (max_instances c)); [by left|].
  unfold register_created, browser_manager.create_instance.
  destruct (browser_manager.initialize _ _) as [inst success].
  destruct success.
  - right. split; [lia|]. exists inst. cbn [truthy].
    destruct (String.eqb (uuid o) ""); cbn [negb snd]; eauto.
  - left. cbn [truthy snd]. by destruct c.
Qed.

Lemma mark_instance_bounds c id o :
  min_instances (mark_instance c id o) = min_instances c /\
  max_instances (mark_instance c id o) = max_instances c /\
  dict_keys (browser_manager (mark_instance c id o))
  = dict_keys (browser_manager c).
Proof.
  unfold mark_instance, get_instance.
  destruct (dict_get (browser_manager c) id) as [inst|] eqn:E; [|done].
  destruct (health_check inst o) as [inst' ok].
  assert (dict_keys (dict_set (browser_manager c) id inst')
          = dict_keys (browser_manager c)) as Hk.
  { rewrite dict_set_keys. unfold dict_mem. by rewrite E. }
  by destruct ok.
Qed.

Lemma mark_instance_other c id o id' :
  id <> id' ->
  get_instance (browser_manager (mark_instance c id o)) id'
  = get_instance (browser_manager c) id' /\
  (id' ∈ healthy_instances (mark_instance c id o)
   <-> id' ∈ healthy_instances c) /\
  (id' ∈ unhealthy_instances (mark_instance c id o)
   <-> id' ∈ unhealthy_instances c).
Proof.
  intros Hne. unfold mark_instance, get_instance.
  destruct (dict_get (browser_manager c) id) as [inst|] eqn:E; [|done].
  destruct (health_check inst o) as [inst' ok].
  destruct ok; cbn [browser_manager healthy_instances unhealthy_instances
                    with_pool];
    (split; [by apply dict_get_set_ne|set_solver]).
Qed.

Lemma mark_instance_self c id o b :
  probe_answer c id o = Some b ->
  (id ∈ healthy_instances (mark_instance c id o) <-> b = true) /\
  (id ∈ unhealthy_instances (mark_instance c id o) <-> b = false).
Proof.
  unfold probe_answer, mark_instance.
  destruct (get_instance (browser_manager c) id) as [inst|]; [|done].
  cbn [fmap option_fmap option_map].
  destruct (health_check inst o) as [inst' ok]. cbn [snd].
  intros [= <-].
  destruct ok; cbn [healthy_instances unhealthy_instances with_pool];
    set_solver.
Qed.

Lemma mark_instance_unregistered c id o :
  probe_answer c id o = None -> mark_instance c id o = c.
Proof.
  unfold probe_answer, mark_instance.
  by destruct (get_instance (browser_manager c) id).
Qed.

Lemma health_check_loop_spec (probe : string -> HealthOutcome)
    (ids : list string) : forall c,
  NoDup ids ->
  let c1 := health_check_loop ids probe c in
  min_instances c1 = min_instances c /\
  max_instances c1 = max_instances c /\
  dict_keys (browser_manager c1) = dict_keys (browser_manager c) /\
  forall id,
    match probe_answer c id (probe id) with
    | Some b =>
        if bool_decide (id ∈ ids)
        then (id ∈ healthy_instances c1 <-> b = true) /\
             (id ∈ unhealthy_instances c1 <-> b = false)
        else (id ∈ healthy_instances c1 <-> id ∈ healthy_instances c) /\
             (id ∈ unhealthy_instances c1 <-> id ∈ unhealthy_instances c)
    | None =>
        (id ∈ healthy_instances c1 <-> id ∈ healthy_instances c) /\
        (id ∈ unhealthy_instances c1 <-> id ∈ unhealthy_instances c)
    end.
Proof.
  induction ids as [|x ids IH]; intros c Hnd; cbn [health_check_loop].
  - do 3 (split; [done|]). intros id.
    destruct (probe_answer c id (probe id)); [|done].
    by rewrite bool_decide_eq_false_2 by apply not_elem_of_nil.
  - apply NoDup_cons in Hnd as [Hx Hnd].
    destruct (IH (mark_instance c x (probe x)) Hnd) as (Hmin & Hmax & Hk & Hid).
    destruct (mark_instance_bounds c x (probe x)) as (Hmin' & Hmax' & Hk').
    split; [congruence|]. split; [congruence|]. split; [congruence|].
    intros id. specialize (Hid id).
    destruct (decide (x = id)) as [->|Hne].
    + rewrite bool_decide_eq_true_2 by (apply elem_of_cons; by left).
      rewrite (bool_decide_eq_false_2 (id ∈ ids)) in Hid by done.
      destruct (probe_answer c id (probe id)) as [b|] eqn:E.
      * destruct (mark_instance_self c id (probe id) b E) as [Hh Hu].
        assert ((id ∈ healthy_instances
                   (health_check_loop ids probe (mark_instance c id (probe id)))
                 <-> id ∈ healthy_instances (mark_instance c id (probe id)))
                /\ (id ∈ unhealthy_instances
                   (health_check_loop ids probe (mark_instance c id (probe id)))
                 <-> id ∈ unhealthy_instances (mark_instance c id (probe id))))
          as [H1 H2].
        { by destruct (probe_answer (mark_instance c id (probe id)) id
                         (probe id)). }
        by rewrite H1, H2.
      * rewrite (mark_instance_unregistered c id (probe id) E) in Hid |- *.
        by rewrite E in Hid.
    + destruct (mark_instance_other c x (probe x) id Hne) as (Hg & Hh & Hu).
      assert (probe_answer (mark_instance c x (probe x)) id (probe id)
              = probe_answer c id (probe id)) as Hpa.
      { unfold probe_answer. by rewrite Hg. }
      rewrite Hpa in Hid.
      destruct (probe_answer c id (probe id)) as [b|]; [|by rewrite <- Hh, <- Hu].
      destruct (decide (id ∈ ids)) as [Hin|Hni].
      * rewrite bool_decide_eq_true_2 in Hid by done.
        rewrite bool_decide_eq_true_2 by (apply elem_of_cons; by right).
        done.
      * rewrite bool_decide_eq_false_2 in Hid by done.
        rewrite bool_decide_eq_false_2
          by (rewrite elem_of_cons; intros [?|?]; congruence).
        by rewrite <- Hh, <- Hu.
Qed.

Lemma registered_enumerated {V}
    (list_of_set : gset string -> list string) (d : dict V) (id : string) :
  enumerates list_of_set ->
  dict_mem d id = true ->
  id ∈ list_of_set (list_to_set (dict_keys d)).
Proof.
  intros Hen Hm. destruct (Hen (list_to_set (dict_keys d))) as [_ Hin].
  by apply Hin, elem_of_list_to_set, dict_mem_keys.
Qed.

(** X20: the probing half of the coordinator's health check decides the
    membership of every registered instance by the answer of its own probe:
    afterwards the instance is healthy exactly when the probe answered yes
    and unhealthy exactly when it answered no; ids that are not registered
    keep their membership, and the registry keeps its keys. *)
Theorem probe_all_marks_every_instance
    (list_of_set : gset string -> list string)
    (c : InstanceCoordinator) (probe : string -> HealthOutcome) :
  enumerates list_of_set ->
  let c1 := probe_all_instances list_of_set c probe in
  dict_keys (browser_manager c1) = dict_keys (browser_manager c) /\
  forall id,
    match probe_answer c id (probe id) with
    | Some b =>
        (id ∈ healthy_instances c1 <-> b = true) /\
        (id ∈ unhealthy_instances c1 <-> b = false)
    | None =>
        (id ∈ healthy_instances c1 <-> id ∈ healthy_instances c) /\
        (id ∈ unhealthy_instances c1 <-> id ∈ unhealthy_instances c)
    end.
Proof.
  intros Hen. unfold probe_all_instances.
  destruct (Hen (list_to_set (dict_keys (browser_manager c)))) as [Hnd Hin].
  destruct (health_check_loop_spec probe _ c Hnd) as (_ & _ & Hk & Hid).
  split; [done|]. intros id. specialize (Hid id).
  destruct (probe_answer c id (probe id)) as [b|] eqn:E; [|done].
  rewrite bool_decide_eq_true_2 in Hid; [done|].
  apply registered_enumerated; [done|].
  unfold probe_answer, get_instance in E. unfold dict_mem.
  by destruct (dict_get (browser_manager c) id).
Qed.

Lemma probe_all_marks_every_instance_witness :
  let c := sample_pool {["a"; "c"]} ∅ ready in
  let probe := fun id : string =>
    {| responsive := negb (String.eqb id "c"); session_expired := false;
       regenerated := false |} in
  let c1 := probe_all_instances elements c probe in
  dict_keys (browser_manager c1) = dict_keys (browser_manager c) /\
  forall id,
    match probe_answer c id (probe id) with
    | Some b =>
        (id ∈ healthy_instances c1 <-> b = true) /\
        (id ∈ unhealthy_instances c1 <-> b = false)
    | None =>
        (id ∈ healthy_instances c1 <-> id ∈ healthy_instances c) /\
        (id ∈ unhealthy_instances c1 <-> id ∈ unhealthy_instances c)
    end.
Proof.
  apply (probe_all_marks_every_instance elements
           (sample_pool {["a"; "c"]} ∅ ready)).
  exact elements_enumerates.
Defined.

Lemma remove_instance_partitioned c id :
  dict_wf (browser_manager c) -> partitioned c ->
  partitioned (snd (remove_instance c id)).
Proof.
  intros Hwf Hp.
  destruct (remove_instance_cases c id) as [->|(_ & _ & ->)]; [done|].
  intros x. cbn [browser_manager healthy_instances unhealthy_instances
                 with_pool].
  destruct (decide (id = x)) as [->|Hne].
  - by rewrite dict_mem_del_eq.
  - rewrite dict_mem_del_ne by done. intros Hx. specialize (Hp x Hx).
    set_solver.
Qed.

Lemma create_instance_partitioned c o :
  uuid o <> "" -> uuid o ∉ unhealthy_instances c ->
  partitioned c -> partitioned (snd (create_instance c o)).
Proof.
  intros Hne Hfresh Hp.
  destruct (create_instance_cases c o) as [->|(_ & inst & m & ->)]; [done|].
  apply String.eqb_neq in Hne. rewrite Hne.
  intros x. cbn [browser_manager healthy_instances unhealthy_instances
                 with_pool].
  rewrite dict_mem_set.
  destruct (String.eqb_spec (uuid o) x) as [<-|Hx]; cbn [orb].
  - intros _. set_solver.
  - intros Hm. specialize (Hp x Hm). set_solver.
Qed.

Lemma remove_instance_frame c id :
  min_instances (snd (remove_instance c id)) = min_instances c /\
  (dict_wf (browser_manager c) ->
   dict_wf (browser_manager (snd (remove_instance c id)))) /\
  unhealthy_instances (snd (remove_instance c id)) ⊆ unhealthy_instances c.
Proof.
  destruct (remove_instance_cases c id) as [->|(_ & _ & ->)]; [done|].
  cbn [min_instances browser_manager unhealthy_instances with_pool].
  split; [done|]. split; [apply dict_del_wf|set_solver].
Qed.

Lemma create_instance_frame c o :
  min_instances (snd (create_instance c o)) = min_instances c /\
  (dict_wf (browser_manager c) ->
   dict_wf (browser_manager (snd (create_instance c o)))) /\
  unhealthy_instances (snd (create_instance c o)) = unhealthy_instances c.
Proof.
  destruct (create_instance_cases c o) as [->|(_ & inst & m & ->)]; [done|].
  cbn [min_instances browser_manager unhealthy_instances with_pool].
  split; [done|]. split; [apply dict_set_wf|done].
Qed.

Lemma handle_unhealthy_loop_partitioned (world : nat -> CreateOutcome)
    (ids : list string) : forall k c,
  (forall j, uuid (world j) <> "" /\
             uuid (world j) ∉ unhealthy_instances c) ->
  dict_wf (browser_manager c) -> partitioned c ->
  partitioned (handle_unhealthy_loop ids k world c).
Proof.
  induction ids as [|x ids IH]; intros k c Hw Hwf Hp;
    cbn [handle_unhealthy_loop]; [done|].
  destruct (remove_instance_frame c x) as (_ & Hwf1 & Hu1).
  pose proof (remove_instance_partitioned c x Hwf Hp) as Hp1.
  set (c1 := snd (remove_instance c x)) in *.
  destruct (create_instance_frame c1 (world k)) as (_ & Hwf2 & Hu2).
  destruct (Z.of_nat (size (healthy_instances c1)) <? min_instances c1).
  - apply IH.
    + intros j. destruct (Hw j) as [H1 H2]. split; [done|].
      rewrite Hu2. set_solver.
    + auto.
    + destruct (Hw k) as [H1 H2].
      apply create_instance_partitioned; [done|set_solver|done].
  - apply IH; [|auto|done].
    intros j. destruct (Hw j) as [H1 H2]. split; [done|set_solver].
Qed.

(** X21: after a whole health check of the coordinator every registered
    instance is in exactly one of the two membership sets, the instances
    registered as replacements included, when the replacements' ids are
    fresh uuids. *)
Theorem health_check_all_partitions
    (list_of_set : gset string -> list string)
    (c : InstanceCoordinator) (probe : string -> HealthOutcome)
    (world : nat -> CreateOutcome) :
  enumerates list_of_set ->
  dict_wf (browser_manager c) ->
  (forall j, uuid (world j) <> "" /\
             (uuid (world j) ∉ unhealthy_instances c) /\
             dict_mem (browser_manager c) (uuid (world j)) = false) ->
  partitioned (health_check_all_instances list_of_set c probe world).
Proof.
  intros Hen Hwf Hw.
  unfold health_check_all_instances, probe_all_instances.
  destruct (Hen (list_to_set (dict_keys (browser_manager c)))) as [Hnd _].
  destruct (health_check_loop_spec probe _ c Hnd) as (_ & _ & Hk & Hid).
  cbv zeta in Hk, Hid.
  set (c1 := health_check_loop _ probe c) in *.
  apply handle_unhealthy_loop_partitioned.
  - intros j. destruct (Hw j) as (H1 & H2 & H3). split; [done|].
    specialize (Hid (uuid (world j))).
    unfold probe_answer, get_instance in Hid. unfold dict_mem in H3.
    destruct (dict_get (browser_manager c) (uuid (world j))); [done|].
    cbn in Hid. by rewrite (proj2 Hid).
  - unfold dict_wf. by rewrite Hk.
  - intros id Hm. specialize (Hid id).
    apply dict_mem_keys in Hm. rewrite Hk in Hm. apply dict_mem_keys in Hm.
    rewrite bool_decide_eq_true_2 in Hid
      by (by apply registered_enumerated).
    unfold probe_answer, get_instance in Hid. unfold dict_mem in Hm.
    destruct (dict_get (browser_manager c) id); [|done].
    cbn in Hid. destruct Hid as [-> ->].
    by destruct (health_check b (probe id)).2.
Qed.

Lemma health_check_all_partitions_witness :
  partitioned
    (health_check_all_instances elements (sample_pool {["a"; "c"]} ∅ ready)
       (fun id : string =>
          {| responsive := negb (String.eqb id "c");
             session_expired := false; regenerated := false |})
       (sample_world ["r1"; "r2"])).
Proof.
  apply health_check_all_partitions.
  - exact elements_enumerates.
  - unfold dict_wf. simpl. repeat constructor; set_solver.
  - intros j.
    destruct j as [|[|[|j]]]; simpl;
      (split; [discriminate|split; [set_solver|reflexivity]]).
Defined.

(** ** Replacing unhealthy instances *)

Lemma create_instance_grows c o :
  let c' := snd (create_instance c o) in
  min_instances c' = min_instances c /\
  unhealthy_instances c' = unhealthy_instances c /\
  healthy_instances c ⊆ healthy_instances c' /\
  (size (healthy_instances c') <= S (size (healthy_instances c)))%nat /\
  (forall id, dict_mem (browser_manager c) id = true ->
              dict_mem (browser_manager c') id = true).
Proof.
  cbv zeta.
  destruct (create_instance_cases c o) as [->|(_ & inst & m & ->)].
  - repeat split; try done. lia.
  - cbn [min_instances browser_manager healthy_instances unhealthy_instances
         with_pool].
    split; [done|]. split; [done|].
    split; [destruct (String.eqb _ _); set_solver|]. split.
    + destruct (String.eqb _ _); [lia|].
      rewrite size_union_alt, size_singleton.
      pose proof (subseteq_size (healthy_instances c ∖ {[uuid o]})
                    (healthy_instances c)) as Hs.
      assert (healthy_instances c ∖ {[uuid o]} ⊆ healthy_instances c)
        by set_solver.
      specialize (Hs ltac:(done)). lia.
    + intros id Hm. rewrite dict_mem_set, Hm. apply orb_true_r.
Qed.

Lemma handle_unhealthy_loop_at_floor (world : nat -> CreateOutcome)
    (ids : list string) : forall k c,
  Z.of_nat (size (healthy_instances c)) <= min_instances c ->
  let c' := handle_unhealthy_loop ids k world c in
  unhealthy_instances c' = unhealthy_instances c /\
  healthy_instances c ⊆ healthy_instances c' /\
  Z.of_nat (size (healthy_instances c')) <= min_instances c /\
  (forall id, dict_mem (browser_manager c) id = true ->
              dict_mem (browser_manager c') id = true).
Proof.
  induction ids as [|x ids IH]; intros k c Hfloor; cbn [handle_unhealthy_loop].
  - cbv zeta. repeat split; done.
  - assert (snd (remove_instance c x) = c) as ->.
    { unfold remove_instance.
      destruct (Z.leb_spec (Z.of_nat (size (healthy_instances c)))
                           (min_instances c)); [done|lia]. }
    destruct (Z.ltb_spec (Z.of_nat (size (healthy_instances c)))
                         (min_instances c)) as [Hlt|Hge].
    + destruct (create_instance_grows c (world k))
        as (Hmin & Hu & Hh & Hs & Hreg).
      destruct (IH (S k) (snd (create_instance c (world k))))
        as (Hu' & Hh' & Hs' & Hreg'); [lia|].
      cbv zeta. rewrite Hu', Hu. rewrite Hmin in Hs'.
      split; [done|]. split; [set_solver|]. split; [done|]. auto.
    + by apply IH.
Qed.

(** X22: when the healthy set is not above [min_instances], handling the
    unhealthy instances removes none of them: every registered instance
    stays registered and the unhealthy set is the same afterwards; the
    handling only adds replacements, and no more than bring the healthy set
    up to [min_instances]. *)
Theorem unhealthy_kept_at_floor
    (list_of_set : gset string -> list string)
    (c : InstanceCoordinator) (world : nat -> CreateOutcome) :
  Z.of_nat (size (healthy_instances c)) <= min_instances c ->
  let c' := _handle_unhealthy_instances list_of_set c world in
  unhealthy_instances c' = unhealthy_instances c /\
  healthy_instances c ⊆ healthy_instances c' /\
  Z.of_nat (size (healthy_instances c')) <= min_instances c /\
  (forall id, dict_mem (browser_manager c) id = true ->
              dict_mem (browser_manager c') id = true).
Proof.
  intros Hfloor. unfold _handle_unhealthy_instances.
  by apply handle_unhealthy_loop_at_floor.
Qed.

Lemma unhealthy_kept_at_floor_witness :
  let c := sample_pool {["a"]} {["c"]} failed in
  let c' := _handle_unhealthy_instances elements c (sample_world ["r1"]) in
  unhealthy_instances c' = unhealthy_instances c /\
  healthy_instances c ⊆ healthy_instances c' /\
  Z.of_nat (size (healthy_instances c')) <= min_instances c /\
  (forall id, dict_mem (browser_manager c) id = true ->
              dict_mem (browser_manager c') id = true).
Proof.
  apply (unhealthy_kept_at_floor elements
           (sample_pool {["a"]} {["c"]} failed) (sample_world ["r1"])).
  vm_compute. discriminate.
Defined.

Lemma handle_unhealthy_loop_above_floor (world : nat -> CreateOutcome)
    (ids : list string) : forall k c,
  min_instances c < Z.of_nat (size (healthy_instances c)) ->
  dict_wf (browser_manager c) ->
  (forall x, x ∈ ids -> x ∉ healthy_instances c) ->
  let c' := handle_unhealthy_loop ids k world c in
  healthy_instances c' = healthy_instances c /\
  (forall id, dict_mem (browser_manager c') id
              = dict_mem (browser_manager c) id && bool_decide (id ∉ ids)) /\
  (forall id, id ∈ unhealthy_instances c' <->
              id ∈ unhealthy_instances c /\
              (id ∈ ids -> dict_mem (browser_manager c) id = false)).
Proof.
  induction ids as [|x ids IH]; intros k c Hab Hwf Hdis;
    cbn [handle_unhealthy_loop]; cbv zeta.
  - split; [done|]. split.
    + intros id. rewrite bool_decide_eq_true_2 by apply not_elem_of_nil.
      by rewrite andb_true_r.
    + intros id. split; [|by intros [? _]].
      intros H. split; [done|]. intros Hin. by apply elem_of_nil in Hin.
  - assert (x ∉ healthy_instances c) as Hx
      by (apply Hdis, elem_of_cons; by left).
    assert (forall y, y ∈ ids -> y ∉ healthy_instances c) as Hdis'
      by (intros y Hy; apply Hdis, elem_of_cons; by right).
    destruct (dict_mem (browser_manager c) x) eqn:Hm.
    + assert (snd (remove_instance c x)
              = with_pool c (dict_del (browser_manager c) x)
                  (healthy_instances c ∖ {[x]})
                  (unhealthy_instances c ∖ {[x]})
                  (delete x (instance_metrics c))) as ->.
      { unfold remove_instance, browser_manager.remove_instance.
        destruct (Z.leb_spec (Z.of_nat (size (healthy_instances c)))
                             (min_instances c)); [lia|].
        by rewrite Hm. }
      set (c1 := with_pool c (dict_del (browser_manager c) x)
                   (healthy_instances c ∖ {[x]})
                   (unhealthy_instances c ∖ {[x]})
                   (delete x (instance_metrics c))).
      assert (healthy_instances c1 = healthy_instances c) as Hh1
        by (subst c1; cbn [healthy_instances with_pool]; set_solver).
      destruct (Z.ltb_spec (Z.of_nat (size (healthy_instances c1)))
                           (min_instances c1)) as [Hlt|_].
      { rewrite Hh1 in Hlt. subst c1. cbn [min_instances with_pool] in Hlt.
        lia. }
      destruct (IH (S k) c1) as (Hh & Hreg & Hun).
      { by rewrite Hh1. }
      { subst c1. cbn [browser_manager with_pool]. by apply dict_del_wf. }
      { by rewrite Hh1. }
      split; [congruence|]. split.
      * intros id. rewrite Hreg. subst c1. cbn [browser_manager with_pool].
        destruct (decide (x = id)) as [->|Hne].
        -- rewrite dict_mem_del_eq by done.
           rewrite (bool_decide_eq_false_2 (id ∉ id :: ids)).
           ++ by rewrite andb_false_r.
           ++ intros H. apply H, elem_of_cons. by left.
        -- rewrite dict_mem_del_ne by done. f_equal.
           apply bool_decide_ext. rewrite not_elem_of_cons. split; [|tauto].
           intros H. split; [congruence|done].
      * intros id. rewrite Hun. subst c1.
        cbn [browser_manager unhealthy_instances with_pool].
        rewrite elem_of_difference, elem_of_singleton, elem_of_cons.
        destruct (decide (x = id)) as [->|Hne].
        -- split; [tauto|]. intros [_ H]. rewrite Hm in H.
           discriminate H. by left.
        -- rewrite dict_mem_del_ne by done.
           split.
           ++ intros [[H1 _] H2]. split; [done|].
              intros [->|Hin]; [done|auto].
           ++ intros [H1 H2]. split; [split; [done|congruence]|auto].
    + assert (snd (remove_instance c x) = c) as ->.
      { unfold remove_instance, browser_manager.remove_instance.
        destruct (Z.leb_spec (Z.of_nat (size (healthy_instances c)))
                             (min_instances c)); [lia|].
        by rewrite Hm. }
      destruct (Z.ltb_spec (Z.of_nat (size (healthy_instances c)))
                           (min_instances c)); [lia|].
      destruct (IH (S k) c Hab Hwf Hdis') as (Hh & Hreg & Hun).
      split; [done|]. split.
      * intros id. rewrite Hreg.
        destruct (decide (id = x)) as [->|Hne]; [by rewrite Hm|].
        f_equal. apply bool_decide_ext. rewrite not_elem_of_cons. tauto.
      * intros id. rewrite Hun. rewrite elem_of_cons.
        split; intros [H1 H2]; (split; [done|]).
        -- intros [->|Hin]; auto.
        -- auto.
Qed.

(** X23: when the healthy set is above [min_instances] (and no unhealthy
    instance is also in it), handling the unhealthy instances removes every
    registered one of them from the registry and from the unhealthy set,
    creates nothing and leaves the healthy set and every other registered
    instance as they were. *)
Theorem unhealthy_removed_above_floor
    (list_of_set : gset string -> list string)
    (c : InstanceCoordinator) (world : nat -> CreateOutcome) :
  enumerates list_of_set ->
  min_instances c < Z.of_nat (size (healthy_instances c)) ->
  dict_wf (browser_manager c) ->
  healthy_instances c ## unhealthy_instances c ->
  let c' := _handle_unhealthy_instances list_of_set c world in
  healthy_instances c' = healthy_instances c /\
  (forall id, dict_mem (browser_manager c') id
              = dict_mem (browser_manager c) id
                && bool_decide (id ∉ unhealthy_instances c)) /\
  (forall id, id ∈ unhealthy_instances c' <->
              id ∈ unhealthy_instances c /\
              dict_mem (browser_manager c) id = false).
Proof.
  intros Hen Hab Hwf Hdis. unfold _handle_unhealthy_instances.
  destruct (Hen (unhealthy_instances c)) as [_ Hin].
  destruct (handle_unhealthy_loop_above_floor world
              (list_of_set (unhealthy_instances c)) 0 c Hab Hwf)
    as (Hh & Hreg & Hun).
  { intros x Hx. apply Hin in Hx. set_solver. }
  cbv zeta. split; [done|]. split.
  - intros id. rewrite Hreg. f_equal. apply bool_decide_ext.
    by rewrite Hin.
  - intros id. rewrite Hun. rewrite Hin. tauto.
Qed.

Lemma unhealthy_removed_above_floor_witness :
  let c := sample_pool_of_three in
  let c' := _handle_unhealthy_instances elements c (sample_world []) in
  healthy_instances c' = healthy_instances c /\
  (forall id, dict_mem (browser_manager c') id
              = dict_mem (browser_manager c) id
                && bool_decide (id ∉ unhealthy_instances c)) /\
  (forall id, id ∈ unhealthy_instances c' <->
              id ∈ unhealthy_instances c /\
              dict_mem (browser_manager c) id = false).
Proof.
  apply (unhealthy_removed_above_floor elements sample_pool_of_three
           (sample_world [])).
  - exact elements_enumerates.
  - vm_compute. reflexivity.
  - unfold dict_wf. simpl. repeat constructor; set_solver.
  - simpl. set_solver.
Defined.

(** ** Scaling *)

Lemma dict_del_length {V} (d : dict V) (k : string) :
  (length d <= S (length (dict_del d k)))%nat /\
  (length (dict_del d k) <= length d)%nat.
Proof.
  induction d as [|[k0 v0] r IH]; simpl; [lia|].
  destruct (String.eqb k0 k); simpl; lia.
Qed.

Lemma scale_up_pool c sc o later :
  fst (_scale_up c sc o later) = snd (create_instance c o).
Proof.
  unfold _scale_up. destruct (create_instance c o) as [r c'].
  by destruct (truthy r).
Qed.

Lemma scale_down_pool list_of_set c sc later :
  fst (_scale_down list_of_set c sc later) = c \/
  exists id, fst (_scale_down list_of_set c sc later)
             = snd (remove_instance c id).
Proof.
  unfold _scale_down. destruct (_ <=? _); [by left|].
  destruct (least_busy _ _) as [id|]; [|by left].
  right. exists id. destruct (remove_instance c id) as [s c'].
  by destruct s.
Qed.

Lemma scale_instances_pool list_of_set c sc now later o :
  let c' := fst (scale_instances list_of_set c sc now later o) in
  c' = c \/ c' = snd (create_instance c o) \/
  exists id, c' = snd (remove_instance c id).
Proof.
  cbv zeta. unfold scale_instances.
  destruct (negb (auto_scale sc)); [by left|].
  destruct (in_cooldown sc now); [by left|].
  destruct (_ && _).
  - right. left. apply scale_up_pool.
  - destruct (_ && _); [|by left].
    destruct (scale_down_pool list_of_set c sc later) as [->|[id ->]];
      [by left|right; right; eauto].
Qed.

(** X24: a scaling decision keeps the pool within its bounds: a healthy set
    that has at least [min_instances] members still has afterwards, a
    registry within [max_instances] stays within it, and the registry
    changes by at most one instance. *)
Theorem scale_instances_within_bounds
    (list_of_set : gset string -> list string)
    (c : InstanceCoordinator) (sc : Scaling) (now later : Qc)
    (o : CreateOutcome) :
  min_instances c <= Z.of_nat (size (healthy_instances c)) ->
  within_max c ->
  let c' := fst (scale_instances list_of_set c sc now later o) in
  min_instances c' <= Z.of_nat (size (healthy_instances c')) /\
  within_max c' /\
  (length (browser_manager c') <= S (length (browser_manager c)))%nat /\
  (length (browser_manager c) <= S (length (browser_manager c')))%nat.
Proof.
  intros Hmin Hmax. cbv zeta.
  destruct (scale_instances_pool list_of_set c sc now later o)
    as [->|[->|[id ->]]].
  - repeat split; try done; lia.
  - destruct (create_instance_cases c o) as [->|(Hroom & inst & m & ->)].
    + repeat split; try done; lia.
    + unfold within_max in *.
      cbn [min_instances max_instances browser_manager healthy_instances
           with_pool].
      rewrite dict_set_length.
      assert (size (healthy_instances c)
              <= size (if String.eqb (uuid o) "" then healthy_instances c
                       else {[uuid o]} ∪ healthy_instances c))%nat.
      { destruct (String.eqb _ _); [lia|].
        apply subseteq_size. set_solver. }
      destruct (dict_mem _ _); repeat split; lia.
  - destruct (remove_instance_cases c id) as [->|(Hab & _ & ->)].
    + repeat split; try done; lia.
    + unfold within_max in *.
      cbn [min_instances max_instances browser_manager healthy_instances
           with_pool].
      destruct (dict_del_length (browser_manager c) id) as [H1 H2].
      assert (size (healthy_instances c)
              <= S (size (healthy_instances c ∖ {[id]})))%nat.
      { destruct (decide (id ∈ healthy_instances c)) as [Hin|Hni].
        - assert (healthy_instances c
                  = {[id]} ∪ (healthy_instances c ∖ {[id]})) as Heq.
          { apply set_eq. intros x. rewrite elem_of_union,
              elem_of_difference, elem_of_singleton.
            destruct (decide (x = id)) as [->|]; tauto. }
          rewrite Heq at 1. rewrite size_union by set_solver.
          rewrite size_singleton. lia.
        - assert (healthy_instances c ∖ {[id]} = healthy_instances c) as ->
            by set_solver.
          lia. }
      repeat split; lia.
Qed.

Lemma scale_instances_within_bounds_witness :
  let c := sample_pool_of_three in
  let sc := {| auto_scale := true; scale_up_threshold := of_int 1;
               scale_down_threshold := of_int 1;
               last_scale_action := None; scale_cooldown := of_int 60 |} in
  let c' := fst (scale_instances elements c sc (of_int 100) (of_int 101)
                   (sample_world [] 0)) in
  min_instances c' <= Z.of_nat (size (healthy_instances c')) /\
  within_max c' /\
  (length (browser_manager c') <= S (length (browser_manager c)))%nat /\
  (length (browser_manager c) <= S (length (browser_manager c')))%nat.
Proof.
  apply (scale_instances_within_bounds elements sample_pool_of_three).
  - vm_compute. discriminate.
  - vm_compute. discriminate.
Defined.

(** ** Overlapping creations *)

Lemma register_created_launched c o :
  launches o ->
  exists inst h m,
    snd (register_created c o)
    = with_pool c (dict_set (browser_manager c) (uuid o) inst)
        h (unhealthy_instances c) m.
Proof.
  unfold launches, register_created, browser_manager.create_instance.
  destruct (browser_manager.initialize _ _) as [inst success].
  cbn [snd]. intros ->. destruct (truthy _); cbn [snd]; eauto.
Qed.

(** X14: the bound of [create_instance] holds for calls made one after the
    other and not for calls that overlap.  On a pool with one place left
    under [max_instances], two creations with successful launches and new,
    distinct ids: made in turn, the second is refused and the registry ends
    with [max_instances] instances; overlapping, both pass the test and the
    registry ends with [max_instances + 1]. *)
Theorem overlapping_creates_exceed_max
    (c : InstanceCoordinator) (o1 o2 : CreateOutcome) :
  Z.of_nat (length (browser_manager c)) + 1 = max_instances c ->
  launches o1 -> launches o2 ->
  uuid o1 <> uuid o2 ->
  dict_mem (browser_manager c) (uuid o1) = false ->
  dict_mem (browser_manager c) (uuid o2) = false ->
  let in_turn := create_instance (snd (create_instance c o1)) o2 in
  let overlapping := create_instance_overlapping c o1 o2 in
  fst in_turn = None /\
  Z.of_nat (length (browser_manager (snd in_turn))) = max_instances c /\
  Z.of_nat (length (browser_manager (snd overlapping)))
  = max_instances c + 1.
Proof.
  intros Hroom Hl1 Hl2 Hne Hm1 Hm2. cbv zeta.
  destruct (register_created_launched c o1 Hl1) as (i1 & h1 & m1 & E1).
  set (c1 := with_pool c (dict_set (browser_manager c) (uuid o1) i1)
               h1 (unhealthy_instances c) m1) in *.
  destruct (register_created_launched c1 o2 Hl2) as (i2 & h2 & m2 & E2).
  assert (length (browser_manager c1) = S (length (browser_manager c)))
    as Hlen1.
  { subst c1. cbn [browser_manager with_pool].
    by rewrite dict_set_length, Hm1. }
  assert (dict_mem (browser_manager c1) (uuid o2) = false) as Hm2'.
  { subst c1. cbn [browser_manager with_pool].
    rewrite dict_mem_set, Hm2.
    apply String.eqb_neq in Hne. by rewrite Hne. }
  assert (snd (create_instance c o1) = c1) as Hc1.
  { unfold create_instance.
    destruct (Z.geb_spec (Z.of_nat (length (browser_manager c)))
                         (max_instances c)); [lia|done]. }
  rewrite Hc1. split; [|split].
  - rewrite create_instance_at_max; [done|].
    rewrite Hlen1. subst c1. cbn [max_instances with_pool]. lia.
  - rewrite create_instance_at_max.
    + cbn [snd]. rewrite Hlen1. lia.
    + rewrite Hlen1. subst c1. cbn [max_instances with_pool]. lia.
  - unfold create_instance_overlapping.
    destruct (Z.geb_spec (Z.of_nat (length (browser_manager c)))
                         (max_instances c)); [lia|].
    destruct (register_created c o1) as [r1 c1'] eqn:R1.
    cbn [snd] in E1. subst c1'.
    destruct (register_created c1 o2) as [r2 c2'] eqn:R2.
    cbn [snd] in E2. subst c2'. cbn [snd browser_manager with_pool].
    rewrite dict_set_length, Hm2', Hlen1. lia.
Qed.

Lemma overlapping_creates_exceed_max_witness :
  let c := sample_pool_one_place_left in
  let o1 := sample_world ["r1"; "r2"] 0 in
  let o2 := sample_world ["r1"; "r2"] 1 in
  let in_turn := create_instance (snd (create_instance c o1)) o2 in
  let overlapping := create_instance_overlapping c o1 o2 in
  fst in_turn = None /\
  Z.of_nat (length (browser_manager (snd in_turn))) = max_instances c /\
  Z.of_nat (length (browser_manager (snd overlapping)))
  = max_instances c + 1.
Proof.
  apply (overlapping_creates_exceed_max sample_pool_one_place_left
           (sample_world ["r1"; "r2"] 0) (sample_world ["r1"; "r2"] 1));
    try reflexivity.
  discriminate.
Defined.
